(** * markup.template: the template engine, embedded and verified

    A shallow embedding of [markup/template.py]: the scoped [Context], the
    eight directives, [Template.parse], [Template.generate] with its recursive
    [_transform], and [Template._interpolate].

    Python generators are embedded as resumptions over the shared mutable
    state (the context stack, the directive lists held by SUB events and the
    bodies captured by directive objects), so that the interleaving of a
    generator's effects with its consumer is kept. *)

From Stdlib Require Import ZArith Ascii String List Lia Bool Sorted DecimalString
  FunctionalExtensionality.
From stdpp Require Import base option gmap strings list.
Import ListNotations.

Set Warnings "-register-all".

Local Open Scope string_scope.
Local Open Scope list_scope.

(** ** Exceptions and outcomes *)

(** The message of a [TemplateSyntaxError]: a text, or the [SyntaxError]
    object it was built from when that error has no line number (its
    [lineno] is [None]) and [TemplateSyntaxError.__init__] leaves the message
    alone. *)
Inductive message : Type :=
| MsgText (text : string)
| MsgSyntaxError (msg : string) (filename : option string) (offset : option Z).

(** The exceptions the module raises or lets through. A [SyntaxError] has
    the attributes [msg], [filename], [lineno] and [offset] of the builtin
    class. [PyError] stands for any other builtin exception, named by its
    class. *)
Inductive exn : Type :=
| SyntaxError (msg : string) (filename : option string) (lineno offset : option Z)
| TemplateSyntaxError (message : message) (filename : string) (lineno offset : Z)
| BadDirectiveError (localname filename : string) (lineno : Z)
| AssertionError (msg : string)
| NotImplementedError
| PyError (cls : string).

Inductive outcome (A : Type) : Type :=
| Ok (a : A)
| Err (x : exn).
Arguments Ok {A} a.
Arguments Err {A} x.

Definition obind {A B} (m : outcome A) (f : A -> outcome B) : outcome B :=
  match m with
  | Ok a => f a
  | Err x => Err x
  end.

Notation "'do' x <- m ; k" := (obind m (fun x => k))
  (at level 10, x name, m at level 100, k at level 200).

(** ** Values *)

(** The values template expressions evaluate to. A callable bound by
    [py:def] is known by the identity of its directive object. *)
Inductive value : Type :=
| VNone
| VBool (b : bool)
| VInt (n : Z)
| VStr (s : string)
| VList (l : list value)
| VTuple (l : list value)
| VDict (items : list (string * value))
| VCallable (did : nat).

(** Python truth value. *)
Definition truthy (v : value) : bool :=
  match v with
  | VNone => false
  | VBool b => b
  | VInt n => negb (n =? 0)%Z
  | VStr s => negb (String.eqb s "")
  | VList l | VTuple l => negb (match l with [] => true | _ => false end)
  | VDict items => negb (match items with [] => true | _ => false end)
  | VCallable _ => true
  end.

Definition is_None (v : value) : bool :=
  match v with VNone => true | _ => false end.

(** ** Context *)

(** [Context.stack]: a list of frames, the top-most first. *)
Record Context : Type := { stack : list (gmap string value) }.

Module Ctx.

(** [Context.__init__] *)
Definition init (data : gmap string value) : Context := {| stack := [data] |}.

(** [Context.get]: the first frame that has the key; [None] when no frame
    has it. *)
Fixpoint get_frames (key : string) (frames : list (gmap string value)) : value :=
  match frames with
  | [] => VNone
  | frame :: rest =>
      match frame !! key with
      | Some v => v
      | None => get_frames key rest
      end
  end.

Definition get (key : string) (c : Context) : value := get_frames key (stack c).

(** [Context.__setitem__]: [self.stack[0][key] = value] *)
Definition setitem (key : string) (v : value) (c : Context) : outcome Context :=
  match stack c with
  | [] => Err (PyError "IndexError")
  | frame :: rest => Ok {| stack := <[key := v]> frame :: rest |}
  end.

(** [Context.push]: [self.stack.insert(0, data)]. The frame [data] is
    passed as keyword arguments to a method whose first parameter is [self]:
    a call with a frame that binds the name [self] raises [TypeError]
    (multiple values for the argument) before the body runs. *)
Definition push (data : gmap string value) (c : Context) : outcome Context :=
  match data !! "self" with
  | Some _ => Err (PyError "TypeError")
  | None => Ok {| stack := data :: stack c |}
  end.

(** [Context.pop]: the assertion (assertions are on) looks at the stack
    before the removal. *)
Definition pop (c : Context) : outcome Context :=
  match stack c with
  | [] => Err (AssertionError "Pop from empty context stack")
  | _ :: rest => Ok {| stack := rest |}
  end.

(** The operations of a context, for sequences of calls. *)
Inductive op : Type :=
| OpGet (key : string)
| OpSet (key : string) (v : value)
| OpPush (data : gmap string value)
| OpPop.

Definition run_op (o : op) (c : Context) : outcome Context :=
  match o with
  | OpGet _ => Ok c
  | OpSet key v => setitem key v c
  | OpPush data => push data c
  | OpPop => pop c
  end.

Fixpoint run_ops (ops : list op) (c : Context) : outcome Context :=
  match ops with
  | [] => Ok c
  | o :: rest => do c' <- run_op o c; run_ops rest c'
  end.

Definition pushes (ops : list op) : nat :=
  length (List.filter (fun o => match o with OpPush _ => true | _ => false end) ops).

Definition pops (ops : list op) : nat :=
  length (List.filter (fun o => match o with OpPop => true | _ => false end) ops).

End Ctx.

(** ** Expressions, names and positions *)

(** [markup.eval.Expression]: the source text, compiled on first use. *)
Record Expression : Type := { source : string }.

(** [markup.core.QName]: a namespace and a local name. *)
Record QName : Type := { namespace : string; localname : string }.

Definition QName_eqb (a b : QName) : bool :=
  String.eqb (namespace a) (namespace b) && String.eqb (localname a) (localname b).

(** A position is a [(lineno, offset)] pair. *)
Definition pos : Type := (Z * Z)%type.

(** What [_interpolate] yields: [(Stream.TEXT, text, pos)] and
    [(Template.EXPR, Expression(source), pos)]. *)
Inductive fragment : Type :=
| FText (data : string) (p : pos)
| FExpr (e : Expression) (p : pos).

(** ** The two interpolation patterns and [re.split] *)

Module Re.

Definition newline : ascii := ascii_of_nat 10.

Definition is_alpha (c : ascii) : bool :=
  let n := nat_of_ascii c in
  (Nat.leb 65 n && Nat.leb n 90) || (Nat.leb 97 n && Nat.leb n 122).

Definition is_digit (c : ascii) : bool :=
  let n := nat_of_ascii c in Nat.leb 48 n && Nat.leb n 57.

(** A letter, a digit, an underscore or a dot. *)
Definition is_word (c : ascii) : bool :=
  is_alpha c || is_digit c || Ascii.eqb c "_" || Ascii.eqb c ".".

(** The rest of the braced group once its first character is taken:
    the shortest run of characters other than a newline that a brace
    closes. Gives the run and what follows the brace. *)
Fixpoint full_close (s : string) : option (string * string) :=
  match s with
  | EmptyString => None
  | String c rest =>
      if Ascii.eqb c "}" then Some (EmptyString, rest)
      else if Ascii.eqb c newline then None
      else match full_close rest with
           | Some (g, after) => Some (String c g, after)
           | None => None
           end
  end.

(** The greedy run of word characters at the start of [s]. *)
Fixpoint span_word (s : string) : string :=
  match s with
  | EmptyString => EmptyString
  | String c rest => if is_word c then String c (span_word rest) else EmptyString
  end.

(** [_FULL_EXPR_RE]: a dollar sign not preceded by one, an opening brace,
    the group [.+?] and a closing brace. [_SHORT_EXPR_RE]: a dollar sign not
    preceded by one, then the group: a letter and a greedy run of letters,
    digits, underscores and dots. *)
Inductive regex : Type :=
| FULL_EXPR_RE
| SHORT_EXPR_RE.

(** A match of the pattern at the very start of [s], where [after_dollar]
    says whether the character before [s] is a dollar sign (the negative
    lookbehind): the group and the length of the whole match. *)
Definition match_here (p : regex) (after_dollar : bool) (s : string)
  : option (string * nat) :=
  if after_dollar then None else
  match p, s with
  | FULL_EXPR_RE, String d (String b (String c rest)) =>
      if Ascii.eqb d "$" && Ascii.eqb b "{" && negb (Ascii.eqb c newline) then
        match full_close rest with
        | Some (g, _) => Some (String c g, 3 + String.length (String c g))
        | None => None
        end
      else None
  | SHORT_EXPR_RE, String d (String c rest) =>
      if Ascii.eqb d "$" && is_alpha c then
        let g := String c (span_word rest) in Some (g, 1 + String.length g)
      else None
  | _, _ => None
  end.

Definition cons_head (c : ascii) (pieces : list string) : list string :=
  match pieces with
  | [] => [String c EmptyString]
  | piece :: more => String c piece :: more
  end.

(** [pattern.split(text)] for a pattern with one group: the text between
    the matches, found left to right without overlap, alternating with the
    group of each match. [skip] counts the characters of the current match
    still to pass over. *)
Fixpoint split_go (p : regex) (skip : nat) (after_dollar : bool) (s : string)
  : list string :=
  match s with
  | EmptyString => [EmptyString]
  | String c rest =>
      match skip with
      | S k => split_go p k false rest
      | O =>
          match match_here p after_dollar s with
          | Some (g, n) => EmptyString :: g :: split_go p (n - 1) false rest
          | None => cons_head c (split_go p 0 (Ascii.eqb c "$") rest)
          end
      end
  end.

Definition split (p : regex) (text : string) : list string :=
  split_go p 0 false text.

(** [s.replace('$$', '$')] *)
Fixpoint unescape (s : string) : string :=
  match s with
  | String c (String d rest as tail) =>
      if Ascii.eqb c "$" && Ascii.eqb d "$" then String "$" (unescape rest)
      else String c (unescape tail)
  | _ => s
  end.

End Re.

(** ** [Template._interpolate] *)

Definition nonempty (s : string) : bool :=
  match s with EmptyString => false | _ => true end.

(** The loop [for idx, group in enumerate(...)] of the inner generator of
    [_interpolate]. The list [patterns] belongs to the enclosing call and is
    shared by every activation of the inner function: each activation pops
    its first element, and the loop of an outer activation sees what an inner
    one left. [rec] is the inner function itself. *)
Fixpoint interpolate_groups
    (rec : list Re.regex -> string -> outcome (list fragment) * list Re.regex)
    (p : pos) (idx : nat) (groups : list string) (patterns : list Re.regex)
  : outcome (list fragment) * list Re.regex :=
  match groups with
  | [] => (Ok [], patterns)
  | group :: rest =>
      if Nat.odd idx then
        let '(r, ps) := interpolate_groups rec p (S idx) rest patterns in
        (do fs <- r; Ok (FExpr {| source := group |} p :: fs), ps)
      else if nonempty group then
        match patterns with
        | _ :: _ =>
            match rec patterns group with
            | (Ok results, ps1) =>
                let '(r, ps2) := interpolate_groups rec p (S idx) rest ps1 in
                (do fs <- r; Ok (results ++ fs), ps2)
            | (Err x, ps1) => (Err x, ps1)
            end
        | [] =>
            let '(r, ps) := interpolate_groups rec p (S idx) rest patterns in
            (do fs <- r; Ok (FText (Re.unescape group) p :: fs), ps)
        end
      else interpolate_groups rec p (S idx) rest patterns
  end.

(** The inner generator of [_interpolate]: [patterns.pop(0).split(text)] and
    the loop over its pieces. [depth] bounds the nesting of activations. *)
Fixpoint _interpolate_inner (depth : nat) (p : pos) (patterns : list Re.regex)
    (text : string) : outcome (list fragment) * list Re.regex :=
  match depth with
  | O => (Err (PyError "RuntimeError"), patterns)
  | S depth' =>
      match patterns with
      | [] => (Err (PyError "IndexError"), [])
      | pat :: patterns0 =>
          interpolate_groups (_interpolate_inner depth' p) p 0 (Re.split pat text) patterns0
      end
  end.

(** [Template._interpolate(text, lineno, offset)] *)
Definition _interpolate (text : string) (p : pos) : outcome (list fragment) :=
  fst (_interpolate_inner 2 p [Re.FULL_EXPR_RE; Re.SHORT_EXPR_RE] text).

(** ** Events, directives and the shared state *)

(** The value of an attribute: the text the markup parser gives, or the
    fragments [Template.parse] interpolates it into. *)
Inductive attr_value : Type :=
| AVText (s : string)
| AVFrags (l : list fragment).

(** The kinds of event whose data the engine never looks into. *)
Inductive other_kind : Type := COMMENT | PI | DOCTYPE | PROLOG.

(** An event [(kind, data, pos)]. The data of a SUB event is the pair of a
    list object of directives, known here by its location in the state, and
    the nested events. *)
Inductive event : Type :=
| EStart (tag : QName) (attrib : list (QName * attr_value)) (p : pos)
| EEnd (tag : QName) (p : pos)
| EText (data : string) (p : pos)
| EStartNS (prefix uri : string) (p : pos)
| EEndNS (prefix : string) (p : pos)
| EOther (k : other_kind) (data : string) (p : pos)
| EExpr (e : option Expression) (p : pos)
| ESub (directives : nat) (substream : list event) (p : pos).

Definition event_pos (e : event) : pos :=
  match e with
  | EStart _ _ p | EEnd _ p | EText _ p | EStartNS _ _ p | EEndNS _ p
  | EOther _ _ p | EExpr _ p | ESub _ _ p => p
  end.

Definition is_START (e : event) : bool :=
  match e with EStart _ _ _ => true | _ => false end.

Definition is_SUB (e : event) : bool :=
  match e with ESub _ _ _ => true | _ => false end.

Definition event_of_fragment (f : fragment) : event :=
  match f with
  | FText data p => EText data p
  | FExpr e p => EExpr (Some e) p
  end.

(** A directive object. [did] is the identity of a directive object that has
    a [stream] slot; [expr] is [None] when the attribute value is empty. *)
Inductive directive : Type :=
| DefDirective (did : nat) (name : string) (args : list string)
    (defaults : gmap string value)
| MatchDirective (did : nat) (path : string)
| ForDirective (targets : list string) (expr : option Expression)
| IfDirective (expr : option Expression)
| ReplaceDirective (expr : option Expression)
| ContentDirective (expr : option Expression)
| AttrsDirective (expr : option Expression)
| StripDirective (expr : option Expression).

(** The position of a directive's class in [Template._dir_order]. *)
Definition _dir_order_index (d : directive) : nat :=
  match d with
  | DefDirective _ _ _ _ => 0
  | MatchDirective _ _ => 1
  | ForDirective _ _ => 2
  | IfDirective _ => 3
  | ReplaceDirective _ => 4
  | ContentDirective _ => 5
  | AttrsDirective _ => 6
  | StripDirective _ => 7
  end.

(** What a run of the engine reads and writes: the context, the directive
    list of every SUB event, and the [stream] slot of every function
    definition and match directive. *)
Record state : Type := {
  ctxt : Context;
  dirlists : gmap nat (list directive);
  captured : gmap nat (list event)
}.

Definition set_ctxt (c : Context) (s : state) : state :=
  {| ctxt := c; dirlists := dirlists s; captured := captured s |}.

Definition set_dirlist (loc : nat) (ds : list directive) (s : state) : state :=
  {| ctxt := ctxt s; dirlists := <[loc := ds]> (dirlists s); captured := captured s |}.

Definition set_captured (did : nat) (body : list event) (s : state) : state :=
  {| ctxt := ctxt s; dirlists := dirlists s; captured := <[did := body]> (captured s) |}.

Definition get_dirlist (loc : nat) (s : state) : list directive :=
  default [] (dirlists s !! loc).

(** [self.stream] of the directive object [did]; [[]] until it is assigned. *)
Definition get_captured (did : nat) (s : state) : list event :=
  default [] (captured s !! did).

(** ** Generators *)

(** An iterator over events: resumed in a state, it stops, yields an event
    and its continuation, or raises, each time leaving a state. *)
Inductive gen : Type :=
| Gen (next : state -> res)
with res : Type :=
| Stop (s : state)
| Yield (e : event) (s : state) (k : gen)
| Raise (x : exn) (s : state).

Definition resume (g : gen) : state -> res :=
  match g with Gen next => next end.

(** In the iterator protocol [StopIteration] is how [next()] says that the
    iterator is exhausted: an exception of that class that leaves the body
    of a generator ends the generator, and one that comes out of [next()]
    ends the loop that called it. *)
Definition is_StopIteration (x : exn) : bool :=
  match x with PyError cls => String.eqb cls "StopIteration" | _ => false end.

(** The exception [x] leaves the body of a generator. *)
Definition throw (x : exn) (s : state) : res :=
  if is_StopIteration x then Stop s else Raise x s.

(** [stream.next()], and the step of a loop [for event in stream], as the
    caller sees it. *)
Definition pull (g : gen) (s : state) : res :=
  match resume g s with
  | Raise x s1 => throw x s1
  | r => r
  end.

Definition stop : gen := Gen Stop.

Definition raise (x : exn) : gen := Gen (Raise x).

(** [iter(l)] for a list, and a loop [for event in l: yield event] followed
    by [k]. *)
Fixpoint yield_then (l : list event) (k : gen) : gen :=
  match l with
  | [] => k
  | e :: rest => Gen (fun s => Yield e s (yield_then rest k))
  end.

Definition iter (l : list event) : gen := yield_then l stop.

(** How a run ends. *)
Inductive ending : Type :=
| Finished
| Raised (x : exn).

(** [list(stream)]: the events pulled until the iterator stops or raises,
    how it ended, and the state it left. *)
Fixpoint drain (g : gen) (s : state) : list event * ending * state :=
  match g with
  | Gen next =>
      match next s with
      | Stop s1 => ([], Finished, s1)
      | Raise x s1 =>
          if is_StopIteration x then ([], Finished, s1) else ([], Raised x, s1)
      | Yield e s1 k =>
          let '(es, r, s2) := drain k s1 in (e :: es, r, s2)
      end
  end.

(** The same with a consumer that acts on the state after each event it is
    handed, before it asks for the next one. *)
Fixpoint drain_with (consume : event -> state -> state) (g : gen) (s : state)
  : list event * ending * state :=
  match g with
  | Gen next =>
      match next s with
      | Stop s1 => ([], Finished, s1)
      | Raise x s1 =>
          if is_StopIteration x then ([], Finished, s1) else ([], Raised x, s1)
      | Yield e s1 k =>
          let '(es, r, s2) := drain_with consume k (consume e s1) in (e :: es, r, s2)
      end
  end.

(** The states in which the events are handed out, for a consumer that
    leaves the state alone. *)
Fixpoint yield_states (g : gen) (s : state) : list state :=
  match g with
  | Gen next =>
      match next s with
      | Yield _ s1 k => s1 :: yield_states k s1
      | _ => []
      end
  end.

(** ** Builtins on strings and values *)

(** A character of a text is a code point below 256. White space of
    [unicode.strip()] among them: the controls 9 to 13 and 28 to 31, the
    space, the next-line control U+0085 and the no-break space U+00A0. *)
Definition is_space (c : ascii) : bool :=
  let n := nat_of_ascii c in
  (Nat.leb 9 n && Nat.leb n 13) || (Nat.leb 28 n && Nat.leb n 32)
  || Nat.eqb n 133 || Nat.eqb n 160.

Fixpoint lstrip (s : string) : string :=
  match s with
  | EmptyString => EmptyString
  | String c rest => if is_space c then lstrip rest else s
  end.

Fixpoint rstrip (s : string) : string :=
  match s with
  | EmptyString => EmptyString
  | String c rest =>
      match rstrip rest with
      | EmptyString => if is_space c then EmptyString else String c EmptyString
      | r => String c r
      end
  end.

(** [s.strip()] *)
Definition strip (s : string) : string := rstrip (lstrip s).

(** [s.replace(old, '')] for a text [old] that is not empty: every
    occurrence of [old], found from left to right without overlap, is taken
    out. [skip] counts the characters of the current occurrence still to pass
    over. *)
Fixpoint remove_go (old : string) (skip : nat) (s : string) : string :=
  match s with
  | EmptyString => EmptyString
  | String c rest =>
      match skip with
      | S k => remove_go old k rest
      | O =>
          if String.prefix old s then remove_go old (String.length old - 1) rest
          else String c (remove_go old 0 rest)
      end
  end.

Definition remove_all (old s : string) : string := remove_go old 0 s.

(** ['%d' % n] *)
Definition decimal (n : Z) : string := NilZero.string_of_int (Z.to_int n).

(** What follows the last slash of a path, the whole path when it has
    none: the base name the builtin [SyntaxError] prints. *)
Fixpoint after_last_slash (s : string) : option string :=
  match s with
  | EmptyString => None
  | String c rest =>
      match after_last_slash rest with
      | Some r => Some r
      | None => if Ascii.eqb c "/" then Some rest else None
      end
  end.

Definition basename (s : string) : string := default s (after_last_slash s).

(** [str(err)] for a [SyntaxError] of the interpreter: the message, followed
    by the base name of the file and the line in parentheses when the error
    has them. *)
Definition SyntaxError_str (msg : string) (filename : option string) (lineno : option Z)
  : string :=
  match filename, lineno with
  | Some f, Some n =>
      String.append msg (String.append " (" (String.append (basename f)
        (String.append ", line " (String.append (decimal n) ")"))))
  | Some f, None => String.append msg (String.append " (" (String.append (basename f) ")"))
  | None, Some n => String.append msg (String.append " (line " (String.append (decimal n) ")"))
  | None, None => msg
  end.

(** [TemplateSyntaxError(err, filename, lineno, offset)] for a
    [SyntaxError] [err]: when [err.lineno] is not [None] the message is
    [str(err)] with every [' (line %d)' % err.lineno] taken out, else it is
    [err] itself. *)
Definition TemplateSyntaxError_init (msg : string) (err_filename : option string)
    (err_lineno err_offset : option Z) (filename : string) (lineno offset : Z) : exn :=
  TemplateSyntaxError
    match err_lineno with
    | Some n =>
        MsgText (remove_all (String.append " (line " (String.append (decimal n) ")"))
                   (SyntaxError_str msg err_filename err_lineno))
    | None => MsgSyntaxError msg err_filename err_offset
    end
    filename lineno offset.

Fixpoint chars (s : string) : list value :=
  match s with
  | EmptyString => []
  | String c rest => VStr (String c EmptyString) :: chars rest
  end.

(** [iter(v)]: the items a [for] loop over [v] produces. *)
Definition py_iter (v : value) : outcome (list value) :=
  match v with
  | VList l | VTuple l => Ok l
  | VStr s => Ok (chars s)
  | VDict items => Ok (map (fun kv => VStr (fst kv)) items)
  | _ => Err (PyError "TypeError")
  end.

(** [v[idx]] for a natural index. *)
Definition py_getitem (v : value) (idx : nat) : outcome value :=
  match v with
  | VList l | VTuple l =>
      match nth_error l idx with
      | Some x => Ok x
      | None => Err (PyError "IndexError")
      end
  | VStr s =>
      match nth_error (chars s) idx with
      | Some x => Ok x
      | None => Err (PyError "IndexError")
      end
  | VDict _ => Err (PyError "KeyError")
  | _ => Err (PyError "TypeError")
  end.

(** [name, value = item] *)
Definition unpack2 (item : value) : outcome (value * value) :=
  match py_iter item with
  | Ok [a; b] => Ok (a, b)
  | Ok _ => Err (PyError "ValueError")
  | Err x => Err x
  end.

(** ** Attributes *)

Definition Attributes : Type := list (QName * attr_value).

(** Modelled from the spec: [Attributes.remove] of [markup.core], which is
    not among the sources. The spec calls [Attributes] an attribute
    collection in which a key can be removed or set; here it is an ordered
    list of pairs, [remove] deletes the first entry of that name and [set]
    replaces the value of the first entry of that name or, when there is
    none, appends one. *)
Fixpoint Attributes_remove (name : QName) (attrib : Attributes) : Attributes :=
  match attrib with
  | [] => []
  | (n, v) :: rest =>
      if QName_eqb n name then rest else (n, v) :: Attributes_remove name rest
  end.

(** Modelled from the spec: [Attributes.set] of [markup.core], which is not
    among the sources; see [Attributes_remove]. *)
Fixpoint Attributes_set (name : QName) (v : attr_value) (attrib : Attributes)
  : Attributes :=
  match attrib with
  | [] => [(name, v)]
  | (n, v0) :: rest =>
      if QName_eqb n name then (n, v) :: rest
      else (n, v0) :: Attributes_set name v rest
  end.

(** Modelled from the spec: [Attributes.get] of [markup.core], which is not
    among the sources: the value of the first entry of that name. *)
Fixpoint Attributes_get (name : QName) (attrib : Attributes) : option attr_value :=
  match attrib with
  | [] => None
  | (n, v) :: rest => if QName_eqb n name then Some v else Attributes_get name rest
  end.

(** The name of an attribute given as a plain string: no namespace. *)
Definition attr_name (name : value) : outcome QName :=
  match name with
  | VStr n => Ok {| namespace := ""; localname := n |}
  | _ => Err (PyError "TypeError")
  end.

(** ** Filters and the parsed template *)

(** The filter objects of [markup.filters] a template holds. A match filter
    is built from the path and the bound method [_handle_match] of a match
    directive. *)
Inductive filter : Type :=
| EvalFilter
| WhitespaceFilter
| MatchFilter (path : string) (did : nat).

Record Template : Type := {
  filename : string;
  stream : list event;
  pre_filters : list filter;
  filters : list filter;
  post_filters : list filter
}.

(** What [compiler.parse(args, 'eval').node] is for the value of a [py:def]
    attribute: a call with plain and keyword arguments, or a name. *)
Inductive ast_arg : Type :=
| Keyword (name : string) (val : value)
| Name (name : string).

Inductive ast : Type :=
| CallFunc (name : string) (args : list ast_arg)
| AstName (name : string).

(** ** The directives *)

Section Engine.

(** [Expression.evaluate(ctxt, default)] of [markup.eval], which is not
    among the sources: taken as a parameter. It reads the context and
    returns a value or raises. *)
Variable evaluate : Expression -> Context -> value -> outcome value.

(** The builtin [unicode(value)], which calls the conversion methods of
    the value and can raise (a byte string that is not ASCII raises
    [UnicodeDecodeError]). *)
Variable unicode : value -> outcome string.

(** What [AttrsDirective.__call__] does from its second line on when the
    first event of its stream is not a START event, given the directive's
    expression, that event, the rest of the stream and the state. Line 209
    takes the data of the event apart as a pair whatever it is (the two
    characters of a text of length two, the prefix and the address of a
    namespace event, the parts of a SUB event) or raises when it cannot;
    what is then handed out is an event of the same kind whose data is that
    pair, which is no event of the engine, after a merge that
    [Attributes(attrib[:])] of [markup.core] decides: taken as a
    parameter. *)
Variable Attrs_on_other : option Expression -> event -> gen -> state -> res.

(** [filter_(stream, ctxt)] of the filter classes of [markup.filters],
    which are not among the sources: taken as a parameter. *)
Variable run_filter : filter -> gen -> gen.

(** [self.expr.evaluate(ctxt, default)], where [self.expr] may be [None]. *)
Definition expr_evaluate (expr : option Expression) (c : Context) (default : value)
  : outcome value :=
  match expr with
  | Some e => evaluate e c default
  | None => Err (PyError "AttributeError")
  end.

(** *** [AttrsDirective] *)

(** [attrs.items()] unless [attrs] is a list. *)
Definition attrs_items (attrs : value) : outcome (list value) :=
  match attrs with
  | VList l => Ok l
  | VDict items => Ok (map (fun kv => VTuple [VStr (fst kv); snd kv]) items)
  | _ => Err (PyError "AttributeError")
  end.

(** The loop [for name, value in attrs] over a copy of the attributes. *)
Fixpoint merge_attrs (items : list value) (attrib : Attributes) : outcome Attributes :=
  match items with
  | [] => Ok attrib
  | item :: rest =>
      do nv <- unpack2 item;
      do name <- attr_name (fst nv);
      let v := snd nv in
      if is_None v then merge_attrs rest (Attributes_remove name attrib)
      else
        do text <- unicode v;
        merge_attrs rest (Attributes_set name (AVText (strip text)) attrib)
  end.

(** [AttrsDirective.__call__]. The first event of the stream is taken
    apart as [(kind, (tag, attrib), pos)], which is what a START event is;
    any other event goes to [Attrs_on_other]. The closing loop
    [for event in stream: yield event] is the rest of the stream itself. *)
Definition AttrsDirective_call (expr : option Expression) (stream : gen) : gen :=
  Gen (fun s =>
    match pull stream s with
    | Stop s1 => Stop s1
    | Raise x s1 => Raise x s1
    | Yield (EStart tag attrib p) s1 k =>
        match expr_evaluate expr (ctxt s1) VNone with
        | Err x => throw x s1
        | Ok attrs =>
            if truthy attrs then
              match (do items <- attrs_items attrs; merge_attrs items attrib) with
              | Ok attrib' => Yield (EStart tag attrib' p) s1 k
              | Err x => throw x s1
              end
            else Yield (EStart tag attrib p) s1 k
        end
    | Yield e s1 k => Attrs_on_other expr e k s1
    end).

(** *** [ContentDirective] *)

(** [for event in stream: previous = event], then [yield previous]. *)
Fixpoint last_of (previous : event) (stream : gen) : gen :=
  Gen (fun s =>
    match resume stream s with
    | Stop s1 => Yield previous s1 stop
    | Raise x s1 =>
        if is_StopIteration x then Yield previous s1 stop else Raise x s1
    | Yield e s1 k => resume (last_of e k) s1
    end).

Definition ContentDirective_call (expr : option Expression) (stream : gen) : gen :=
  Gen (fun s =>
    match pull stream s with
    | Stop s1 => Stop s1
    | Raise x s1 => Raise x s1
    | Yield e s1 k =>
        let rest :=
          Gen (fun s2 =>
            Yield (EExpr expr (event_pos e)) s2
              (Gen (fun s3 =>
                 match pull k s3 with
                 | Stop s4 => Stop s4
                 | Raise x s4 => Raise x s4
                 | Yield previous s4 k' => resume (last_of previous k') s4
                 end))) in
        if is_START e then Yield e s1 rest else resume rest s1
    end).

(** *** [DefDirective] *)

(** [DefDirective.__call__]: runs at once, buffers the whole stream into
    the directive's [stream] slot and binds the callable in the top frame
    of the context. *)
Definition DefDirective_call (did : nat) (name : string) (stream : gen) (s : state)
  : outcome gen * state :=
  let '(body, r, s1) := drain stream s in
  match r with
  | Raised x => (Err x, s1)
  | Finished =>
      let s2 := set_captured did body s1 in
      match Ctx.setitem name (VCallable did) (ctxt s2) with
      | Err x => (Err x, s2)
      | Ok c => (Ok (iter []), set_ctxt c s2)
      end
  end.

(** The loop of [_exec] that fills [scope] from the positional arguments,
    then the keyword arguments, then the declared defaults. *)
Fixpoint exec_scope (formals : list string) (args : list value)
    (kwargs defaults scope : gmap string value) : gmap string value :=
  match formals with
  | [] => scope
  | name :: rest =>
      match args with
      | a :: args' => exec_scope rest args' kwargs defaults (<[name := a]> scope)
      | [] =>
          let v := default (default VNone (defaults !! name)) (kwargs !! name) in
          exec_scope rest [] (delete name kwargs) defaults (<[name := v]> scope)
      end
  end.

(** [ctxt.pop()] as the last statement of a generator. *)
Definition pop_and_stop : gen :=
  Gen (fun s =>
    match Ctx.pop (ctxt s) with
    | Ok c => Stop (set_ctxt c s)
    | Err x => throw x s
    end).

(** [ctxt.push] of the frame [scope] in a generator, followed by the replay of the
    stored events and [ctxt.pop()]. *)
Definition scoped_replay (did : nat) (scope : gmap string value) : gen :=
  Gen (fun s =>
    match Ctx.push scope (ctxt s) with
    | Err x => throw x s
    | Ok c =>
        let s1 := set_ctxt c s in
        resume (yield_then (get_captured did s1) pop_and_stop) s1
    end).

(** The body of [DefDirective._exec(self, ctxt, *args, **kwargs)], once the
    call has bound its parameters. *)
Definition DefDirective_exec (did : nat) (formals : list string)
    (defaults : gmap string value) (args : list value) (kwargs : gmap string value)
  : gen :=
  scoped_replay did (exec_scope formals args kwargs defaults ∅).

(** The callable that [DefDirective.__call__] binds,
    [lambda *args, **kwargs: self._exec(ctxt, *args, **kwargs)], applied to
    arguments: a keyword argument named [self] or [ctxt] meets the parameter
    of that name of [_exec], and the call raises [TypeError] (multiple values
    for the argument) without making a generator. *)
Definition DefDirective_callable (did : nat) (formals : list string)
    (defaults : gmap string value) (args : list value) (kwargs : gmap string value)
  : outcome gen :=
  match kwargs !! "self", kwargs !! "ctxt" with
  | None, None => Ok (DefDirective_exec did formals defaults args kwargs)
  | _, _ => Err (PyError "TypeError")
  end.

(** *** [ForDirective] *)

(** [scope[name] = item[idx]] for each target. *)
Fixpoint for_scope (idx : nat) (targets : list string) (item : value)
    (scope : gmap string value) : outcome (gmap string value) :=
  match targets with
  | [] => Ok scope
  | name :: rest =>
      do v <- py_getitem item idx;
      for_scope (S idx) rest item (<[name := v]> scope)
  end.

(** The body of [for item in iter(iterable)] over the buffered stream. *)
Fixpoint for_loop (targets : list string) (buffered : list event) (items : list value)
  : gen :=
  match items with
  | [] => stop
  | item :: rest =>
      Gen (fun s =>
        let item := match targets with [_] => VList [item] | _ => item end in
        match (do scope <- for_scope 0 targets item ∅; Ctx.push scope (ctxt s)) with
        | Err x => throw x s
        | Ok c =>
            resume
              (yield_then buffered
                 (Gen (fun s2 =>
                    match Ctx.pop (ctxt s2) with
                    | Ok c2 => resume (for_loop targets buffered rest) (set_ctxt c2 s2)
                    | Err x => throw x s2
                    end)))
              (set_ctxt c s)
        end)
  end.

(** [ForDirective.__call__] *)
Definition ForDirective_call (targets : list string) (expr : option Expression)
    (stream : gen) : gen :=
  Gen (fun s =>
    match expr_evaluate expr (ctxt s) (VList []) with
    | Err x => throw x s
    | Ok iterable =>
        if is_None iterable then Stop s
        else
          let '(buffered, r, s1) := drain stream s in
          match r with
          | Raised x => throw x s1
          | Finished =>
              match py_iter iterable with
              | Err x => throw x s1
              | Ok items => resume (for_loop targets buffered items) s1
              end
          end
    end).

(** *** [IfDirective] *)

(** [IfDirective.__call__]: runs at once. *)
Definition IfDirective_call (expr : option Expression) (stream : gen) (s : state)
  : outcome gen * state :=
  match expr_evaluate expr (ctxt s) VNone with
  | Err x => (Err x, s)
  | Ok v => if truthy v then (Ok stream, s) else (Ok (iter []), s)
  end.

(** *** [MatchDirective] *)

(** [MatchDirective.__call__]: runs at once. *)
Definition MatchDirective_call (did : nat) (stream : gen) (s : state)
  : outcome gen * state :=
  let '(body, r, s1) := drain stream s in
  match r with
  | Raised x => (Err x, s1)
  | Finished => (Ok (iter []), set_captured did body s1)
  end.

(** [MatchDirective._handle_match], with the callable bound to [select]
    given as a value. *)
Definition MatchDirective_handle_match (did : nat) (select : value) : gen :=
  scoped_replay did {[ "select" := select ]}.

(** *** [ReplaceDirective] *)

Definition ReplaceDirective_call (expr : option Expression) (stream : gen) : gen :=
  Gen (fun s =>
    match pull stream s with
    | Stop s1 => Stop s1
    | Raise x s1 => Raise x s1
    | Yield e s1 _ => Yield (EExpr expr (event_pos e)) s1 stop
    end).

(** *** [StripDirective] *)

(** [for event in stream: yield previous; previous = event] *)
Fixpoint lag (previous : event) (stream : gen) : gen :=
  Gen (fun s =>
    match resume stream s with
    | Stop s1 => Stop s1
    | Raise x s1 => throw x s1
    | Yield e s1 k => Yield previous s1 (lag e k)
    end).

Definition StripDirective_call (expr : option Expression) (stream : gen) : gen :=
  Gen (fun s =>
    let r :=
      match expr with
      | Some e => evaluate e (ctxt s) VNone
      | None => Ok (VBool true)
      end in
    match r with
    | Err x => throw x s
    | Ok v =>
        if truthy v then
          match pull stream s with
          | Stop s1 => Stop s1
          | Raise x s1 => Raise x s1
          | Yield _ s1 k =>
              match pull k s1 with
              | Stop s2 => Stop s2
              | Raise x s2 => Raise x s2
              | Yield previous s2 k' => resume (lag previous k') s2
              end
          end
        else resume stream s
    end).

(** [directive(iter(substream), ctxt)]: the directives written as
    generators return at once and leave the state alone. *)
Definition directive_call (d : directive) (stream : gen) (s : state)
  : outcome gen * state :=
  match d with
  | DefDirective did name _ _ => DefDirective_call did name stream s
  | MatchDirective did _ => MatchDirective_call did stream s
  | ForDirective targets expr => (Ok (ForDirective_call targets expr stream), s)
  | IfDirective expr => IfDirective_call expr stream s
  | ReplaceDirective expr => (Ok (ReplaceDirective_call expr stream), s)
  | ContentDirective expr => (Ok (ContentDirective_call expr stream), s)
  | AttrsDirective expr => (Ok (AttrsDirective_call expr stream), s)
  | StripDirective expr => (Ok (StripDirective_call expr stream), s)
  end.

(** ** [Template.generate] *)

(** [stream = filter_(iter(stream), ctxt)] for each filter in turn. *)
Definition apply_filters (fs : list filter) (stream : gen) : gen :=
  fold_left (fun st f => run_filter f st) fs stream.

(** The loop [for directive in directives: substream = directive(...)]. *)
Fixpoint apply_directives (directives : list directive) (substream : gen) (s : state)
  : outcome gen * state :=
  match directives with
  | [] => (Ok substream, s)
  | d :: rest =>
      match directive_call d substream s with
      | (Ok g, s1) => apply_directives rest g s1
      | (Err x, s1) => (Err x, s1)
      end
  end.

(** What an exception raised inside the [try] of [_transform] is when it
    leaves the function. The clause [except SyntaxError, err] turns a
    [SyntaxError] into a [TemplateSyntaxError] with the file name of the
    template, the line of [pos] and its column plus [err.offset or 0]; [p]
    is the loop variable [pos], unbound until the loop has taken its first
    event, in which case the clause itself fails. An exception of any other
    class is not caught. *)
Definition reraised (fname : string) (p : option pos) (x : exn) : exn :=
  match x with
  | SyntaxError msg err_filename err_lineno err_offset =>
      match p with
      | Some (lineno, col) =>
          TemplateSyntaxError_init msg err_filename err_lineno err_offset
            fname lineno (col + default 0%Z err_offset)%Z
      | None => PyError "UnboundLocalError"
      end
  | _ => x
  end.

(** The exception [x] is raised inside the [try] of the generator
    [_transform]: what leaves the generator. *)
Definition reraise (fname : string) (p : option pos) (x : exn) (s : state) : res :=
  throw (reraised fname p x) s.

(** [for event in _transform(iter(substream)): yield event] inside the
    [try], followed by the rest of the loop. *)
Fixpoint splice (fname : string) (p : option pos) (inner cont : gen) : gen :=
  Gen (fun s =>
    match resume inner s with
    | Stop s1 => resume cont s1
    | Raise x s1 =>
        if is_StopIteration x then resume cont s1 else reraise fname p x s1
    | Yield e s1 k => Yield e s1 (splice fname p k cont)
    end).

(** The loop [for kind, data, pos in stream] of [_transform] inside its
    [try]; [rec] is [_transform] itself, for the nested streams. *)
Fixpoint transform_loop (fname : string) (rec : gen -> gen) (p : option pos)
    (stream : gen) : gen :=
  Gen (fun s =>
    match resume stream s with
    | Stop s1 => Stop s1
    | Raise x s1 => reraise fname p x s1
    | Yield (ESub loc substream p') s1 k =>
        let directives := rev (get_dirlist loc s1) in
        let s2 := set_dirlist loc directives s1 in
        match apply_directives directives (iter substream) s2 with
        | (Err x, s3) => reraise fname (Some p') x s3
        | (Ok substream', s3) =>
            resume (splice fname (Some p') (rec substream')
                      (transform_loop fname rec (Some p') k)) s3
        end
    | Yield e s1 k => Yield e s1 (transform_loop fname rec (Some (event_pos e)) k)
    end).

(** The nested function [_transform] of [generate]. [depth] is the number
    of nested activations the interpreter allows. *)
Fixpoint _transform (tmpl : Template) (depth : nat) (stream : gen) : gen :=
  match depth with
  | O => raise (PyError "RuntimeError")
  | S depth' =>
      Gen (fun s =>
        resume
          (transform_loop (filename tmpl) (_transform tmpl depth') None
             (apply_filters (pre_filters tmpl ++ filters tmpl) stream)) s)
  end.

(** [Template.generate(ctxt)]; the context is in the state the result is
    resumed in. *)
Definition generate (tmpl : Template) (depth : nat) : gen :=
  apply_filters (post_filters tmpl) (_transform tmpl depth (iter (stream tmpl))).

End Engine.

(** ** [Template.parse] *)

Definition NAMESPACE : string := "http://purl.org/kid/ns#".

(** The classes of [Template.directives], in that order. *)
Inductive directive_class : Type :=
| Def | Match | For | If | Replace | Content | Attrs | Strip.

(** [Template._dir_by_name.get(localname)] *)
Definition _dir_by_name (localname : string) : option directive_class :=
  if String.eqb localname "def" then Some Def
  else if String.eqb localname "match" then Some Match
  else if String.eqb localname "for" then Some For
  else if String.eqb localname "if" then Some If
  else if String.eqb localname "replace" then Some Replace
  else if String.eqb localname "content" then Some Content
  else if String.eqb localname "attrs" then Some Attrs
  else if String.eqb localname "strip" then Some Strip
  else None.

(** [directives.sort(...)] by the index in [_dir_order]: a stable sort. *)
Fixpoint insert_directive (d : directive) (l : list directive) : list directive :=
  match l with
  | [] => [d]
  | x :: rest =>
      if Nat.ltb (_dir_order_index x) (_dir_order_index d)
      then x :: insert_directive d rest
      else d :: l
  end.

Definition sort_directives (l : list directive) : list directive :=
  fold_right insert_directive [] l.

(** [value.split(' in ', 1)] when the separator occurs. *)
Fixpoint split_in (s : string) : option (string * string) :=
  match s with
  | EmptyString => None
  | String c rest =>
      if String.prefix " in " s then
        Some (EmptyString, String.substring 4 (String.length s - 4) s)
      else
        match split_in rest with
        | Some (a, b) => Some (String c a, b)
        | None => None
        end
  end.

(** [targets.split(',')] *)
Fixpoint split_comma (s : string) : list string :=
  match s with
  | EmptyString => [EmptyString]
  | String c rest =>
      if Ascii.eqb c "," then EmptyString :: split_comma rest
      else Re.cons_head c (split_comma rest)
  end.

(** [Directive.__init__]: [value and Expression(value) or None] *)
Definition Directive_init (value : string) : option Expression :=
  if nonempty value then Some {| source := value |} else None.

(** The state of the single pass of [parse]: the local variables [stream],
    [dirmap], [ns_prefix] and [depth], the template's [filters], the
    directive lists created so far and the next fresh identity. *)
Record parser : Type := {
  p_stream : list event;
  p_dirmap : list ((Z * QName) * (nat * nat));
  p_ns_prefix : gmap string string;
  p_depth : Z;
  p_filters : list filter;
  p_dirlists : gmap nat (list directive);
  p_next : nat
}.

Definition parser_init : parser :=
  {| p_stream := []; p_dirmap := []; p_ns_prefix := ∅; p_depth := 0;
     p_filters := []; p_dirlists := ∅; p_next := 0 |}.

Definition key_eqb (a b : Z * QName) : bool :=
  Z.eqb (fst a) (fst b) && QName_eqb (snd a) (snd b).

Fixpoint dirmap_get (key : Z * QName) (m : list ((Z * QName) * (nat * nat)))
  : option (nat * nat) :=
  match m with
  | [] => None
  | (k, v) :: rest => if key_eqb k key then Some v else dirmap_get key rest
  end.

Fixpoint dirmap_del (key : Z * QName) (m : list ((Z * QName) * (nat * nat)))
  : list ((Z * QName) * (nat * nat)) :=
  match m with
  | [] => []
  | (k, v) :: rest => if key_eqb k key then dirmap_del key rest else (k, v) :: dirmap_del key rest
  end.

Definition stream_append (e : event) (st : parser) : parser :=
  {| p_stream := p_stream st ++ [e]; p_dirmap := p_dirmap st;
     p_ns_prefix := p_ns_prefix st; p_depth := p_depth st;
     p_filters := p_filters st; p_dirlists := p_dirlists st; p_next := p_next st |}.

Section Parse.

(** [compiler.parse(args, 'eval').node] of the standard library. *)
Variable compiler_parse : string -> outcome ast.

(** [DefDirective.__init__] *)
Definition DefDirective_init (args : string) (did : nat) : outcome directive :=
  do node <- compiler_parse args;
  match node with
  | CallFunc name cargs =>
      Ok (DefDirective did name
            (map (fun a => match a with Keyword n _ => n | Name n => n end) cargs)
            (fold_left (fun d a => match a with Keyword n v => <[n := v]> d | Name _ => d end)
               cargs ∅))
  | AstName name => Ok (DefDirective did name [] ∅)
  end.

(** [ForDirective.__init__] *)
Definition ForDirective_init (value : string) : outcome directive :=
  match split_in value with
  | None => Err (PyError "ValueError")
  | Some (targets, expr_source) =>
      Ok (ForDirective (map strip (split_comma targets)) (Directive_init expr_source))
  end.

(** [cls(self, value, pos)] *)
Definition construct (cls : directive_class) (value : string) (st : parser)
  : outcome (directive * parser) :=
  let fresh st :=
    {| p_stream := p_stream st; p_dirmap := p_dirmap st;
       p_ns_prefix := p_ns_prefix st; p_depth := p_depth st;
       p_filters := p_filters st; p_dirlists := p_dirlists st;
       p_next := S (p_next st) |} in
  match cls with
  | Def => do d <- DefDirective_init value (p_next st); Ok (d, fresh st)
  | Match =>
      let did := p_next st in
      Ok (MatchDirective did value,
          {| p_stream := p_stream st; p_dirmap := p_dirmap st;
             p_ns_prefix := p_ns_prefix st; p_depth := p_depth st;
             p_filters := p_filters st ++ [MatchFilter value did];
             p_dirlists := p_dirlists st; p_next := S did |})
  | For => do d <- ForDirective_init value; Ok (d, st)
  | If => Ok (IfDirective (Directive_init value), st)
  | Replace => Ok (ReplaceDirective (Directive_init value), st)
  | Content => Ok (ContentDirective (Directive_init value), st)
  | Attrs => Ok (AttrsDirective (Directive_init value), st)
  | Strip => Ok (StripDirective (Directive_init value), st)
  end.

(** The loop [for name, value in attrib] of a START event. The markup
    parser gives attribute values as text. *)
Fixpoint parse_attrib (fname : string) (p : pos) (attrib : Attributes) (st : parser)
    (directives : list directive) (new_attrib : Attributes)
  : outcome (list directive * Attributes * parser) :=
  match attrib with
  | [] => Ok (directives, new_attrib, st)
  | (name, AVText value) :: rest =>
      if String.eqb (namespace name) NAMESPACE then
        match _dir_by_name (localname name) with
        | None => Err (BadDirectiveError (localname name) fname (fst p))
        | Some cls =>
            do r <- construct cls value st;
            parse_attrib fname p rest (snd r) (directives ++ [fst r]) new_attrib
        end
      else
        do frags <- _interpolate value p;
        parse_attrib fname p rest st directives (new_attrib ++ [(name, AVFrags frags)])
  | (_, AVFrags _) :: _ => Err (PyError "TypeError")
  end.

(** One turn of the loop [for kind, data, pos in XMLParser(self.source)]. *)
Definition parse_event (fname : string) (e : event) (st : parser) : outcome parser :=
  match e with
  | EStartNS prefix uri p =>
      if String.eqb uri NAMESPACE then
        Ok {| p_stream := p_stream st; p_dirmap := p_dirmap st;
              p_ns_prefix := <[prefix := uri]> (p_ns_prefix st); p_depth := p_depth st;
              p_filters := p_filters st; p_dirlists := p_dirlists st;
              p_next := p_next st |}
      else Ok (stream_append e st)
  | EEndNS prefix p =>
      match p_ns_prefix st !! prefix with
      | Some _ =>
          Ok {| p_stream := p_stream st; p_dirmap := p_dirmap st;
                p_ns_prefix := delete prefix (p_ns_prefix st); p_depth := p_depth st;
                p_filters := p_filters st; p_dirlists := p_dirlists st;
                p_next := p_next st |}
      | None => Ok (stream_append e st)
      end
  | EStart tag attrib p =>
      do r <- parse_attrib fname p attrib st [] [];
      let '(directives, new_attrib, st1) := r in
      let st2 :=
        match directives with
        | [] => st1
        | _ :: _ =>
            let loc := p_next st1 in
            {| p_stream := p_stream st1;
               p_dirmap := ((p_depth st1, tag), (loc, length (p_stream st1)))
                           :: dirmap_del (p_depth st1, tag) (p_dirmap st1);
               p_ns_prefix := p_ns_prefix st1; p_depth := p_depth st1;
               p_filters := p_filters st1;
               p_dirlists := <[loc := sort_directives directives]> (p_dirlists st1);
               p_next := S loc |}
        end in
      let st3 := stream_append (EStart tag new_attrib p) st2 in
      Ok {| p_stream := p_stream st3; p_dirmap := p_dirmap st3;
            p_ns_prefix := p_ns_prefix st3; p_depth := (p_depth st3 + 1)%Z;
            p_filters := p_filters st3; p_dirlists := p_dirlists st3;
            p_next := p_next st3 |}
  | EEnd tag p =>
      let depth := (p_depth st - 1)%Z in
      let stream1 := p_stream st ++ [e] in
      match dirmap_get (depth, tag) (p_dirmap st) with
      | Some (loc, start_offset) =>
          Ok {| p_stream := take start_offset stream1
                            ++ [ESub loc (drop start_offset stream1) p];
                p_dirmap := dirmap_del (depth, tag) (p_dirmap st);
                p_ns_prefix := p_ns_prefix st; p_depth := depth;
                p_filters := p_filters st; p_dirlists := p_dirlists st;
                p_next := p_next st |}
      | None =>
          Ok {| p_stream := stream1; p_dirmap := p_dirmap st;
                p_ns_prefix := p_ns_prefix st; p_depth := depth;
                p_filters := p_filters st; p_dirlists := p_dirlists st;
                p_next := p_next st |}
      end
  | EText data p =>
      do frags <- _interpolate data p;
      Ok (fold_left (fun st f => stream_append (event_of_fragment f) st) frags st)
  | _ => Ok (stream_append e st)
  end.

Fixpoint parse_events (fname : string) (events : list event) (st : parser)
  : outcome parser :=
  match events with
  | [] => Ok st
  | e :: rest => do st1 <- parse_event fname e st; parse_events fname rest st1
  end.

(** [Template(source, filename)]: [__init__] and [parse], given the events
    the markup parser produces from the source. The result is the template
    and the directive lists its SUB events hold. *)
Definition Template_init (events : list event) (filename : option string)
  : outcome (Template * gmap nat (list directive)) :=
  let fname :=
    match filename with
    | Some f => if nonempty f then f else "<string>"
    | None => "<string>"
    end in
  do st <- parse_events fname events parser_init;
  Ok ({| filename := fname; stream := p_stream st;
         pre_filters := [EvalFilter]; filters := p_filters st;
         post_filters := [WhitespaceFilter] |},
      p_dirlists st).

End Parse.

(** ** The filters of [markup.filters] *)

Section Filters.

Variable evaluate : Expression -> Context -> value -> outcome value.
Variable unicode : value -> outcome string.

(** Modelled from the spec: [EvalFilter] of [markup.filters] is not among
    the sources. The spec has it turn each EXPR event into a TEXT event by
    calling the compiled expression against the context and serializing
    the result; every other event passes. *)
Fixpoint EvalFilter_call (stream : gen) : gen :=
  Gen (fun s =>
    match resume stream s with
    | Stop s1 => Stop s1
    | Raise x s1 => throw x s1
    | Yield (EExpr e p) s1 k =>
        match (do v <- expr_evaluate evaluate e (ctxt s1) VNone; unicode v) with
        | Err x => throw x s1
        | Ok text => Yield (EText text p) s1 (EvalFilter_call k)
        end
    | Yield e s1 k => Yield e s1 (EvalFilter_call k)
    end).

(** Modelled from the spec: the collapsing of [WhitespaceFilter]. A run of
    white space characters becomes its first character. *)
Fixpoint collapse (after_space : bool) (s : string) : string :=
  match s with
  | EmptyString => EmptyString
  | String c rest =>
      if is_space c then
        if after_space then collapse true rest else String c (collapse true rest)
      else String c (collapse false rest)
  end.

(** Modelled from the spec: [WhitespaceFilter] of [markup.filters] is not
    among the sources. The spec has it collapse redundant runs of white
    space in the output, with no other effect. *)
Fixpoint WhitespaceFilter_call (stream : gen) : gen :=
  Gen (fun s =>
    match resume stream s with
    | Stop s1 => Stop s1
    | Raise x s1 => throw x s1
    | Yield (EText data p) s1 k =>
        Yield (EText (collapse false data) p) s1 (WhitespaceFilter_call k)
    | Yield e s1 k => Yield e s1 (WhitespaceFilter_call k)
    end).

(** Modelled from the spec: the filters by class. The path matching of
    [MatchFilter] is left out: a match filter passes the stream on, which
    is what the spec has it do when nothing matches. *)
Definition spec_run_filter (f : filter) (stream : gen) : gen :=
  match f with
  | EvalFilter => EvalFilter_call stream
  | WhitespaceFilter => WhitespaceFilter_call stream
  | MatchFilter _ _ => stream
  end.

End Filters.

(** ** Concrete parameters for the examples *)

(** An evaluator for the examples: a name is looked up in the context, with
    the default when the context gives [None]; [1/0] raises
    [ZeroDivisionError]; the unbalanced [f(] is a syntax error of the
    compiler at line 1, offset 2; [True] and [False] are the constants. *)
Definition ex_evaluate (e : Expression) (c : Context) (default : value) : outcome value :=
  if String.eqb (source e) "1/0" then Err (PyError "ZeroDivisionError")
  else if String.eqb (source e) "f(" then
    Err (SyntaxError "invalid syntax" (Some "<string>") (Some 1%Z) (Some 2%Z))
  else if String.eqb (source e) "True" then Ok (VBool true)
  else if String.eqb (source e) "False" then Ok (VBool false)
  else match Ctx.get (source e) c with
       | VNone => Ok default
       | v => Ok v
       end.

(** [unicode] on the values the examples use. *)
Definition ex_unicode (v : value) : outcome string :=
  match v with
  | VStr s => Ok s
  | VBool true => Ok "True"
  | VBool false => Ok "False"
  | VNone => Ok "None"
  | _ => Ok ""
  end.

(** The attribute directive of the examples always meets a START event. *)
Definition ex_Attrs_on_other (expr : option Expression) (e : event) (k : gen) (s : state)
  : res :=
  Raise (PyError "ValueError") s.

(** [compiler.parse] on the signatures the examples use. *)
Definition ex_compiler_parse (args : string) : outcome ast :=
  if String.eqb args "echo(what)" then Ok (CallFunc "echo" [Name "what"])
  else if String.eqb args "echo(greeting, name='world')" then
    Ok (CallFunc "echo" [Name "greeting"; Keyword "name" (VStr "world")])
  else Err (SyntaxError "invalid syntax" (Some "<string>") (Some 1%Z) None).

Definition ex_run_filter : filter -> gen -> gen := spec_run_filter ex_evaluate ex_unicode.

Definition state_init (c : Context) (heap : gmap nat (list directive)) : state :=
  {| ctxt := c; dirlists := heap; captured := ∅ |}.

(** ** Notions the theorems are stated with *)

(** A consumer that leaves the frames below the top-most one, and the height
    of the stack, as it finds them. *)
Definition keeps_stack (consume : event -> state -> state) : Prop :=
  forall e st,
    length (stack (ctxt (consume e st))) = length (stack (ctxt st))
    /\ tail (stack (ctxt (consume e st))) = tail (stack (ctxt st)).

(** How the run of a generator that an exception leaves ends, for its
    consumer. *)
Definition ending_of (x : exn) : ending :=
  if is_StopIteration x then Finished else Raised x.

Definition is_SyntaxError (x : exn) : bool :=
  match x with SyntaxError _ _ _ _ => true | _ => false end.

(** An iterator that, however it is resumed, hands out no SUB event and
    raises neither a [SyntaxError] nor a [StopIteration]. *)
Inductive plain : gen -> Prop :=
| plain_Gen next : (forall s, plain_res (next s)) -> plain (Gen next)
with plain_res : res -> Prop :=
| plain_Stop s : plain_res (Stop s)
| plain_Yield e s k : is_SUB e = false -> plain k -> plain_res (Yield e s k)
| plain_Raise x s :
    is_SyntaxError x = false -> is_StopIteration x = false -> plain_res (Raise x s).

(** An attribute as the markup parser gives it that is not a directive. *)
Definition plain_attr (a : QName * attr_value) : bool :=
  negb (String.eqb (namespace a.1) NAMESPACE)
  && match a.2 with AVText _ => true | AVFrags _ => false end.

(** An event of the markup parser that carries no directive attribute. *)
Definition plain_markup (e : event) : bool :=
  match e with
  | EStart _ attrib _ => forallb plain_attr attrib
  | EExpr _ _ | ESub _ _ _ => false
  | _ => true
  end.

(** The parser has met no directive so far. *)
Definition parser_plain (st : parser) : Prop :=
  Forall (fun e => is_SUB e = false) (p_stream st)
  /\ p_dirmap st = [] /\ p_filters st = [] /\ p_dirlists st = ∅.

(** A pair [(name, value)] of a list of pairs, and of the items of a
    mapping. *)
Definition pair_of (kv : string * value) : value := VTuple [VStr kv.1; kv.2].

Definition plain_name (n : string) : QName := {| namespace := ""; localname := n |}.

Section Notions.

Variable evaluate : Expression -> Context -> value -> outcome value.
Variable unicode : value -> outcome string.
Variable Attrs_on_other : option Expression -> event -> gen -> state -> res.
Variable run_filter : filter -> gen -> gen.

(** What one pair of the merged value does to the attributes: the body of
    the loop of [AttrsDirective.__call__]. *)
Definition merge_step (attrib : Attributes) (kv : string * value) : outcome Attributes :=
  if is_None kv.2 then Ok (Attributes_remove (plain_name kv.1) attrib)
  else
    do text <- unicode kv.2;
    Ok (Attributes_set (plain_name kv.1) (AVText (strip text)) attrib).

(** The pairs merged one after the other, up to the first that raises. *)
Fixpoint merge_all (items : list (string * value)) (attrib : Attributes)
  : outcome Attributes :=
  match items with
  | [] => Ok attrib
  | kv :: rest => do attrib' <- merge_step attrib kv; merge_all rest attrib'
  end.

(** The directives of the SUB event at [loc], applied as [_transform]
    applies them: the stored list is reversed in place and then applied to
    the nested events. *)
Definition apply_SUB (loc : nat) (substream : list event) (s : state)
  : outcome gen * state :=
  apply_directives evaluate unicode Attrs_on_other (rev (get_dirlist loc s)) (iter substream)
    (set_dirlist loc (rev (get_dirlist loc s)) s).

(** [halts tmpl depth p g s es q x s']: an exception surfaces in the loop
    of an activation of [_transform]. The loop runs over the iterator [g],
    resumed in [s] with [p] as its loop variable [pos], and its nested
    activations may nest [depth] deep. It hands out the events [es], and
    then the exception [x] surfaces in the state [s'], in the loop whose
    variable [pos] is [q] at that time: this loop, when [x] comes out of a
    pull from [g] or out of the application of the directives of a SUB
    event, or a loop nested in it, when a nested activation is cut short by
    it. Before that, every event that is not a SUB event is handed out and
    every SUB event gives way to the whole output of its nested
    activation. *)
Inductive halts (tmpl : Template)
  : nat -> option pos -> gen -> state -> list event -> option pos -> exn -> state -> Prop :=
| halts_pull depth p g s x s' :
    pull g s = Raise x s' ->
    halts tmpl depth p g s [] p x s'
| halts_directives depth p g s loc sub p' k s1 x s' :
    pull g s = Yield (ESub loc sub p') s1 k ->
    apply_SUB loc sub s1 = (Err x, s') ->
    halts tmpl depth p g s [] (Some p') x s'
| halts_nested depth p g s loc sub p' k s1 sub' s2 es q x s' :
    pull g s = Yield (ESub loc sub p') s1 k ->
    apply_SUB loc sub s1 = (Ok sub', s2) ->
    halts tmpl depth None
      (apply_filters run_filter (pre_filters tmpl ++ filters tmpl) sub') s2 es q x s' ->
    is_StopIteration (reraised (filename tmpl) q x) = false ->
    halts tmpl (S depth) p g s es q x s'
| halts_later depth p g s e s1 k es q x s' :
    pull g s = Yield e s1 k ->
    is_SUB e = false ->
    halts tmpl depth (Some (event_pos e)) k s1 es q x s' ->
    halts tmpl depth p g s (e :: es) q x s'
| halts_after depth p g s loc sub p' k s1 sub' s2 es1 s3 es2 q x s' :
    pull g s = Yield (ESub loc sub p') s1 k ->
    apply_SUB loc sub s1 = (Ok sub', s2) ->
    drain (_transform evaluate unicode Attrs_on_other run_filter tmpl depth sub') s2
      = (es1, Finished, s3) ->
    halts tmpl depth (Some p') k s3 es2 q x s' ->
    halts tmpl depth p g s (es1 ++ es2) q x s'.

End Notions.

(** The fragments of a text, which [_interpolate] never fails to give. *)
Definition interpolated (text : string) (p : pos) : list fragment :=
  match _interpolate text p with
  | Ok fs => fs
  | Err _ => []
  end.

(** The parsed input, in the words of the specification of the parser
    (steps 1, 2, 4 and 5) for markup that has no attribute in the namespace
    of the directives; [parse] is compared with it. A declaration of that
    namespace is absorbed and its prefix recorded in [ns], and so is the end
    of the scope of a recorded prefix; the values of the attributes of a
    start tag are interpolated; a text becomes its fragments, one event
    each; every other event passes unchanged. *)
Fixpoint spec_parsed (ns : gmap string string) (events : list event) : list event :=
  match events with
  | [] => []
  | EStartNS prefix uri p :: rest =>
      if String.eqb uri NAMESPACE then spec_parsed (<[prefix := uri]> ns) rest
      else EStartNS prefix uri p :: spec_parsed ns rest
  | EEndNS prefix p :: rest =>
      match ns !! prefix with
      | Some _ => spec_parsed (delete prefix ns) rest
      | None => EEndNS prefix p :: spec_parsed ns rest
      end
  | EStart tag attrib p :: rest =>
      EStart tag
        (map (fun a : QName * attr_value =>
                (a.1, match a.2 with
                      | AVText v => AVFrags (interpolated v p)
                      | AVFrags l => AVFrags l
                      end)) attrib) p
      :: spec_parsed ns rest
  | EText data p :: rest =>
      map event_of_fragment (interpolated data p) ++ spec_parsed ns rest
  | e :: rest => e :: spec_parsed ns rest
  end.

(** The fragments of the pieces of a split once no pattern is left: each
    group is an expression, each non-empty text between is literal. *)
Fixpoint literal_pieces (p : pos) (idx : nat) (groups : list string) : list fragment :=
  match groups with
  | [] => []
  | group :: rest =>
      if Nat.odd idx then FExpr {| source := group |} p :: literal_pieces p (S idx) rest
      else if nonempty group then FText (Re.unescape group) p :: literal_pieces p (S idx) rest
      else literal_pieces p (S idx) rest
  end.

(** Induction over an iterator: a property holds of an iterator when it
    holds of every continuation the iterator can yield. *)
Fixpoint gen_ind' (P : gen -> Prop)
    (H : forall next,
        (forall s, match next s with Yield _ _ k => P k | _ => True end) -> P (Gen next))
    (g : gen) : P g :=
  match g with
  | Gen next =>
      H next (fun s =>
        match next s as r return (match r with Yield _ _ k => P k | _ => True end) with
        | Yield _ _ k => gen_ind' P H k
        | _ => I
        end)
  end.

(** How a run ended is not a raw [SyntaxError]. *)
Definition no_SyntaxError (run : list event * ending * state) : Prop :=
  match run.1.2 with
  | Raised x => is_SyntaxError x = false
  | Finished => True
  end.

(** ** The templates of the examples *)

Definition py_name (n : string) : QName := {| namespace := NAMESPACE; localname := n |}.

(** A function definition with [py:strip], as in the documentation of
    [StripDirective], with a condition:
    [<div py:def="echo(what)" py:strip="flag"><b>${what}</b></div>] *)
Definition doc_def_strip : list event :=
  [EStartNS "py" NAMESPACE (1, 0)%Z;
   EStart (plain_name "div")
     [(py_name "def", AVText "echo(what)"); (py_name "strip", AVText "flag")] (1, 0)%Z;
   EStart (plain_name "b") [] (2, 2)%Z;
   EText "${what}" (2, 5)%Z;
   EEnd (plain_name "b") (2, 12)%Z;
   EEnd (plain_name "div") (3, 0)%Z;
   EEndNS "py" (3, 6)%Z].

Definition body_b : list event :=
  [EStart (plain_name "b") [] (2, 2)%Z;
   EExpr (Some {| source := "what" |}) (2, 5)%Z;
   EEnd (plain_name "b") (2, 12)%Z].

Definition body_div : list event :=
  EStart (plain_name "div") [] (1, 0)%Z :: body_b ++ [EEnd (plain_name "div") (3, 0)%Z].

Definition tmpl_def_strip : Template :=
  {| filename := "<string>";
     stream := [ESub 1 body_div (3, 0)%Z];
     pre_filters := [EvalFilter]; filters := []; post_filters := [WhitespaceFilter] |}.

Definition heap_def_strip : gmap nat (list directive) :=
  {[ 1 := [DefDirective 0 "echo" ["what"] ∅;
           StripDirective (Some {| source := "flag" |})] ]}.

Definition ctxt_flag (b : bool) : Context := Ctx.init {[ "flag" := VBool b ]}.

(** A loop with [py:content]:
    [<ul><li py:for="item in items" py:content="item">x</li></ul>] *)
Definition doc_for_content : list event :=
  [EStartNS "py" NAMESPACE (1, 0)%Z;
   EStart (plain_name "ul") [] (1, 0)%Z;
   EStart (plain_name "li")
     [(py_name "content", AVText "item"); (py_name "for", AVText "item in items")] (2, 2)%Z;
   EText "x" (2, 40)%Z;
   EEnd (plain_name "li") (2, 41)%Z;
   EEnd (plain_name "ul") (3, 0)%Z;
   EEndNS "py" (3, 5)%Z].

Definition tmpl_for_content : Template :=
  {| filename := "<string>";
     stream :=
       [EStart (plain_name "ul") [] (1, 0)%Z;
        ESub 0 [EStart (plain_name "li") [] (2, 2)%Z; EText "x" (2, 40)%Z;
                EEnd (plain_name "li") (2, 41)%Z] (2, 41)%Z;
        EEnd (plain_name "ul") (3, 0)%Z];
     pre_filters := [EvalFilter]; filters := []; post_filters := [WhitespaceFilter] |}.

Definition for_item : directive := ForDirective ["item"] (Some {| source := "items" |}).
Definition content_item : directive := ContentDirective (Some {| source := "item" |}).

Definition ctxt_items : Context :=
  Ctx.init {[ "items" := VList [VStr "a"; VStr "b"] ]}.

Definition li (text : string) : list event :=
  [EStart (plain_name "li") [] (2, 2)%Z; EText text (2, 2)%Z;
   EEnd (plain_name "li") (2, 41)%Z].

(** The same element inside an outer loop:
    [<ul py:for="row in rows"><li py:for="item in items" py:content="item">x</li></ul>] *)
Definition doc_nested : list event :=
  [EStartNS "py" NAMESPACE (1, 0)%Z;
   EStart (plain_name "ul") [(py_name "for", AVText "row in rows")] (1, 0)%Z;
   EStart (plain_name "li")
     [(py_name "content", AVText "item"); (py_name "for", AVText "item in items")] (2, 2)%Z;
   EText "x" (2, 40)%Z;
   EEnd (plain_name "li") (2, 41)%Z;
   EEnd (plain_name "ul") (3, 0)%Z;
   EEndNS "py" (3, 5)%Z].

Definition tmpl_nested : Template :=
  {| filename := "<string>";
     stream :=
       [ESub 0
          [EStart (plain_name "ul") [] (1, 0)%Z;
           ESub 1 [EStart (plain_name "li") [] (2, 2)%Z; EText "x" (2, 40)%Z;
                   EEnd (plain_name "li") (2, 41)%Z] (2, 41)%Z;
           EEnd (plain_name "ul") (3, 0)%Z] (3, 0)%Z];
     pre_filters := [EvalFilter]; filters := []; post_filters := [WhitespaceFilter] |}.

Definition heap_nested : gmap nat (list directive) :=
  {[ 0 := [ForDirective ["row"] (Some {| source := "rows" |})];
     1 := [for_item; content_item] ]}.

Definition ctxt_rows : Context :=
  Ctx.init {[ "rows" := VList [VStr "r"; VStr "s"];
              "items" := VList [VStr "a"; VStr "b"] ]}.

(** A condition: [<p py:if="...">x</p>] *)
Definition doc_if (condition : string) : list event :=
  [EStartNS "py" NAMESPACE (1, 0)%Z;
   EStart (plain_name "p") [(py_name "if", AVText condition)] (1, 0)%Z;
   EText "x" (1, 11)%Z;
   EEnd (plain_name "p") (1, 12)%Z;
   EEndNS "py" (1, 16)%Z].

Definition tmpl_if : Template :=
  {| filename := "page.html";
     stream := [ESub 0 [EStart (plain_name "p") [] (1, 0)%Z; EText "x" (1, 11)%Z;
                        EEnd (plain_name "p") (1, 12)%Z] (1, 12)%Z];
     pre_filters := [EvalFilter]; filters := []; post_filters := [WhitespaceFilter] |}.

Definition heap_if (condition : string) : gmap nat (list directive) :=
  {[ 0 := [IfDirective (Some {| source := condition |})] ]}.

(** A condition inside a condition:
    [<div py:if="True">a<p py:if="f(">x</p></div>] *)
Definition doc_if_nested : list event :=
  [EStartNS "py" NAMESPACE (1, 0)%Z;
   EStart (plain_name "div") [(py_name "if", AVText "True")] (1, 0)%Z;
   EText "a" (1, 18)%Z;
   EStart (plain_name "p") [(py_name "if", AVText "f(")] (1, 19)%Z;
   EText "x" (1, 33)%Z;
   EEnd (plain_name "p") (1, 34)%Z;
   EEnd (plain_name "div") (1, 38)%Z;
   EEndNS "py" (1, 44)%Z].

Definition tmpl_if_nested : Template :=
  {| filename := "page.html";
     stream :=
       [ESub 0
          [EStart (plain_name "div") [] (1, 0)%Z;
           EText "a" (1, 18)%Z;
           ESub 1 [EStart (plain_name "p") [] (1, 19)%Z; EText "x" (1, 33)%Z;
                   EEnd (plain_name "p") (1, 34)%Z] (1, 34)%Z;
           EEnd (plain_name "div") (1, 38)%Z] (1, 38)%Z];
     pre_filters := [EvalFilter]; filters := []; post_filters := [WhitespaceFilter] |}.

Definition heap_if_nested : gmap nat (list directive) :=
  {[ 0 := [IfDirective (Some {| source := "True" |})];
     1 := [IfDirective (Some {| source := "f(" |})] ]}.

(** Text with an expression and no directive: [<p>$x</p>] *)
Definition doc_text : list event :=
  [EStart (plain_name "p") [] (1, 0)%Z;
   EText "$x" (1, 3)%Z;
   EEnd (plain_name "p") (1, 5)%Z].

Definition tmpl_text : Template :=
  {| filename := "<string>";
     stream := [EStart (plain_name "p") [] (1, 0)%Z;
                EExpr (Some {| source := "x" |}) (1, 3)%Z;
                EEnd (plain_name "p") (1, 5)%Z];
     pre_filters := [EvalFilter]; filters := []; post_filters := [WhitespaceFilter] |}.

Definition ctxt_x : Context := Ctx.init {[ "x" := VStr "hi" ]}.

(** An element with a class, and a value for [py:attrs]. *)
Definition li_class : list event :=
  [EStart (plain_name "li") [(plain_name "class", AVText "a"); (plain_name "id", AVText "i")]
     (2, 2)%Z;
   EEnd (plain_name "li") (2, 30)%Z].

Definition ctxt_foo (v : value) : Context := Ctx.init {[ "foo" := v ]}.

(** ** Notions of the further properties *)

Definition fragment_pos (f : fragment) : pos :=
  match f with FText _ p | FExpr _ p => p end.
(** A fragment as [_interpolate] makes them at [p]: it carries [p], and when
    it is text the text is not empty. *)
Definition fragment_at (p : pos) (f : fragment) : Prop :=
  fragment_pos f = p /\ match f with FText data _ => data <> EmptyString | FExpr _ _ => True end.
Fixpoint has_dollar (s : string) : bool :=
  match s with
  | EmptyString => false
  | String c rest => Ascii.eqb c "$" || has_dollar rest
  end.
(** What a match of the pattern adds around its group. *)
Definition opening (p : Re.regex) : string :=
  match p with Re.FULL_EXPR_RE => "${" | Re.SHORT_EXPR_RE => "$" end.
Definition closing (p : Re.regex) : string :=
  match p with Re.FULL_EXPR_RE => "}" | Re.SHORT_EXPR_RE => EmptyString end.
(** The pieces of a split put together again, each group between the opening
    and the closing of the pattern. *)
Fixpoint rejoin (p : Re.regex) (pieces : list string) : string :=
  match pieces with
  | [] => EmptyString
  | [piece] => piece
  | piece :: group :: rest =>
      String.append piece
        (String.append (opening p) (String.append group (String.append (closing p) (rejoin p rest))))
  end.
(** [s[n:]] *)
Fixpoint string_drop (n : nat) (s : string) : string :=
  match n, s with
  | S k, String _ rest => string_drop k rest
  | _, _ => s
  end.

(** The text fragment of a literal piece, none for the empty piece. *)
Definition literal (s : string) (p : pos) : list fragment :=
  if nonempty s then [FText s p] else [].

(** No closing brace and no newline. *)
Fixpoint brace_free (s : string) : bool :=
  match s with
  | EmptyString => true
  | String c rest => negb (Ascii.eqb c "}") && negb (Ascii.eqb c Re.newline) && brace_free rest
  end.

Fixpoint all_word (s : string) : bool :=
  match s with
  | EmptyString => true
  | String c rest => Re.is_word c && all_word rest
  end.

(** The text does not go on with a character of a name. *)
Definition ends_name (s : string) : bool :=
  match s with
  | EmptyString => true
  | String c _ => negb (Re.is_word c)
  end.

(** The first piece of a split with [pre] put before it. *)
Definition prepend (pre : string) (pieces : list string) : list string :=
  match pieces with
  | [] => [pre]
  | piece :: more => String.append pre piece :: more
  end.

(** An event of a parsed stream that is no start tag with an attribute in
    the namespace of the directives and no declaration of that namespace,
    and in which the same holds of the events nested in a SUB event. The
    end of the scope of a prefix, which names the prefix only, is not looked
    at. *)
Fixpoint directive_free (e : event) : bool :=
  match e with
  | EStart _ attrib _ =>
      forallb (fun a : QName * attr_value => negb (String.eqb (namespace a.1) NAMESPACE)) attrib
  | EStartNS _ uri _ => negb (String.eqb uri NAMESPACE)
  | ESub _ substream _ => forallb directive_free substream
  | _ => true
  end.

(** [filename or '<string>'] *)
Definition filename_or_default (filename : option string) : string :=
  match filename with
  | Some f => if nonempty f then f else "<string>"
  | None => "<string>"
  end.

(** Markup whose start and end tags nest: [depth] is the number of elements
    open so far, and none is left open at the end. *)
Fixpoint well_nested (depth : nat) (events : list event) : bool :=
  match events with
  | [] => Nat.eqb depth 0
  | EStart _ _ _ :: rest => well_nested (S depth) rest
  | EEnd _ _ :: rest =>
      match depth with
      | O => false
      | S d => well_nested d rest
      end
  | _ :: rest => well_nested depth rest
  end.

(** Every element recorded in [dirmap] is open at a depth below [b]. *)
Definition dirmap_below (m : list ((Z * QName) * (nat * nat))) (b : Z) : Prop :=
  Forall (fun kv : (Z * QName) * (nat * nat) => (kv.1.1 < b)%Z) m.

(** What an event adds to the depth count of the parser. *)
Definition depth_change (e : event) : Z :=
  match e with EStart _ _ _ => 1 | EEnd _ _ => -1 | _ => 0 end.

(** The separator occurs in [s] at the offset [n]. *)
Definition in_at (n : nat) (s : string) : Prop :=
  exists a b, s = String.append a (String.append " in " b) /\ String.length a = n.

(** ** [TemplateLoader] *)

(** A filter object in the [pre_filters] of a template that a loader built:
    one of the filters the template came with, or the include filter the
    loader appends, which refers back to the loader and to the template. *)
Inductive loader_filter : Type :=
| TemplateFilter (f : filter)
| IncludeFilter.

(** A template object as a loader hands it out, with the directive lists
    its SUB events hold. *)
Record loaded : Type := {
  l_filename : string;
  l_stream : list event;
  l_pre_filters : list loader_filter;
  l_filters : list filter;
  l_post_filters : list filter;
  l_dirlists : gmap nat (list directive)
}.

(** A file of the file system: the events the markup parser produces from
    its text, and its last modification time. *)
Record file : Type := { content : list event; mtime : Z }.

Record TemplateLoader : Type := {
  search_path : list string;
  auto_reload : bool;
  _cache : gmap string loaded;
  _mtime : gmap string Z
}.

(** [TemplateLoader.__init__] *)
Definition TemplateLoader_init (search_path : option (list string)) (auto_reload : bool)
  : TemplateLoader :=
  {| search_path := default [] search_path; auto_reload := auto_reload;
     _cache := ∅; _mtime := ∅ |}.

(** What [load] raises: [TemplateNotFound], the [OSError] of
    [os.path.getmtime], or whatever building the template raised. *)
Inductive load_exn : Type :=
| TemplateNotFound (name : string) (search_path : list string)
| OSError
| TemplateFailure (x : exn).

Definition is_IOError (x : exn) : bool :=
  match x with PyError cls => String.eqb cls "IOError" | _ => false end.

Section Loader.

Variable compiler_parse : string -> outcome ast.

(** [os.path.normpath] and [os.path.join] *)
Variable normpath : string -> string.
Variable join : string -> string -> string.

(** [Template(fileobj, filename=filepath)] followed by
    [tmpl.pre_filters.append(IncludeFilter(self, tmpl))]. *)
Definition load_template (f : file) (filepath : string) : outcome loaded :=
  do r <- Template_init compiler_parse (content f) (Some filepath);
  Ok {| l_filename := filename r.1; l_stream := stream r.1;
        l_pre_filters := map TemplateFilter (pre_filters r.1) ++ [IncludeFilter];
        l_filters := filters r.1; l_post_filters := post_filters r.1;
        l_dirlists := r.2 |}.

(** The loop [for dirname in self.search_path] of [load] and the [raise]
    after it. Opening a file that does not exist raises [IOError], which
    makes the loop go on to the next directory. *)
Fixpoint search (fs : gmap string file) (filename : string) (dirs : list string)
    (loader : TemplateLoader) : (load_exn + loaded) * TemplateLoader :=
  match dirs with
  | [] => (inl (TemplateNotFound filename (search_path loader)), loader)
  | dirname :: rest =>
      let filepath := join dirname filename in
      match fs !! filepath with
      | None => search fs filename rest loader
      | Some f =>
          match load_template f filepath with
          | Err x =>
              if is_IOError x then search fs filename rest loader
              else (inl (TemplateFailure x), loader)
          | Ok tmpl =>
              let loader1 :=
                {| search_path := search_path loader; auto_reload := auto_reload loader;
                   _cache := <[filename := tmpl]> (_cache loader);
                   _mtime := _mtime loader |} in
              match fs !! filepath with
              | None => (inl OSError, loader1)
              | Some f' =>
                  (inr tmpl,
                   {| search_path := search_path loader1; auto_reload := auto_reload loader1;
                      _cache := _cache loader1;
                      _mtime := <[filename := mtime f']> (_mtime loader1) |})
              end
          end
      end
  end.

(** [TemplateLoader.load] *)
Definition load (fs : gmap string file) (loader : TemplateLoader) (filename : string)
  : (load_exn + loaded) * TemplateLoader :=
  let filename := normpath filename in
  match _cache loader !! filename with
  | None => search fs filename (search_path loader) loader
  | Some tmpl =>
      if negb (auto_reload loader) then (inr tmpl, loader)
      else
        match fs !! l_filename tmpl with
        | None => (inl OSError, loader)
        | Some f =>
            match _mtime loader !! filename with
            | None => search fs filename (search_path loader) loader
            | Some recorded =>
                if Z.eqb (mtime f) recorded then (inr tmpl, loader)
                else search fs filename (search_path loader) loader
            end
        end
  end.

End Loader.

(** A loader over two directories, the page of the text example being in
    the second one. *)
Definition ex_normpath (filename : string) : string := filename.

Definition ex_join (dirname filename : string) : string :=
  String.append dirname (String "/" filename).

Definition fs_pages : gmap string file :=
  {[ "shared/page.html" := {| content := doc_text; mtime := 7 |} ]}.

Definition loader_pages : TemplateLoader :=
  TemplateLoader_init (Some ["site"; "shared"]) false.

Definition page_loaded : loaded :=
  {| l_filename := "shared/page.html"; l_stream := stream tmpl_text;
     l_pre_filters := [TemplateFilter EvalFilter; IncludeFilter];
     l_filters := []; l_post_filters := [WhitespaceFilter]; l_dirlists := ∅ |}.

(** * Theorems *)

(** ** Context *)

Lemma run_ops_height (ops : list Ctx.op) : forall c c',
  Ctx.run_ops ops c = Ok c' ->
  length (stack c') + Ctx.pops ops = length (stack c) + Ctx.pushes ops.
Proof.
  induction ops as [|o ops IH]; intros c c' H; simpl in H.
  - inversion H; subst. unfold Ctx.pops, Ctx.pushes. simpl. lia.
  - destruct (Ctx.run_op o c) as [c1|x] eqn:Hop; simpl in H; [|discriminate].
    apply IH in H.
    destruct o; simpl in Hop; unfold Ctx.pops, Ctx.pushes in *; simpl.
    + inversion Hop; subst. lia.
    + unfold Ctx.setitem in Hop. destruct (stack c) as [|f fs] eqn:Hs; [discriminate|].
      inversion Hop; subst. simpl in H. simpl. lia.
    + unfold Ctx.push in Hop. destruct (data !! "self"); [discriminate|].
      inversion Hop; subst. simpl in H. lia.
    + unfold Ctx.pop in Hop. destruct (stack c) as [|f fs] eqn:Hs; [discriminate|].
      inversion Hop; subst. simpl in H. simpl. lia.
Qed.

(** C2, as the code has it: [Context.pop] fails, with the assertion error,
    exactly when the stack is empty before the call; on any other stack it
    succeeds and removes the top-most frame, also when that is the last one.
    After any sequence of operations on a fresh context that ran without an
    error the height of the stack is one plus the pushes minus the pops. *)
Theorem Context_pop_guards_the_empty_stack :
  (forall c : Context,
      Ctx.pop c = Err (AssertionError "Pop from empty context stack") <-> stack c = [])
  /\ (forall (c : Context) frame rest,
      stack c = frame :: rest -> Ctx.pop c = Ok {| stack := rest |})
  /\ (forall data ops c',
      Ctx.run_ops ops (Ctx.init data) = Ok c' ->
      length (stack c') + Ctx.pops ops = 1 + Ctx.pushes ops).
Proof.
  split; [|split].
  - intros c. unfold Ctx.pop. destruct (stack c); split; intros H; try reflexivity; discriminate.
  - intros c frame rest H. unfold Ctx.pop. rewrite H. reflexivity.
  - intros data ops c' H. apply run_ops_height in H. simpl in H. exact H.
Qed.

(** C2 as stated fails: a pop on a context that holds only its base frame
    is a silent success and leaves the stack empty. *)
Lemma Context_pop_of_base_frame_succeeds :
  Ctx.run_ops [Ctx.OpPop] (Ctx.init ∅) = Ok {| stack := [] |}.
Proof. reflexivity. Qed.

(** C9, as the code has it: a frame that does not bind the name [self] can
    be pushed, and a pop at once after the push gives back the same context:
    the same frames, and the same value for every name. A frame that binds
    [self] cannot be pushed: the call raises [TypeError], the pop is not
    reached and the context stays as it is. *)
Theorem Context_push_pop_restores (c : Context) (data : gmap string value) :
  match data !! "self" with
  | None =>
      Ctx.push data c = Ok {| stack := data :: stack c |}
      /\ Ctx.run_ops [Ctx.OpPush data; Ctx.OpPop] c = Ok c
      /\ (forall c', Ctx.run_ops [Ctx.OpPush data; Ctx.OpPop] c = Ok c' ->
            stack c' = stack c /\ forall key, Ctx.get key c' = Ctx.get key c)
  | Some _ =>
      Ctx.push data c = Err (PyError "TypeError")
      /\ Ctx.run_ops [Ctx.OpPush data; Ctx.OpPop] c = Err (PyError "TypeError")
  end.
Proof.
  unfold Ctx.run_ops, Ctx.run_op, Ctx.push.
  destruct (data !! "self"); cbn; [split; reflexivity|].
  assert (H : Ok {| stack := stack c |} = Ok c) by (destruct c; reflexivity).
  split; [reflexivity|]. split; [exact H|].
  intros c' H'. rewrite H in H'. inversion H'; subst. split; reflexivity.
Qed.

(** C9 as stated fails: not every frame can be pushed. For a frame that
    binds the name [self] the push raises, and the pair of calls does not
    run. *)
Lemma Context_push_rejects_a_frame_binding_self :
  Ctx.push {[ "self" := VInt 1 ]} (Ctx.init ∅) = Err (PyError "TypeError")
  /\ Ctx.run_ops [Ctx.OpPush {[ "self" := VInt 1 ]}; Ctx.OpPop] (Ctx.init ∅)
     = Err (PyError "TypeError").
Proof. split; reflexivity. Qed.

(** ** Interpolation *)

Lemma interpolate_groups_no_patterns rec p groups :
  forall idx, exists fs, interpolate_groups rec p idx groups [] = (Ok fs, []).
Proof.
  induction groups as [|g groups IH]; intros idx; simpl.
  - eauto.
  - destruct (IH (S idx)) as [fs Hfs]. rewrite Hfs.
    destruct (Nat.odd idx); [simpl; eauto|].
    destruct (nonempty g); simpl; eauto.
Qed.

Lemma interpolate_inner_last_pattern d p pat text :
  exists fs, _interpolate_inner (S d) p [pat] text = (Ok fs, []).
Proof. simpl. apply interpolate_groups_no_patterns. Qed.

Lemma interpolate_groups_one_pattern d p pat groups :
  forall idx, exists fs ps,
    interpolate_groups (_interpolate_inner (S d) p) p idx groups [pat] = (Ok fs, ps).
Proof.
  induction groups as [|g groups IH]; intros idx.
  - simpl. eauto.
  - cbn [interpolate_groups].
    destruct (Nat.odd idx).
    + destruct (IH (S idx)) as (fs & ps & H). rewrite H. simpl. eauto.
    + destruct (nonempty g).
      * destruct (interpolate_inner_last_pattern d p pat g) as [rs Hrs]. rewrite Hrs.
        destruct (interpolate_groups_no_patterns (_interpolate_inner (S d) p) p groups (S idx))
          as [fs Hfs].
        rewrite Hfs. simpl. eauto.
      * apply IH.
Qed.

(** [_interpolate] returns its fragments for every text: the nesting of the
    inner generator never exceeds the two patterns. *)
Lemma interpolate_total text p : exists fs, _interpolate text p = Ok fs.
Proof.
  unfold _interpolate.
  change (_interpolate_inner 2 p [Re.FULL_EXPR_RE; Re.SHORT_EXPR_RE] text)
    with (interpolate_groups (_interpolate_inner 1 p) p 0
            (Re.split Re.FULL_EXPR_RE text) [Re.SHORT_EXPR_RE]).
  destruct (interpolate_groups_one_pattern 0 p Re.SHORT_EXPR_RE
              (Re.split Re.FULL_EXPR_RE text) 0) as (fs & ps & H).
  rewrite H. simpl. eauto.
Qed.

(** C4, the code at the failing input: the text has two residue segments
    around the braced expression; the short form of the first one becomes an
    EXPR event, the short form of the second one stays literal text. *)
Theorem interpolate_scans_only_first_residue :
  _interpolate "$a ${b} $c" (1, 0)%Z =
  Ok [FExpr {| source := "a" |} (1, 0)%Z; FText " " (1, 0)%Z;
      FExpr {| source := "b" |} (1, 0)%Z; FText " $c" (1, 0)%Z].
Proof. reflexivity. Qed.

Example split_full_ex :
  Re.split Re.FULL_EXPR_RE "$a ${b} $c" = ["$a "; "b"; " $c"].
Proof. reflexivity. Qed.

Example split_short_ex :
  Re.split Re.SHORT_EXPR_RE "$a.b $$c $1 $d_e." = [""; "a.b"; " $$c $1 "; "d_e."; ""].
Proof. reflexivity. Qed.

Example split_full_newline_ex :
  Re.split Re.FULL_EXPR_RE (String.append "${a" (String Re.newline "}${b}}"))
  = [String.append "${a" (String Re.newline "}"); "b"; "}"].
Proof. reflexivity. Qed.

Example unescape_ex : Re.unescape "a$$b$$$" = "a$b$$".
Proof. reflexivity. Qed.

Lemma interpolate_groups_literal rec p groups :
  forall idx, interpolate_groups rec p idx groups [] = (Ok (literal_pieces p idx groups), []).
Proof.
  induction groups as [|g groups IH]; intros idx; cbn [interpolate_groups literal_pieces].
  - reflexivity.
  - rewrite (IH (S idx)).
    destruct (Nat.odd idx); [reflexivity|].
    destruct (nonempty g); reflexivity.
Qed.

(** Once the text before the first braced expression is not empty, it is the
    only part of the text scanned for the short form: every later piece of
    the braced split is taken as it is. *)
Theorem interpolate_after_first_residue (text : string) (p : pos)
    (g0 : string) (rest : list string) :
  Re.split Re.FULL_EXPR_RE text = g0 :: rest ->
  nonempty g0 = true ->
  _interpolate text p
  = Ok (literal_pieces p 0 (Re.split Re.SHORT_EXPR_RE g0) ++ literal_pieces p 1 rest).
Proof.
  intros Hsplit Hg0. unfold _interpolate.
  change (_interpolate_inner 2 p [Re.FULL_EXPR_RE; Re.SHORT_EXPR_RE] text)
    with (interpolate_groups (_interpolate_inner 1 p) p 0
            (Re.split Re.FULL_EXPR_RE text) [Re.SHORT_EXPR_RE]).
  rewrite Hsplit. cbn [interpolate_groups Nat.odd]. rewrite Hg0.
  change (_interpolate_inner 1 p [Re.SHORT_EXPR_RE] g0)
    with (interpolate_groups (_interpolate_inner 0 p) p 0
            (Re.split Re.SHORT_EXPR_RE g0) []).
  rewrite !interpolate_groups_literal. reflexivity.
Qed.

(** The text of C4: only [$a] is found. *)
Lemma interpolate_after_first_residue_witness :
  _interpolate "$a ${b} $c" (1, 0)%Z
  = Ok (literal_pieces (1, 0)%Z 0 (Re.split Re.SHORT_EXPR_RE "$a ")
        ++ literal_pieces (1, 0)%Z 1 ["b"; " $c"]).
Proof.
  apply (interpolate_after_first_residue "$a ${b} $c" (1, 0)%Z "$a " ["b"; " $c"]);
    reflexivity.
Defined.

(** ** Generators *)

Lemma drain_yield_then (l : list event) (k : gen) (s : state) :
  drain (yield_then l k) s =
  let '(es, r, s') := drain k s in (l ++ es, r, s').
Proof.
  induction l as [|e l IH]; simpl.
  - destruct (drain k s) as [[es r] s']. reflexivity.
  - rewrite IH. destruct (drain k s) as [[es r] s']. reflexivity.
Qed.

Lemma yield_states_yield_then (l : list event) (k : gen) (s : state) :
  yield_states (yield_then l k) s = repeat s (length l) ++ yield_states k s.
Proof.
  induction l as [|e l IH]; simpl; [reflexivity|]. rewrite IH. reflexivity.
Qed.

Lemma drain_Gen_resume (f : state -> gen) (g : state -> state) (s : state) :
  drain (Gen (fun s0 => resume (f s0) (g s0))) s = drain (f s) (g s).
Proof. simpl. destruct (f s). reflexivity. Qed.

Lemma yield_states_Gen_resume (f : state -> gen) (g : state -> state) (s : state) :
  yield_states (Gen (fun s0 => resume (f s0) (g s0))) s = yield_states (f s) (g s).
Proof. simpl. destruct (f s). reflexivity. Qed.

Lemma exec_scope_keeps_None (formals : list string) :
  forall (kwargs defaults scope : gmap string value) (name : string),
    kwargs !! name = None -> defaults !! name = None ->
    scope !! name = Some VNone ->
    exec_scope formals [] kwargs defaults scope !! name = Some VNone.
Proof.
  induction formals as [|n formals IH]; intros kwargs defaults scope name Hk Hd Hs; simpl.
  - exact Hs.
  - apply IH; [ | exact Hd | ].
    + destruct (decide (n = name)) as [->|Hne].
      * apply lookup_delete_eq.
      * rewrite lookup_delete_ne by exact Hne. exact Hk.
    + destruct (decide (n = name)) as [->|Hne].
      * rewrite Hk, Hd. simpl. apply lookup_insert_eq.
      * rewrite lookup_insert_ne by exact Hne. exact Hs.
Qed.

Lemma exec_scope_missing (formals : list string) :
  forall (args : list value) (kwargs defaults scope : gmap string value)
         (name : string) (i : nat),
    formals !! i = Some name -> length args <= i ->
    kwargs !! name = None -> defaults !! name = None ->
    exec_scope formals args kwargs defaults scope !! name = Some VNone.
Proof.
  induction formals as [|n formals IH]; intros args kwargs defaults scope name i Hi Hlen Hk Hd.
  - discriminate.
  - destruct i as [|i]; simpl in Hi.
    + inversion Hi; subst n. destruct args as [|a args]; [|simpl in Hlen; lia].
      simpl. apply exec_scope_keeps_None.
      * apply lookup_delete_eq.
      * exact Hd.
      * rewrite Hk, Hd. simpl. apply lookup_insert_eq.
    + destruct args as [|a args]; simpl.
      * apply (IH [] _ _ _ name i); [exact Hi | simpl; lia | | exact Hd].
        destruct (decide (n = name)) as [->|Hne].
        -- apply lookup_delete_eq.
        -- rewrite lookup_delete_ne by exact Hne. exact Hk.
      * apply (IH args _ _ _ name i); [exact Hi | simpl in Hlen; lia | exact Hk | exact Hd].
Qed.

Lemma exec_scope_other (formals : list string) :
  forall (args : list value) (kwargs defaults scope : gmap string value) (name : string),
    name ∉ formals ->
    exec_scope formals args kwargs defaults scope !! name = scope !! name.
Proof.
  induction formals as [|n formals IH]; intros args kwargs defaults scope name Hnot;
    [reflexivity|].
  assert (Hne : n <> name) by (intros ->; apply Hnot; left).
  assert (Hrest : name ∉ formals) by (intros H; apply Hnot; right; exact H).
  cbn [exec_scope]. destruct args as [|a args]; rewrite (IH _ _ _ _ _ Hrest);
    apply lookup_insert_ne; exact Hne.
Qed.

Lemma drain_resume (g : gen) (s : state) :
  drain g s
  = match resume g s with
    | Stop s1 => ([], Finished, s1)
    | Yield e s1 k => let '(es, r, s2) := drain k s1 in (e :: es, r, s2)
    | Raise x s1 => if is_StopIteration x then ([], Finished, s1) else ([], Raised x, s1)
    end.
Proof. destruct g. reflexivity. Qed.

Lemma yield_states_resume (g : gen) (s : state) :
  yield_states g s
  = match resume g s with
    | Yield _ s1 k => s1 :: yield_states k s1
    | _ => []
    end.
Proof. destruct g. reflexivity. Qed.

Lemma scoped_replay_resume (did : nat) (scope : gmap string value) (s : state) :
  scope !! "self" = None ->
  resume (scoped_replay did scope) s
  = resume (yield_then (get_captured did s) pop_and_stop)
      (set_ctxt {| stack := scope :: stack (ctxt s) |} s).
Proof. intros H. cbn. unfold Ctx.push. rewrite H. reflexivity. Qed.

Lemma scoped_replay_self (did : nat) (scope : gmap string value) (s : state) :
  is_Some (scope !! "self") ->
  resume (scoped_replay did scope) s = Raise (PyError "TypeError") s.
Proof. intros [v H]. cbn. unfold Ctx.push. rewrite H. reflexivity. Qed.

Lemma drain_scoped_replay (did : nat) (scope : gmap string value) (s : state) :
  scope !! "self" = None ->
  drain (scoped_replay did scope) s = (get_captured did s, Finished, s).
Proof.
  intros H. rewrite drain_resume, (scoped_replay_resume did scope s H), <- drain_resume.
  rewrite drain_yield_then. cbn. rewrite app_nil_r.
  destruct s as [[frames] dl cap]. reflexivity.
Qed.

Lemma yield_states_scoped_replay (did : nat) (scope : gmap string value) (s : state) :
  scope !! "self" = None ->
  yield_states (scoped_replay did scope) s
  = repeat (set_ctxt {| stack := scope :: stack (ctxt s) |} s) (length (get_captured did s)).
Proof.
  intros H.
  rewrite yield_states_resume, (scoped_replay_resume did scope s H), <- yield_states_resume.
  rewrite yield_states_yield_then. cbn. rewrite app_nil_r. reflexivity.
Qed.

(** C10, as the code has it: when a call leaves out an argument whose
    formal parameter has no declared default (it is given neither by position
    nor by keyword), no formal parameter is named [self] and no keyword
    argument is named [self] or [ctxt], the call returns its generator, the
    frame that the generator pushes binds the name to [None], the events of
    the body are all handed out under that frame, and nothing is raised. *)
Theorem Def_exec_binds_missing_argument_to_None
    (did : nat) (formals : list string) (defaults kwargs : gmap string value)
    (args : list value) (name : string) (i : nat) :
  formals !! i = Some name -> length args <= i ->
  kwargs !! name = None -> defaults !! name = None ->
  "self" ∉ formals -> kwargs !! "self" = None -> kwargs !! "ctxt" = None ->
  exec_scope formals args kwargs defaults ∅ !! name = Some VNone
  /\ DefDirective_callable did formals defaults args kwargs
     = Ok (DefDirective_exec did formals defaults args kwargs)
  /\ forall s : state,
      Forall (fun st => exists frame,
                  stack (ctxt st) = frame :: stack (ctxt s)
                  /\ frame !! name = Some VNone
                  /\ Ctx.get name (ctxt st) = VNone)
             (yield_states (DefDirective_exec did formals defaults args kwargs) s)
      /\ drain (DefDirective_exec did formals defaults args kwargs) s
         = (get_captured did s, Finished, s).
Proof.
  intros Hi Hlen Hk Hd Hself Hks Hkc.
  pose proof (exec_scope_missing formals args kwargs defaults ∅ name i Hi Hlen Hk Hd) as Hscope.
  assert (Hfree : exec_scope formals args kwargs defaults ∅ !! "self" = None)
    by (rewrite exec_scope_other by exact Hself; apply lookup_empty).
  split; [exact Hscope|].
  split; [unfold DefDirective_callable; rewrite Hks, Hkc; reflexivity|].
  intros s. unfold DefDirective_exec. split.
  - rewrite (yield_states_scoped_replay did _ s Hfree).
    apply Forall_forall. intros st Hin. apply list_elem_of_In, repeat_spec in Hin. subst st.
    exists (exec_scope formals args kwargs defaults ∅).
    split; [reflexivity|]. split; [exact Hscope|].
    unfold Ctx.get. simpl. rewrite Hscope. reflexivity.
  - apply drain_scoped_replay. exact Hfree.
Qed.

(** C10 as stated fails: for the formal parameter named [self], left out by
    the call, the name is bound to [None] in the frame the call makes up,
    but that frame cannot be pushed: the call raises [TypeError] before the
    body runs, and no frame binds the name. *)
Lemma Def_exec_rejects_a_formal_named_self :
  exec_scope ["self"] [] ∅ ∅ ∅ !! "self" = Some VNone
  /\ DefDirective_callable 0 ["self"] ∅ [] ∅ = Ok (DefDirective_exec 0 ["self"] ∅ [] ∅)
  /\ drain (DefDirective_exec 0 ["self"] ∅ [] ∅)
       (set_captured 0 body_b (state_init (Ctx.init ∅) ∅))
     = ([], Raised (PyError "TypeError"), set_captured 0 body_b (state_init (Ctx.init ∅) ∅)).
Proof. vm_compute. repeat split; reflexivity. Qed.

Section ForProofs.

Variable evaluate : Expression -> Context -> value -> outcome value.

Lemma drain_with_resume consume (g : gen) (s : state) :
  drain_with consume g s
  = match resume g s with
    | Stop s1 => ([], Finished, s1)
    | Yield e s1 k =>
        let '(es, r, s2) := drain_with consume k (consume e s1) in (e :: es, r, s2)
    | Raise x s1 => if is_StopIteration x then ([], Finished, s1) else ([], Raised x, s1)
    end.
Proof. destruct g. reflexivity. Qed.

Lemma drain_with_throw consume (x : exn) (s : state) :
  match throw x s with
  | Stop s1 => ([], Finished, s1)
  | Yield e s1 k =>
      let '(es, r, s2) := drain_with consume k (consume e s1) in (e :: es, r, s2)
  | Raise y s1 => if is_StopIteration y then ([], Finished, s1) else ([], Raised y, s1)
  end = ([], ending_of x, s).
Proof.
  unfold throw, ending_of. destruct (is_StopIteration x) eqn:E; [reflexivity|].
  rewrite E. reflexivity.
Qed.

Lemma drain_with_yield_then consume (l : list event) (k : gen) (s : state) :
  drain_with consume (yield_then l k) s =
  let '(es, r, s') := drain_with consume k (fold_left (fun st e => consume e st) l s) in
  (l ++ es, r, s').
Proof.
  revert s. induction l as [|e l IH]; intros s; simpl.
  - destruct (drain_with consume k s) as [[es r] s']. reflexivity.
  - rewrite IH.
    destruct (drain_with consume k _) as [[es r] s']. reflexivity.
Qed.

Lemma keeps_stack_fold consume (l : list event) :
  keeps_stack consume ->
  forall s,
    length (stack (ctxt (fold_left (fun st e => consume e st) l s)))
      = length (stack (ctxt s))
    /\ tail (stack (ctxt (fold_left (fun st e => consume e st) l s)))
      = tail (stack (ctxt s)).
Proof.
  intros Hk. induction l as [|e l IH]; intros s; simpl.
  - split; reflexivity.
  - destruct (IH (consume e s)) as [H1 H2]. destruct (Hk e s) as [H3 H4].
    split; congruence.
Qed.

(** One pass of the loop, once the frame is pushed: the buffered events,
    the pop, and the rest of the loop. *)
Lemma for_pass consume targets buffered items (scope : gmap string value) (s : state) :
  keeps_stack consume ->
  exists s2,
    stack (ctxt s2) = stack (ctxt s)
    /\ drain_with consume
         (yield_then buffered
            (Gen (fun s2 =>
               match Ctx.pop (ctxt s2) with
               | Ok c2 => resume (for_loop targets buffered items) (set_ctxt c2 s2)
               | Err x => throw x s2
               end)))
         (set_ctxt {| stack := scope :: stack (ctxt s) |} s)
       = let '(es, r, s3) := drain_with consume (for_loop targets buffered items) s2 in
         (buffered ++ es, r, s3).
Proof.
  intros Hk. rewrite drain_with_yield_then.
  set (s1 := set_ctxt {| stack := scope :: stack (ctxt s) |} s).
  destruct (keeps_stack_fold consume buffered Hk s1) as [Hlen Htl].
  set (s2 := fold_left _ buffered s1) in *.
  destruct (stack (ctxt s2)) as [|f rest] eqn:Hs2; [simpl in Hlen; discriminate|].
  simpl in Htl.
  exists (set_ctxt {| stack := rest |} s2). split; [exact Htl|].
  cbn [drain_with]. unfold Ctx.pop. rewrite Hs2.
  rewrite (drain_with_resume consume (for_loop targets buffered items)). reflexivity.
Qed.

Lemma for_loop_restores_stack consume targets buffered :
  keeps_stack consume ->
  forall items s,
    stack (ctxt (drain_with consume (for_loop targets buffered items) s).2)
    = stack (ctxt s).
Proof.
  intros Hk. induction items as [|item items IH]; intros s.
  - reflexivity.
  - rewrite drain_with_resume. cbn [for_loop resume].
    destruct (for_scope 0 targets _ ∅) as [scope|x]; cbn [obind];
      [|rewrite drain_with_throw; reflexivity].
    unfold Ctx.push. destruct (scope !! "self");
      [rewrite drain_with_throw; reflexivity|].
    rewrite <- drain_with_resume.
    destruct (for_pass consume targets buffered items scope s Hk) as (s2 & Hs2 & ->).
    specialize (IH s2).
    destruct (drain_with consume (for_loop targets buffered items) s2) as [[es r] s3].
    simpl in IH |- *. rewrite IH. exact Hs2.
Qed.

Lemma for_loop_single_target_output consume name buffered :
  keeps_stack consume ->
  name <> "self" ->
  forall items s,
    (drain_with consume (for_loop [name] buffered items) s).1
    = (concat (map (fun _ => buffered) items), Finished).
Proof.
  intros Hk Hname. induction items as [|item items IH]; intros s.
  - reflexivity.
  - rewrite drain_with_resume.
    cbn [for_loop resume for_scope py_getitem nth_error obind map concat].
    unfold Ctx.push. rewrite lookup_insert_ne by exact Hname. rewrite lookup_empty.
    rewrite <- drain_with_resume.
    destruct (for_pass consume [name] buffered items (<[name := item]> ∅) s Hk)
      as (s2 & Hs2 & ->).
    specialize (IH s2).
    destruct (drain_with consume (for_loop [name] buffered items) s2) as [[es r] s3].
    simpl in IH |- *. inversion IH; subst. reflexivity.
Qed.


End ForProofs.

Section AttrsProofs.

Variable evaluate : Expression -> Context -> value -> outcome value.
Variable unicode : value -> outcome string.
Variable Attrs_on_other : option Expression -> event -> gen -> state -> res.

Lemma merge_attrs_pairs (items : list (string * value)) :
  forall attrib,
    merge_attrs unicode (map pair_of items) attrib = merge_all unicode items attrib.
Proof.
  induction items as [|[k v] items IH]; intros attrib; [reflexivity|].
  cbn [map merge_all merge_attrs]. unfold pair_of at 1. cbn.
  unfold merge_step. cbn. fold (plain_name k).
  destruct (is_None v); cbn [obind]; [apply IH|].
  destruct (unicode v) as [text|x]; cbn [obind]; [apply IH | reflexivity].
Qed.

Lemma attrs_items_pairs (attrs : value) (items : list (string * value)) :
  attrs = VDict items \/ attrs = VList (map pair_of items) ->
  attrs_items attrs = Ok (map pair_of items).
Proof. intros [-> | ->]; reflexivity. Qed.

(** C7, as the code has it: on an element's START event, a truthy value of
    the expression (a mapping, or a list of pairs) is merged pair by pair
    into a copy of the attributes: a pair whose value is [None] removes the
    attribute of that name, any other value is turned into text by
    [unicode], the text is stripped of the white space around it, and set;
    when [unicode] raises for a value, the directive raises that error in
    place of the START event. A falsy value leaves the attributes as they
    are. The rest of the stream follows unchanged. *)
Theorem Attrs_directive_merges
    (expr : option Expression) (stream : gen) (s s1 : state) (k : gen)
    (tag : QName) (attrib : Attributes) (p : pos) (attrs : value) :
  pull stream s = Yield (EStart tag attrib p) s1 k ->
  expr_evaluate evaluate expr (ctxt s1) VNone = Ok attrs ->
  (truthy attrs = false ->
     resume (AttrsDirective_call evaluate unicode Attrs_on_other expr stream) s
     = Yield (EStart tag attrib p) s1 k)
  /\ (forall items,
        truthy attrs = true ->
        attrs = VDict items \/ attrs = VList (map pair_of items) ->
        resume (AttrsDirective_call evaluate unicode Attrs_on_other expr stream) s
        = match merge_all unicode items attrib with
          | Ok attrib' => Yield (EStart tag attrib' p) s1 k
          | Err x => throw x s1
          end)
  /\ (forall (a : Attributes) name v,
        merge_step unicode a (name, VNone) = Ok (Attributes_remove (plain_name name) a)
        /\ (forall text, v <> VNone -> unicode v = Ok text ->
            merge_step unicode a (name, v)
            = Ok (Attributes_set (plain_name name) (AVText (strip text)) a))
        /\ (forall x, v <> VNone -> unicode v = Err x ->
            merge_step unicode a (name, v) = Err x)).
Proof.
  intros Hs He. unfold AttrsDirective_call. cbn [resume]. rewrite Hs, He.
  split; [|split].
  - intros ->. reflexivity.
  - intros items -> Hshape.
    rewrite (attrs_items_pairs attrs items Hshape). cbn [obind].
    rewrite merge_attrs_pairs. reflexivity.
  - intros a name v. split; [reflexivity|].
    assert (HN : v <> VNone -> is_None v = false)
      by (destruct v; intros H; try reflexivity; congruence).
    split; intros r Hv Hu; unfold merge_step; cbn; rewrite (HN Hv), Hu; reflexivity.
Qed.

End AttrsProofs.

Lemma QName_eqb_eq (a b : QName) : QName_eqb a b = true <-> a = b.
Proof.
  destruct a as [an al], b as [bn bl]. unfold QName_eqb. cbn.
  rewrite andb_true_iff, !String.eqb_eq. split.
  - intros [-> ->]. reflexivity.
  - intros H. inversion H. auto.
Qed.

Lemma Attributes_get_set (name : QName) (v : attr_value) (a : Attributes) :
  Attributes_get name (Attributes_set name v a) = Some v.
Proof.
  induction a as [|[n v0] a IH]; cbn.
  - assert (H : QName_eqb name name = true) by (apply QName_eqb_eq; reflexivity).
    rewrite H. reflexivity.
  - destruct (QName_eqb n name) eqn:E; cbn; rewrite E; [reflexivity | exact IH].
Qed.

Lemma Attributes_get_remove (name : QName) (a : Attributes) :
  NoDup (map fst a) -> Attributes_get name (Attributes_remove name a) = None.
Proof.
  induction a as [|[n v0] a IH]; intros Hnd; cbn; [reflexivity|].
  inversion Hnd as [|? ? Hnotin Hnd']; subst.
  destruct (QName_eqb n name) eqn:E.
  - apply QName_eqb_eq in E. subst n.
    clear IH Hnd Hnd'. induction a as [|[m w] a IH]; cbn; [reflexivity|].
    destruct (QName_eqb m name) eqn:E'.
    + apply QName_eqb_eq in E'. subst m. exfalso. apply Hnotin. cbn. left.
    + apply IH. intros Hin. apply Hnotin. cbn. right. exact Hin.
  - cbn. rewrite E. apply IH. exact Hnd'.
Qed.

Section TransformProofs.

Variable evaluate : Expression -> Context -> value -> outcome value.
Variable unicode : value -> outcome string.
Variable Attrs_on_other : option Expression -> event -> gen -> state -> res.
Variable run_filter : filter -> gen -> gen.

Lemma reraised_not_SyntaxError fname p x : is_SyntaxError (reraised fname p x) = false.
Proof. destruct x; try reflexivity. destruct p as [[l c]|]; reflexivity. Qed.

Lemma reraised_other fname p x : is_SyntaxError x = false -> reraised fname p x = x.
Proof. destruct x; try reflexivity. discriminate. Qed.

Lemma drain_Gen_resume' (g : gen) (s : state) :
  drain (Gen (fun s0 => resume g s0)) s = drain g s.
Proof. destruct g. reflexivity. Qed.

Lemma drain_throw (x : exn) (s : state) :
  match throw x s with
  | Stop s1 => ([], Finished, s1)
  | Yield e s1 k => let '(es, r, s2) := drain k s1 in (e :: es, r, s2)
  | Raise y s1 => if is_StopIteration y then ([], Finished, s1) else ([], Raised y, s1)
  end = ([], ending_of x, s).
Proof.
  unfold throw, ending_of. destruct (is_StopIteration x) eqn:E; [reflexivity|].
  rewrite E. reflexivity.
Qed.

(** The output of a nested activation is handed on event by event; when the
    nested activation finishes the loop goes on, and when it raises the loop
    ends there, with the error as the [except] clause leaves it. *)
Lemma drain_splice fname p cont (inner : gen) :
  forall s,
    drain (splice fname p inner cont) s
    = let '(es, r, s1) := drain inner s in
      match r with
      | Finished => let '(es', r', s2) := drain cont s1 in (es ++ es', r', s2)
      | Raised x => (es, ending_of (reraised fname p x), s1)
      end.
Proof.
  induction inner as [next IH] using gen_ind'. intros s.
  rewrite drain_resume. cbn [splice resume drain]. specialize (IH s).
  destruct (next s) as [s1|e s1 k|x s1].
  - rewrite <- drain_resume. destruct (drain cont s1) as [[es' r'] s2]. reflexivity.
  - rewrite IH. destruct (drain k s1) as [[es r] s2].
    destruct r as [|x]; [destruct (drain cont s2) as [[es' r'] s3]|]; reflexivity.
  - destruct (is_StopIteration x) eqn:E.
    + rewrite <- drain_resume. destruct (drain cont s1) as [[es' r'] s2]. reflexivity.
    + unfold reraise. rewrite drain_throw. reflexivity.
Qed.

(** One turn of the loop of [_transform], as its consumer sees it. *)
Lemma drain_transform_loop fname rec p (g : gen) (s : state) :
  drain (transform_loop evaluate unicode Attrs_on_other fname rec p g) s
  = match pull g s with
    | Stop s1 => ([], Finished, s1)
    | Raise x s1 => ([], ending_of (reraised fname p x), s1)
    | Yield e s1 k =>
        match e with
        | ESub loc sub p' =>
            match apply_SUB evaluate unicode Attrs_on_other loc sub s1 with
            | (Err x, s2) => ([], ending_of (reraised fname (Some p') x), s2)
            | (Ok sub', s2) =>
                let '(es, r, s3) := drain (rec sub') s2 in
                match r with
                | Finished =>
                    let '(es', r', s4) :=
                      drain (transform_loop evaluate unicode Attrs_on_other fname rec
                               (Some p') k) s3 in
                    (es ++ es', r', s4)
                | Raised x => (es, ending_of (reraised fname (Some p') x), s3)
                end
            end
        | _ =>
            let '(es, r, s2) :=
              drain (transform_loop evaluate unicode Attrs_on_other fname rec
                       (Some (event_pos e)) k) s1 in
            (e :: es, r, s2)
        end
    end.
Proof.
  rewrite drain_resume. destruct g as [next]. unfold pull.
  cbn [transform_loop resume].
  destruct (next s) as [s1|e s1 k|x s1].
  - reflexivity.
  - destruct e; try reflexivity.
    unfold apply_SUB.
    destruct (apply_directives _ _ _ _ _ _) as [[sub'|x] s2].
    + rewrite <- drain_resume. apply drain_splice.
    + unfold reraise. apply drain_throw.
  - unfold reraise. rewrite drain_throw. unfold throw, ending_of.
    destruct (is_StopIteration x) eqn:E; [|reflexivity].
    assert (Hx : reraised fname p x = x) by (destruct x; try reflexivity; discriminate).
    rewrite Hx, E. reflexivity.
Qed.

Lemma halts_drain tmpl depth p g s es q x s' :
  halts evaluate unicode Attrs_on_other run_filter tmpl depth p g s es q x s' ->
  drain (transform_loop evaluate unicode Attrs_on_other (filename tmpl)
           (_transform evaluate unicode Attrs_on_other run_filter tmpl depth) p g) s
  = (es, ending_of (reraised (filename tmpl) q x), s').
Proof.
  induction 1 as [depth p g s x s' Hpull
                 | depth p g s loc sub p' k s1 x s' Hpull Happ
                 | depth p g s loc sub p' k s1 sub' s2 es q x s' Hpull Happ Hin IH Hsi
                 | depth p g s e s1 k es q x s' Hpull He Hin IH
                 | depth p g s loc sub p' k s1 sub' s2 es1 s3 es2 q x s' Hpull Happ Hd Hin IH];
    rewrite drain_transform_loop, Hpull.
  - reflexivity.
  - rewrite Happ. reflexivity.
  - rewrite Happ. cbn [_transform]. rewrite drain_Gen_resume', IH.
    unfold ending_of at 1. rewrite Hsi.
    rewrite (reraised_other _ (Some p') _ (reraised_not_SyntaxError _ q x)). reflexivity.
  - rewrite IH. destruct e; try reflexivity. discriminate He.
  - rewrite Happ, Hd, IH. reflexivity.
Qed.


(** C5, as the code has it: every call of a function-definition or match
    directive that returns buffers the stream it is handed and stores it as
    the body, whatever body was stored before; nothing is handed out at the
    place of the definition. *)
Theorem capture_overwrites_on_every_call
    (did : nat) (name : string) (stream : gen) (s s' : state) (g : gen) :
  DefDirective_call did name stream s = (Ok g, s')
  \/ MatchDirective_call did stream s = (Ok g, s') ->
  get_captured did s' = (drain stream s).1.1 /\ g = iter [].
Proof.
  unfold DefDirective_call, MatchDirective_call.
  destruct (drain stream s) as [[body r] s1]. cbn [fst].
  intros [H | H]; destruct r as [|x]; try discriminate H.
  - destruct (Ctx.setitem name (VCallable did) (ctxt (set_captured did body s1)))
      as [c|x] eqn:Hset; [|discriminate H].
    inversion H; subst. split; [|reflexivity].
    unfold get_captured, set_ctxt, set_captured. cbn.
    rewrite lookup_insert_eq. reflexivity.
  - inversion H; subst. split; [|reflexivity].
    unfold get_captured, set_captured. cbn.
    rewrite lookup_insert_eq. reflexivity.
Qed.

End TransformProofs.


Section IdentityProofs.

Variable evaluate : Expression -> Context -> value -> outcome value.
Variable unicode : value -> outcome string.
Variable Attrs_on_other : option Expression -> event -> gen -> state -> res.
Variable run_filter : filter -> gen -> gen.
Variable compiler_parse : string -> outcome ast.

Lemma stream_append_plain e st :
  is_SUB e = false -> parser_plain st -> parser_plain (stream_append e st).
Proof.
  intros He (H1 & H2 & H3 & H4). unfold parser_plain, stream_append. cbn.
  repeat split; try assumption.
  apply Forall_app. split; [assumption|]. constructor; [assumption|constructor].
Qed.

Lemma interpolated_eq text p frags : _interpolate text p = Ok frags -> interpolated text p = frags.
Proof. unfold interpolated. intros ->. reflexivity. Qed.

Lemma parse_attrib_plain fname p attrib :
  forallb plain_attr attrib = true ->
  forall st ds na,
    parse_attrib compiler_parse fname p attrib st ds na
    = Ok (ds,
          na ++ map (fun a : QName * attr_value =>
                       (a.1, match a.2 with
                             | AVText v => AVFrags (interpolated v p)
                             | AVFrags l => AVFrags l
                             end)) attrib,
          st).
Proof.
  induction attrib as [|[name v] attrib IH]; intros Hall st ds na.
  - cbn. rewrite app_nil_r. reflexivity.
  - cbn [forallb] in Hall. apply andb_true_iff in Hall as [Ha Hall].
    unfold plain_attr in Ha. cbn in Ha. apply andb_true_iff in Ha as [Hns Hv].
    destruct v as [value|l]; [|discriminate Hv].
    cbn [parse_attrib]. apply negb_true_iff in Hns. rewrite Hns.
    destruct (interpolate_total value p) as [frags Hfr]. rewrite Hfr. cbn [obind].
    rewrite (IH Hall). cbn [map fst snd]. rewrite (interpolated_eq _ _ _ Hfr).
    rewrite <- app_assoc. reflexivity.
Qed.

Lemma fold_append_plain (frags : list fragment) :
  forall st, parser_plain st ->
    parser_plain (fold_left (fun st f => stream_append (event_of_fragment f) st) frags st).
Proof.
  induction frags as [|f frags IH]; intros st Hst; cbn; [exact Hst|].
  apply IH. apply stream_append_plain; [|exact Hst]. destruct f; reflexivity.
Qed.

Lemma fold_append_stream (frags : list fragment) :
  forall st,
    p_stream (fold_left (fun st f => stream_append (event_of_fragment f) st) frags st)
    = p_stream st ++ map event_of_fragment frags
    /\ p_ns_prefix (fold_left (fun st f => stream_append (event_of_fragment f) st) frags st)
       = p_ns_prefix st.
Proof.
  induction frags as [|f frags IH]; intros st; cbn [fold_left map].
  - rewrite app_nil_r. split; reflexivity.
  - destruct (IH (stream_append (event_of_fragment f) st)) as [H1 H2].
    rewrite H1, H2. cbn. rewrite <- app_assoc. split; reflexivity.
Qed.

(** One event of plain markup: the parser takes it without an error, stays
    free of directives, and extends its output as the specification says. *)
Lemma parse_event_plain fname e st :
  plain_markup e = true -> parser_plain st ->
  exists st',
    parse_event compiler_parse fname e st = Ok st' /\ parser_plain st'
    /\ forall rest,
        p_stream st' ++ spec_parsed (p_ns_prefix st') rest
        = p_stream st ++ spec_parsed (p_ns_prefix st) (e :: rest).
Proof.
  intros He Hst.
  destruct e as [tag attrib p | tag p | data p | pfx uri p | pfx p | k data p | ex p | loc sub p];
    cbn [plain_markup] in He; try discriminate He.
  - (* START *)
    cbn [parse_event].
    rewrite (parse_attrib_plain fname p attrib He st [] []). cbn [obind app].
    eexists. split; [reflexivity|]. split.
    + pose proof (stream_append_plain
                    (EStart tag (map (fun a : QName * attr_value =>
                       (a.1, match a.2 with
                             | AVText v => AVFrags (interpolated v p)
                             | AVFrags l => AVFrags l
                             end)) attrib) p) st eq_refl Hst) as (H1 & H2 & H3 & H4).
      unfold parser_plain. cbn. repeat split; assumption.
    + intros rest. cbn. rewrite <- app_assoc. reflexivity.
  - (* END *)
    cbn [parse_event]. destruct Hst as (H1 & H2 & H3 & H4). rewrite H2. cbn.
    eexists. split; [reflexivity|]. split.
    + unfold parser_plain. cbn. repeat split; try assumption.
      apply Forall_app. split; [assumption|]. constructor; [reflexivity|constructor].
    + intros rest. cbn. rewrite <- app_assoc. reflexivity.
  - (* TEXT *)
    cbn [parse_event]. destruct (interpolate_total data p) as [frags Hfr].
    rewrite Hfr. cbn [obind]. eexists. split; [reflexivity|]. split.
    + apply fold_append_plain. exact Hst.
    + intros rest. destruct (fold_append_stream frags st) as [E1 E2].
      rewrite E1, E2. cbn [spec_parsed]. rewrite (interpolated_eq _ _ _ Hfr).
      rewrite <- app_assoc. reflexivity.
  - (* START_NS *)
    cbn [parse_event spec_parsed]. destruct (String.eqb uri NAMESPACE).
    + eexists. split; [reflexivity|]. split.
      * destruct Hst as (H1 & H2 & H3 & H4).
        unfold parser_plain. cbn. repeat split; assumption.
      * intros rest. reflexivity.
    + eexists. split; [reflexivity|]. split.
      * apply stream_append_plain; [reflexivity|exact Hst].
      * intros rest. cbn. rewrite <- app_assoc. reflexivity.
  - (* END_NS *)
    cbn [parse_event spec_parsed]. destruct (p_ns_prefix st !! pfx).
    + eexists. split; [reflexivity|]. split.
      * destruct Hst as (H1 & H2 & H3 & H4).
        unfold parser_plain. cbn. repeat split; assumption.
      * intros rest. reflexivity.
    + eexists. split; [reflexivity|]. split.
      * apply stream_append_plain; [reflexivity|exact Hst].
      * intros rest. cbn. rewrite <- app_assoc. reflexivity.
  - (* other kinds *)
    cbn [parse_event]. eexists. split; [reflexivity|]. split.
    + apply stream_append_plain; [reflexivity|exact Hst].
    + intros rest. cbn. rewrite <- app_assoc. reflexivity.
Qed.

Lemma parse_events_plain fname events :
  forallb plain_markup events = true ->
  forall st, parser_plain st ->
    exists st',
      parse_events compiler_parse fname events st = Ok st' /\ parser_plain st'
      /\ p_stream st' = p_stream st ++ spec_parsed (p_ns_prefix st) events.
Proof.
  induction events as [|e events IH]; intros Hall st Hst.
  - cbn. rewrite app_nil_r. eauto.
  - cbn [forallb] in Hall. apply andb_true_iff in Hall as [He Hall].
    destruct (parse_event_plain fname e st He Hst) as (st1 & H1 & Hst1 & Hs1).
    cbn [parse_events]. rewrite H1. cbn [obind].
    destruct (IH Hall st1 Hst1) as (st' & H2 & Hst' & Hs').
    exists st'. split; [exact H2|]. split; [exact Hst'|].
    rewrite Hs'. apply Hs1.
Qed.

Lemma reraise_plain fname p x s :
  is_SyntaxError x = false -> is_StopIteration x = false ->
  reraise fname p x s = Raise x s.
Proof.
  intros H1 H2. unfold reraise, throw.
  assert (Hx : reraised fname p x = x) by (destruct x; try reflexivity; discriminate).
  rewrite Hx, H2. reflexivity.
Qed.

Lemma transform_loop_plain fname rec :
  forall g, plain g ->
    forall p, transform_loop evaluate unicode Attrs_on_other fname rec p g = g.
Proof.
  fix IH 2. intros g Hg p. destruct Hg as [next Hnext].
  cbn [transform_loop resume]. f_equal.
  apply functional_extensionality. intros s.
  destruct (Hnext s) as [s1 | e s1 k He Hk | x s1 Hx Hsi].
  - reflexivity.
  - destruct e; try discriminate He; rewrite (IH k Hk); reflexivity.
  - apply reraise_plain; assumption.
Qed.

Lemma Gen_resume (g : gen) : Gen (fun s => resume g s) = g.
Proof. destruct g. reflexivity. Qed.


End IdentityProofs.

Example ex_parse_def_strip :
  Template_init ex_compiler_parse doc_def_strip None = Ok (tmpl_def_strip, heap_def_strip).
Proof. vm_compute. reflexivity. Qed.

Example ex_parse_for_content :
  Template_init ex_compiler_parse doc_for_content None
  = Ok (tmpl_for_content, {[ 0 := [for_item; content_item] ]}).
Proof. vm_compute. reflexivity. Qed.

Example ex_parse_if :
  Template_init ex_compiler_parse (doc_if "1/0") (Some "page.html")
  = Ok (tmpl_if, heap_if "1/0").
Proof. vm_compute. reflexivity. Qed.

(** C1, the code on an element that carries two directives and is evaluated
    twice. The parser stores the list in the canonical order (iteration
    before content). Every evaluation of the SUB node reverses the stored
    list in place before it applies it: the first evaluation applies content
    first, the reverse of the canonical order, and the loop replays the
    element once per item; the second evaluation finds the list reversed,
    reverses it back and applies iteration first, the canonical order, and
    the element comes out once. This happens across two calls of [generate],
    and within one call when the element stands in the body of a loop. *)
Theorem second_evaluation_applies_canonical_order :
  let run1 := drain (generate ex_evaluate ex_unicode ex_Attrs_on_other ex_run_filter tmpl_for_content 5)
                (state_init ctxt_items {[ 0 := [for_item; content_item] ]}) in
  let run2 := drain (generate ex_evaluate ex_unicode ex_Attrs_on_other ex_run_filter tmpl_for_content 5) run1.2 in
  let nested := drain (generate ex_evaluate ex_unicode ex_Attrs_on_other ex_run_filter tmpl_nested 5)
                  (state_init ctxt_rows heap_nested) in
  Template_init ex_compiler_parse doc_for_content None
  = Ok (tmpl_for_content, {[ 0 := [for_item; content_item] ]})
  /\ run1.1 = (EStart (plain_name "ul") [] (1, 0)%Z :: li "a" ++ li "b"
                ++ [EEnd (plain_name "ul") (3, 0)%Z], Finished)
  /\ get_dirlist 0 run1.2 = [content_item; for_item]
  /\ run2.1 = (EStart (plain_name "ul") [] (1, 0)%Z :: li "a"
                ++ [EEnd (plain_name "ul") (3, 0)%Z], Finished)
  /\ get_dirlist 0 run2.2 = [for_item; content_item]
  /\ Template_init ex_compiler_parse doc_nested None = Ok (tmpl_nested, heap_nested)
  /\ nested.1 = ((EStart (plain_name "ul") [] (1, 0)%Z :: li "a" ++ li "b"
                   ++ [EEnd (plain_name "ul") (3, 0)%Z])
                  ++ (EStart (plain_name "ul") [] (1, 0)%Z :: li "a"
                   ++ [EEnd (plain_name "ul") (3, 0)%Z]), Finished).
Proof. vm_compute. repeat split; reflexivity. Qed.


(** C5 as stated fails: the body captured at the first evaluation of the
    SUB node is overwritten by a later evaluation. The first and the third
    [generate] both apply the strip directive before the function
    definition; with the flag true the first captures the body without the
    wrapping element, with the flag false the third captures it with the
    wrapping element, in place of the first capture. *)
Lemma later_evaluation_recaptures_body :
  let run1 := drain (generate ex_evaluate ex_unicode ex_Attrs_on_other ex_run_filter tmpl_def_strip 5)
                (state_init (ctxt_flag true) heap_def_strip) in
  let run2 := drain (generate ex_evaluate ex_unicode ex_Attrs_on_other ex_run_filter tmpl_def_strip 5)
                (set_ctxt (ctxt_flag true) run1.2) in
  let run3 := drain (generate ex_evaluate ex_unicode ex_Attrs_on_other ex_run_filter tmpl_def_strip 5)
                (set_ctxt (ctxt_flag false) run2.2) in
  Template_init ex_compiler_parse doc_def_strip None = Ok (tmpl_def_strip, heap_def_strip)
  /\ run1.1 = ([], Finished) /\ get_captured 0 run1.2 = body_b
  /\ run3.1 = ([], Finished) /\ get_captured 0 run3.2 = body_div
  /\ get_dirlist 1 run1.2 = get_dirlist 1 run3.2.
Proof. vm_compute. repeat split; reflexivity. Qed.

(** C7 as stated fails: the value set is the text of the value stripped of
    the white space around it, not the text itself; a no-break space and a
    next-line character are white space as well. *)
Lemma Attrs_directive_strips_the_value :
  drain (AttrsDirective_call ex_evaluate ex_unicode ex_Attrs_on_other (Some {| source := "foo" |}) (iter li_class))
    (state_init (ctxt_foo (VList [VTuple [VStr "class"; VStr " b "]])) ∅)
  = ([EStart (plain_name "li") [(plain_name "class", AVText "b"); (plain_name "id", AVText "i")]
        (2, 2)%Z;
      EEnd (plain_name "li") (2, 30)%Z],
     Finished,
     state_init (ctxt_foo (VList [VTuple [VStr "class"; VStr " b "]])) ∅)
  /\ ex_unicode (VStr " b ") = Ok " b "
  /\ strip (String (ascii_of_nat 160) (String "b" (String (ascii_of_nat 133) EmptyString)))
     = "b".
Proof. vm_compute. repeat split; reflexivity. Qed.


(** ** The theorems at concrete inputs *)

(** C10 on [echo(greeting, name='world')] called without arguments. *)
Lemma Def_exec_binds_missing_argument_witness :
  exec_scope ["greeting"; "name"] [] ∅ {[ "name" := VStr "world" ]} ∅ !! "greeting"
  = Some VNone.
Proof.
  refine (proj1 (Def_exec_binds_missing_argument_to_None 0 ["greeting"; "name"]
                   {[ "name" := VStr "world" ]} ∅ [] "greeting" 0 _ _ _ _ _ _ _)).
  - reflexivity.
  - simpl. lia.
  - vm_compute. reflexivity.
  - vm_compute. reflexivity.
  - intros H. apply list_elem_of_In in H. simpl in H.
    destruct H as [H|[H|[]]]; discriminate H.
  - vm_compute. reflexivity.
  - vm_compute. reflexivity.
Defined.


(** C7 on a mapping that removes [class] and sets [id]. *)
Lemma Attrs_directive_witness :
  resume (AttrsDirective_call ex_evaluate ex_unicode ex_Attrs_on_other
            (Some {| source := "foo" |}) (iter li_class))
    (state_init (ctxt_foo (VDict [("class", VNone); ("id", VStr " x ")])) ∅)
  = Yield (EStart (plain_name "li") [(plain_name "id", AVText "x")] (2, 2)%Z)
      (state_init (ctxt_foo (VDict [("class", VNone); ("id", VStr " x ")])) ∅)
      (iter [EEnd (plain_name "li") (2, 30)%Z]).
Proof.
  refine (proj1 (proj2 (Attrs_directive_merges ex_evaluate ex_unicode ex_Attrs_on_other
                          (Some {| source := "foo" |}) (iter li_class)
                          (state_init (ctxt_foo (VDict [("class", VNone); ("id", VStr " x ")])) ∅)
                          (state_init (ctxt_foo (VDict [("class", VNone); ("id", VStr " x ")])) ∅)
                          (iter [EEnd (plain_name "li") (2, 30)%Z])
                          (plain_name "li")
                          [(plain_name "class", AVText "a"); (plain_name "id", AVText "i")]
                          (2, 2)%Z
                          (VDict [("class", VNone); ("id", VStr " x ")]) _ _))
                [("class", VNone); ("id", VStr " x ")] _ _).
  - reflexivity.
  - vm_compute. reflexivity.
  - reflexivity.
  - left. reflexivity.
Defined.

(** C5 on a directive that already holds a body. *)
Lemma capture_overwrites_witness :
  get_captured 0
    (DefDirective_call 0 "echo" (iter body_b)
       (set_captured 0 body_div (state_init (Ctx.init ∅) ∅))).2
  = body_b.
Proof.
  refine (proj1 (capture_overwrites_on_every_call 0 "echo" (iter body_b)
                   (set_captured 0 body_div (state_init (Ctx.init ∅) ∅))
                   (DefDirective_call 0 "echo" (iter body_b)
                      (set_captured 0 body_div (state_init (Ctx.init ∅) ∅))).2
                   (iter []) _)).
  left. reflexivity.
Defined.



(** ** Errors that leave the transform, and the order of the directives *)

Section NoSyntaxError.

Variable evaluate : Expression -> Context -> value -> outcome value.
Variable unicode : value -> outcome string.
Variable Attrs_on_other : option Expression -> event -> gen -> state -> res.
Variable run_filter : filter -> gen -> gen.

Lemma reraised_no_SyntaxError fname p x es s :
  no_SyntaxError (es, ending_of (reraised fname p x), s).
Proof.
  unfold no_SyntaxError, ending_of. cbn.
  destruct (is_StopIteration (reraised fname p x)); [exact I|].
  apply reraised_not_SyntaxError.
Qed.

Lemma transform_loop_no_SyntaxError fname rec :
  forall g p s,
    no_SyntaxError (drain (transform_loop evaluate unicode Attrs_on_other fname rec p g) s).
Proof.
  intros g. induction g as [next IH] using gen_ind'. intros p s.
  rewrite drain_transform_loop. unfold pull. cbn [resume]. specialize (IH s).
  destruct (next s) as [s1 | e s1 k | x s1].
  - exact I.
  - destruct e;
      try (match goal with
           | |- context [transform_loop _ _ _ _ _ ?q k] =>
               specialize (IH q s1);
               destruct (drain (transform_loop evaluate unicode Attrs_on_other fname rec q k) s1)
                 as [[es r] s2];
               exact IH
           end).
    destruct (apply_SUB evaluate unicode Attrs_on_other _ _ _) as [[sub'|x] s3].
    + destruct (drain (rec sub') s3) as [[es [|x]] s4].
      * specialize (IH (Some p0) s4).
        destruct (drain (transform_loop evaluate unicode Attrs_on_other fname rec (Some p0) k) s4)
          as [[es' r'] s5].
        exact IH.
      * apply reraised_no_SyntaxError.
    + apply reraised_no_SyntaxError.
  - unfold throw. destruct (is_StopIteration x); [exact I|].
    apply reraised_no_SyntaxError.
Qed.


End NoSyntaxError.

Lemma insert_directive_sorted d l :
  Sorted (fun a b => _dir_order_index a <= _dir_order_index b) l ->
  Sorted (fun a b => _dir_order_index a <= _dir_order_index b) (insert_directive d l).
Proof.
  induction 1 as [|x l Hs IH Hhd]; cbn [insert_directive].
  - repeat constructor.
  - destruct (Nat.ltb_spec (_dir_order_index x) (_dir_order_index d)) as [Hlt|Hge].
    + constructor; [exact IH|].
      destruct l as [|y l]; cbn [insert_directive].
      * constructor. lia.
      * destruct (Nat.ltb_spec (_dir_order_index y) (_dir_order_index d)).
        -- constructor. inversion Hhd; subst. assumption.
        -- constructor. lia.
    + constructor; [constructor; assumption|]. constructor. exact Hge.
Qed.

Lemma insert_directive_perm d l : insert_directive d l ≡ₚ d :: l.
Proof.
  induction l as [|x l IH]; cbn [insert_directive]; [reflexivity|].
  destruct (Nat.ltb _ _); [|reflexivity].
  rewrite IH. apply Permutation_swap.
Qed.

(** X3: the directives sorted by the parser are in the order of
    [_dir_order], function definition first and strip last, and they are the
    directives found on the element. *)
Theorem sort_directives_canonical (l : list directive) :
  Sorted (fun a b => _dir_order_index a <= _dir_order_index b) (sort_directives l)
  /\ sort_directives l ≡ₚ l.
Proof.
  induction l as [|d l [IHs IHp]]; cbn.
  - split; [constructor|reflexivity].
  - split.
    + apply insert_directive_sorted. exact IHs.
    + rewrite insert_directive_perm. rewrite IHp. reflexivity.
Qed.

(** ** Further properties of the directives *)

Section DirectiveProofs.

Variable evaluate : Expression -> Context -> value -> outcome value.

Lemma drain_iter (l : list event) (s : state) : drain (iter l) s = (l, Finished, s).
Proof.
  unfold iter. rewrite drain_yield_then. cbn. rewrite app_nil_r. reflexivity.
Qed.

Lemma drain_lag (l : list event) :
  forall previous s, drain (lag previous (iter l)) s = (removelast (previous :: l), Finished, s).
Proof.
  induction l as [|e l IH]; intros previous s.
  - reflexivity.
  - cbn [iter yield_then lag drain resume]. fold (iter l). rewrite IH. reflexivity.
Qed.

(** X4: the strip directive on an element's events: without an expression, or
    with one that is truthy, the first and the last event (the element's own
    START and END) are dropped and everything in between is handed out
    unchanged; with a falsy expression everything is handed out. *)
Theorem Strip_directive_unwraps
    (expr : option Expression) (first last : event) (between : list event) (s : state)
    (v : value) :
  match expr with
  | Some e => evaluate e (ctxt s) VNone = Ok v
  | None => v = VBool true
  end ->
  drain (StripDirective_call evaluate expr (iter (first :: between ++ [last]))) s
  = (if truthy v then between else first :: between ++ [last], Finished, s).
Proof.
  intros Hv. rewrite drain_resume. unfold StripDirective_call. cbn [resume].
  assert (Hr : match expr with
               | Some e => evaluate e (ctxt s) VNone
               | None => Ok (VBool true)
               end = Ok v).
  { destruct expr; [exact Hv | subst v; reflexivity]. }
  rewrite Hr.
  destruct (truthy v).
  - unfold pull.
    destruct between as [|e between]; cbn [app iter yield_then resume]; [reflexivity|].
    fold (iter (between ++ [last])).
    rewrite <- drain_resume, drain_lag.
    change (e :: between ++ [last]) with ((e :: between) ++ [last]).
    rewrite removelast_last. reflexivity.
  - rewrite <- drain_resume. apply drain_iter.
Qed.

End DirectiveProofs.

(** X4 on the element of the function definition example. *)
Lemma Strip_directive_unwraps_witness :
  drain (StripDirective_call ex_evaluate None (iter body_div)) (state_init (Ctx.init ∅) ∅)
  = (body_b, Finished, state_init (Ctx.init ∅) ∅).
Proof.
  refine (Strip_directive_unwraps ex_evaluate None (EStart (plain_name "div") [] (1, 0)%Z)
            (EEnd (plain_name "div") (3, 0)%Z) body_b (state_init (Ctx.init ∅) ∅)
            (VBool true) _).
  reflexivity.
Defined.

(** ** The context, further *)

Lemma get_frames_unbound key frames :
  Forall (fun frame : gmap string value => frame !! key = None) frames ->
  Ctx.get_frames key frames = VNone.
Proof.
  induction 1 as [|frame frames Hf _ IH]; cbn; [reflexivity|].
  rewrite Hf. exact IH.
Qed.

(** X7: a lookup reads the innermost binding: the value is that of the first
    frame from the top that binds the name, whatever the frames below it
    hold, so that a pushed frame shadows the ones under it; and a name that
    no frame binds reads as [None], without an error, on a stack of any
    height. *)
Theorem Context_get_reads_the_innermost_binding
    (c : Context) (key : string) :
  (forall above frame below v,
      stack c = above ++ frame :: below ->
      Forall (fun fr : gmap string value => fr !! key = None) above ->
      frame !! key = Some v ->
      Ctx.get key c = v)
  /\ (Forall (fun fr : gmap string value => fr !! key = None) (stack c) ->
      Ctx.get key c = VNone).
Proof.
  split; [|apply get_frames_unbound].
  intros above frame below v Hst Habove Hv. unfold Ctx.get. rewrite Hst. clear Hst.
  induction Habove as [|fr above Hfr _ IH]; cbn.
  - rewrite Hv. reflexivity.
  - rewrite Hfr. exact IH.
Qed.

(** X8: setting a name and reading it back: on a stack that is not empty the
    assignment succeeds, the name then reads as the value set, every other
    name reads as before, and the height of the stack is unchanged; on the
    empty stack the assignment raises [IndexError]. *)
Theorem Context_setitem_then_get (c : Context) (key : string) (v : value) :
  match stack c with
  | [] => Ctx.setitem key v c = Err (PyError "IndexError")
  | _ :: _ =>
      exists c', Ctx.setitem key v c = Ok c'
        /\ Ctx.get key c' = v
        /\ (forall other, other <> key -> Ctx.get other c' = Ctx.get other c)
        /\ length (stack c') = length (stack c)
  end.
Proof.
  unfold Ctx.setitem, Ctx.get. destruct (stack c) as [|frame rest]; [reflexivity|].
  eexists. split; [reflexivity|]. cbn. split; [|split].
  - rewrite lookup_insert_eq. reflexivity.
  - intros other Hne. rewrite lookup_insert_ne by congruence. reflexivity.
  - reflexivity.
Qed.

Lemma run_ops_sets (sets : list (string * value)) :
  forall frame rest,
    Ctx.run_ops (map (fun kv => Ctx.OpSet kv.1 kv.2) sets ++ [Ctx.OpPop])
      {| stack := frame :: rest |} = Ok {| stack := rest |}.
Proof.
  induction sets as [|[k v] sets IH]; intros frame rest; [reflexivity|].
  cbn. apply IH.
Qed.

(** X9: assignments go to the top-most frame only: made after the push of a
    frame that does not bind the name [self], however many, they are gone
    with the pop, which gives back the context as it was before the push. A
    frame that binds [self] cannot be pushed: the push raises [TypeError]
    and nothing after it runs. *)
Theorem Context_setitem_is_scoped (c : Context) (data : gmap string value)
    (sets : list (string * value)) :
  Ctx.run_ops (Ctx.OpPush data :: map (fun kv => Ctx.OpSet kv.1 kv.2) sets ++ [Ctx.OpPop]) c
  = match data !! "self" with
    | None => Ok c
    | Some _ => Err (PyError "TypeError")
    end.
Proof.
  destruct c as [frames]. cbn [Ctx.run_ops Ctx.run_op app]. unfold Ctx.push.
  destruct (data !! "self"); [reflexivity|]. cbn. apply run_ops_sets.
Qed.

(** ** Interpolation, further *)

Lemma unescape_nonempty s : s <> EmptyString -> Re.unescape s <> EmptyString.
Proof.
  destruct s as [|c [|d rest]]; cbn; try congruence.
  destruct (Ascii.eqb c "$" && Ascii.eqb d "$"); congruence.
Qed.

Lemma nonempty_true s : nonempty s = true -> s <> EmptyString.
Proof. destruct s; cbn; congruence. Qed.

Lemma interpolate_groups_fragments rec p groups :
  (forall ps text fs ps', rec ps text = (Ok fs, ps') -> Forall (fragment_at p) fs) ->
  forall idx patterns fs ps',
    interpolate_groups rec p idx groups patterns = (Ok fs, ps') ->
    Forall (fragment_at p) fs.
Proof.
  intros Hrec. induction groups as [|g groups IH]; intros idx patterns fs ps' H;
    cbn [interpolate_groups] in H.
  - inversion H; subst. constructor.
  - destruct (Nat.odd idx).
    + destruct (interpolate_groups rec p (S idx) groups patterns) as [[fs0|x] ps0] eqn:E;
        cbn in H; inversion H; subst.
      constructor; [split; [reflexivity|exact I] | eapply IH; exact E].
    + destruct (nonempty g) eqn:Hg; [|eapply IH; exact H].
      destruct patterns as [|pat patterns].
      * destruct (interpolate_groups rec p (S idx) groups []) as [[fs0|x] ps0] eqn:E;
          cbn in H; inversion H; subst.
        constructor; [|eapply IH; exact E].
        split; [reflexivity|]. apply unescape_nonempty, nonempty_true, Hg.
      * destruct (rec (pat :: patterns) g) as [[results|x] ps1] eqn:Er; [|inversion H].
        destruct (interpolate_groups rec p (S idx) groups ps1) as [[fs0|x] ps0] eqn:E;
          cbn in H; inversion H; subst.
        apply Forall_app. split; [eapply Hrec; exact Er | eapply IH; exact E].
Qed.

Lemma interpolate_inner_fragments depth p :
  forall patterns text fs ps',
    _interpolate_inner depth p patterns text = (Ok fs, ps') -> Forall (fragment_at p) fs.
Proof.
  induction depth as [|depth IH]; intros patterns text fs ps' H; cbn [_interpolate_inner] in H.
  - inversion H.
  - destruct patterns as [|pat patterns]; [inversion H|].
    eapply interpolate_groups_fragments; [|exact H]. exact IH.
Qed.

(** X1: every fragment [_interpolate] makes carries the position it was called
    with, the position of the whole text, whatever the place of the fragment
    in the text; and no text fragment is empty. *)
Theorem interpolate_fragments_keep_position (text : string) (p : pos) :
  exists fs, _interpolate text p = Ok fs /\ Forall (fragment_at p) fs.
Proof.
  destruct (interpolate_total text p) as [fs Hfs]. exists fs. split; [exact Hfs|].
  unfold _interpolate in Hfs.
  destruct (_interpolate_inner 2 p [Re.FULL_EXPR_RE; Re.SHORT_EXPR_RE] text) as [r ps] eqn:E.
  cbn in Hfs. subst r. eapply interpolate_inner_fragments. exact E.
Qed.

Lemma match_here_no_dollar p ad c rest :
  Ascii.eqb c "$" = false -> Re.match_here p ad (String c rest) = None.
Proof.
  intros Hc. unfold Re.match_here. destruct ad; [reflexivity|].
  destruct p; destruct rest as [|b [|d rest]]; try reflexivity; rewrite Hc; reflexivity.
Qed.

Lemma split_go_no_dollar p text :
  has_dollar text = false -> forall ad, Re.split_go p 0 ad text = [text].
Proof.
  induction text as [|c text IH]; intros H ad; [reflexivity|].
  cbn [has_dollar] in H. apply orb_false_iff in H as [Hc Ht].
  cbn [Re.split_go]. rewrite (match_here_no_dollar p ad c text Hc).
  rewrite (IH Ht). reflexivity.
Qed.

Lemma unescape_no_dollar text : has_dollar text = false -> Re.unescape text = text.
Proof.
  induction text as [|c text IH]; intros H; [reflexivity|].
  cbn [has_dollar] in H. apply orb_false_iff in H as [Hc Ht].
  destruct text as [|d text]; [reflexivity|].
  change (Re.unescape (String c (String d text)))
    with (if Ascii.eqb c "$" && Ascii.eqb d "$" then String "$" (Re.unescape text)
          else String c (Re.unescape (String d text))).
  rewrite Hc. cbn [andb]. rewrite (IH Ht). reflexivity.
Qed.

(** X10: text without a dollar sign is not touched: it comes back as one TEXT
    fragment with the same text, and as no fragment at all when it is
    empty. *)
Theorem interpolate_text_without_dollar (text : string) (p : pos) :
  has_dollar text = false ->
  _interpolate text p = Ok (if nonempty text then [FText text p] else []).
Proof.
  intros H. unfold _interpolate. cbn [_interpolate_inner]. unfold Re.split.
  rewrite (split_go_no_dollar Re.FULL_EXPR_RE text H false).
  cbn [interpolate_groups Nat.odd].
  destruct (nonempty text) eqn:Hn; [|reflexivity].
  cbn [_interpolate_inner]. unfold Re.split.
  rewrite (split_go_no_dollar Re.SHORT_EXPR_RE text H false).
  cbn [interpolate_groups Nat.odd]. rewrite Hn. cbn.
  rewrite (unescape_no_dollar text H). reflexivity.
Qed.

(** X10 on an example. *)
Lemma interpolate_text_without_dollar_witness :
  _interpolate "Hello, world!" (3, 7)%Z = Ok [FText "Hello, world!" (3, 7)%Z].
Proof.
  apply (interpolate_text_without_dollar "Hello, world!" (3, 7)%Z). reflexivity.
Defined.

Lemma append_cons c a b : String.append (String c a) b = String c (String.append a b).
Proof. reflexivity. Qed.

Lemma append_nil b : String.append EmptyString b = b.
Proof. reflexivity. Qed.

Lemma append_length a b : String.length (String.append a b) = String.length a + String.length b.
Proof.
  induction a as [|c a IH]; [reflexivity|].
  rewrite append_cons. cbn [String.length]. rewrite IH. reflexivity.
Qed.

Lemma string_drop_append a b : string_drop (String.length a) (String.append a b) = b.
Proof.
  induction a as [|c a IH]; [destruct b; reflexivity|].
  rewrite append_cons. cbn [String.length string_drop]. exact IH.
Qed.

Lemma string_drop_S n c s : string_drop (S n) (String c s) = string_drop n s.
Proof. reflexivity. Qed.

Lemma string_drop_append_cons a c b :
  string_drop (S (String.length a)) (String.append a (String c b)) = b.
Proof.
  induction a as [|d a IH]; [destruct b; reflexivity|].
  rewrite append_cons. cbn [String.length]. rewrite string_drop_S. exact IH.
Qed.

Lemma full_close_sound s g after :
  Re.full_close s = Some (g, after) -> s = String.append g (String "}" after).
Proof.
  revert g after. induction s as [|c s IH]; intros g after H; cbn in H; [discriminate|].
  destruct (Ascii.eqb c "}") eqn:Hc.
  - inversion H; subst. apply Ascii.eqb_eq in Hc. subst c. reflexivity.
  - destruct (Ascii.eqb c Re.newline); [discriminate|].
    destruct (Re.full_close s) as [[g' after']|]; [|discriminate].
    inversion H; subst. rewrite append_cons, (IH g' after eq_refl). reflexivity.
Qed.

Lemma span_word_prefix s :
  s = String.append (Re.span_word s) (string_drop (String.length (Re.span_word s)) s).
Proof.
  induction s as [|c s IH]; [reflexivity|]. cbn [Re.span_word].
  destruct (Re.is_word c); [|reflexivity].
  cbn [String.length string_drop]. rewrite append_cons, <- IH. reflexivity.
Qed.

(** A match is the opening of the pattern, the group and the closing, at the
    start of the text, and its length is theirs. *)
Lemma match_here_sound p ad s g n :
  Re.match_here p ad s = Some (g, n) ->
  s = String.append (opening p) (String.append g (String.append (closing p) (string_drop n s)))
  /\ 1 <= n <= String.length s.
Proof.
  unfold Re.match_here. destruct ad; [discriminate|].
  destruct p.
  - destruct s as [|d [|b [|c rest]]]; try discriminate.
    destruct (Ascii.eqb d "$") eqn:Hd; [|discriminate].
    destruct (Ascii.eqb b "{") eqn:Hb; [|discriminate].
    destruct (negb (Ascii.eqb c Re.newline)); [|discriminate]. cbn [andb].
    destruct (Re.full_close rest) as [[g' after]|] eqn:Hf; [|discriminate].
    intros H. inversion H; subst. clear H.
    apply Ascii.eqb_eq in Hd, Hb. subst d b.
    apply full_close_sound in Hf. subst rest.
    cbn [opening closing String.length Nat.add].
    rewrite !append_cons, !append_nil, !string_drop_S, string_drop_append_cons.
    split; [reflexivity|].
    rewrite append_length. cbn [String.length]. lia.
  - destruct s as [|d [|c rest]]; try discriminate.
    destruct (Ascii.eqb d "$") eqn:Hd; [|discriminate].
    destruct (Re.is_alpha c); [|discriminate]. cbn [andb].
    intros H. inversion H; subst. clear H.
    apply Ascii.eqb_eq in Hd. subst d.
    cbn [opening closing String.length Nat.add].
    rewrite !append_cons, !append_nil, !string_drop_S.
    split; [rewrite <- span_word_prefix; reflexivity|].
    pose proof (f_equal String.length (span_word_prefix rest)) as Hl.
    rewrite append_length in Hl. lia.
Qed.

Lemma rejoin_cons_head p c pieces :
  pieces <> [] -> rejoin p (Re.cons_head c pieces) = String c (rejoin p pieces).
Proof. destruct pieces as [|piece [|group rest]]; [congruence | reflexivity | reflexivity]. Qed.

Lemma split_go_nonempty p s : forall skip ad, Re.split_go p skip ad s <> [].
Proof.
  induction s as [|c s IH]; intros skip ad; cbn; [congruence|].
  destruct skip; [|apply IH].
  destruct (Re.match_here p ad (String c s)) as [[g n]|]; [congruence|].
  destruct (Re.split_go p 0 _ s) eqn:E; [apply IH in E; contradiction | cbn; congruence].
Qed.

Lemma split_go_rejoin p s :
  forall skip ad, skip <= String.length s ->
    rejoin p (Re.split_go p skip ad s) = string_drop skip s.
Proof.
  induction s as [|c s IH]; intros skip ad Hskip.
  - cbn in Hskip. destruct skip; [reflexivity|lia].
  - cbn [Re.split_go]. destruct skip as [|k].
    + destruct (Re.match_here p ad (String c s)) as [[g n]|] eqn:Hm.
      * apply match_here_sound in Hm as [Hs Hn]. cbn in Hn.
        cbn [rejoin]. rewrite IH by lia.
        destruct n as [|n]; [lia|]. cbn [Nat.sub]. rewrite Nat.sub_0_r.
        cbn [string_drop] in Hs. cbn. symmetry. exact Hs.
      * rewrite rejoin_cons_head by apply split_go_nonempty.
        rewrite IH by lia. reflexivity.
    + cbn in Hskip. rewrite IH by lia. reflexivity.
Qed.

Lemma split_go_odd p s :
  forall skip ad, Nat.odd (length (Re.split_go p skip ad s)) = true.
Proof.
  induction s as [|c s IH]; intros skip ad; [reflexivity|].
  cbn [Re.split_go]. destruct skip as [|k]; [|apply IH].
  destruct (Re.match_here p ad (String c s)) as [[g n]|].
  - cbn [length]. rewrite Nat.odd_succ, Nat.even_succ. apply IH.
  - specialize (IH 0 (Ascii.eqb c "$")).
    destruct (Re.split_go p 0 _ s); [discriminate IH | exact IH].
Qed.

(** X13: splitting on either pattern loses nothing of the text: the pieces
    alternate between literal text and groups, beginning and ending with
    literal text, and put together again, each group between the dollar sign
    (and braces) of its pattern, they are the text. *)
Theorem split_loses_nothing (p : Re.regex) (text : string) :
  rejoin p (Re.split p text) = text
  /\ Nat.odd (length (Re.split p text)) = true.
Proof.
  unfold Re.split. split; [|apply split_go_odd].
  rewrite split_go_rejoin by lia. reflexivity.
Qed.

Lemma split_go_prefix p pre s :
  has_dollar pre = false ->
  forall ad,
    Re.split_go p 0 ad (String.append pre s)
    = prepend pre (Re.split_go p 0 (if nonempty pre then false else ad) s).
Proof.
  induction pre as [|c pre IH]; intros H ad.
  - cbn [nonempty]. rewrite append_nil.
    destruct (Re.split_go p 0 ad s) eqn:E; [|reflexivity].
    exfalso. exact (split_go_nonempty p s 0 ad E).
  - cbn [has_dollar] in H. apply orb_false_iff in H as [Hc Hp].
    rewrite append_cons. cbn [Re.split_go nonempty].
    rewrite (match_here_no_dollar p ad c _ Hc), Hc, (IH Hp false).
    assert (Hb : (if nonempty pre then false else false) = false) by (destruct (nonempty pre); reflexivity).
    rewrite Hb.
    destruct (Re.split_go p 0 false s) eqn:E; [exfalso; exact (split_go_nonempty p s 0 false E)|].
    reflexivity.
Qed.

Lemma split_go_skip p (a s : string) :
  forall ad, a <> EmptyString ->
    Re.split_go p (String.length a) ad (String.append a s) = Re.split_go p 0 false s.
Proof.
  induction a as [|c a IH]; intros ad Hne; [congruence|].
  rewrite append_cons. cbn [String.length Re.split_go].
  destruct a as [|d a].
  - rewrite append_nil. destruct s; reflexivity.
  - apply IH. congruence.
Qed.

Lemma full_close_brace_free body post :
  brace_free body = true ->
  Re.full_close (String.append body (String "}" post)) = Some (body, post).
Proof.
  induction body as [|c body IH]; intros H.
  - reflexivity.
  - cbn [brace_free] in H. apply andb_true_iff in H as [H Hb].
    apply andb_true_iff in H as [Hc Hn].
    apply negb_true_iff in Hc, Hn.
    rewrite append_cons. cbn [Re.full_close]. rewrite Hc, Hn, (IH Hb). reflexivity.
Qed.

Lemma span_word_all w post :
  all_word w = true -> ends_name post = true ->
  Re.span_word (String.append w post) = w.
Proof.
  induction w as [|c w IH]; intros Hw Hp.
  - rewrite append_nil. destruct post as [|d post]; [reflexivity|].
    cbn in Hp. apply negb_true_iff in Hp. cbn. rewrite Hp. reflexivity.
  - cbn [all_word] in Hw. apply andb_true_iff in Hw as [Hc Hw].
    rewrite append_cons. cbn [Re.span_word]. rewrite Hc, (IH Hw Hp). reflexivity.
Qed.

Lemma is_word_not_dollar c : Re.is_word c = true -> Ascii.eqb c "$" = false.
Proof.
  intros H. destruct (Ascii.eqb_spec c "$") as [->|]; [|reflexivity].
  vm_compute in H. discriminate.
Qed.

Lemma is_alpha_is_word c : Re.is_alpha c = true -> Re.is_word c = true.
Proof. intros H. unfold Re.is_word. rewrite H. reflexivity. Qed.

Lemma is_alpha_not_brace c : Re.is_alpha c = true -> Ascii.eqb c "{" = false.
Proof.
  intros H. destruct (Ascii.eqb_spec c "{") as [->|]; [|reflexivity].
  vm_compute in H. discriminate.
Qed.

Lemma all_word_no_dollar w : all_word w = true -> has_dollar w = false.
Proof.
  induction w as [|c w IH]; intros H; [reflexivity|].
  cbn [all_word] in H. apply andb_true_iff in H as [Hc Hw].
  cbn [has_dollar]. rewrite (is_word_not_dollar c Hc), (IH Hw). reflexivity.
Qed.

Lemma has_dollar_append a b :
  has_dollar (String.append a b) = has_dollar a || has_dollar b.
Proof.
  induction a as [|c a IH]; [reflexivity|].
  rewrite append_cons. cbn [has_dollar]. rewrite IH, orb_assoc. reflexivity.
Qed.

Lemma append_length_cons a c b :
  String.length (String.append a (String c b)) = S (String.length (String.append a b)).
Proof. rewrite !append_length. cbn. lia. Qed.

Lemma append_snoc a c b :
  String.append a (String c b) = String.append (String.append a (String c EmptyString)) b.
Proof. induction a as [|x a IH]; [reflexivity|]. rewrite !append_cons, IH. reflexivity. Qed.

Lemma append_empty a : String.append a EmptyString = a.
Proof. induction a as [|x a IH]; [reflexivity|]. rewrite append_cons, IH. reflexivity. Qed.

Lemma if_false_false (b : bool) : (if b then false else false) = false.
Proof. destruct b; reflexivity. Qed.

Lemma split_go_match p ad c rest g n :
  Re.match_here p ad (String c rest) = Some (g, n) ->
  Re.split_go p 0 ad (String c rest) = EmptyString :: g :: Re.split_go p (n - 1) false rest.
Proof. intros H. cbn [Re.split_go]. rewrite H. reflexivity. Qed.

Lemma split_go_no_match p ad c rest :
  Re.match_here p ad (String c rest) = None ->
  Re.split_go p 0 ad (String c rest)
  = Re.cons_head c (Re.split_go p 0 (Ascii.eqb c "$") rest).
Proof. intros H. cbn [Re.split_go]. rewrite H. reflexivity. Qed.

Lemma split_full_braced pre c body post :
  has_dollar pre = false -> has_dollar post = false ->
  brace_free (String c body) = true ->
  Re.split Re.FULL_EXPR_RE
    (String.append pre (String "$" (String "{" (String.append (String c body) (String "}" post)))))
  = [pre; String c body; post].
Proof.
  intros Hpre Hpost Hb. unfold Re.split.
  rewrite (split_go_prefix _ pre _ Hpre false), if_false_false.
  cbn [brace_free] in Hb. apply andb_true_iff in Hb as [Hc Hb].
  apply andb_true_iff in Hc as [_ Hn].
  rewrite append_cons.
  assert (Hm : Re.match_here Re.FULL_EXPR_RE false
                 (String "$" (String "{" (String c (String.append body (String "}" post)))))
               = Some (String c body, 3 + String.length (String c body))).
  { unfold Re.match_here. rewrite Hn, (full_close_brace_free body post Hb). reflexivity. }
  rewrite (split_go_match _ _ _ _ _ _ Hm).
  rewrite (append_snoc body "}" post).
  change (String "{" (String c (String.append (String.append body "}") post)))
    with (String.append (String "{" (String c (String.append body "}"))) post).
  replace (3 + String.length (String c body) - 1)
    with (String.length (String "{" (String c (String.append body "}"))))
    by (cbn [String.length]; rewrite append_length; cbn [String.length]; lia).
  rewrite split_go_skip by congruence.
  rewrite (split_go_no_dollar _ post Hpost). cbn [prepend].
  rewrite append_empty. reflexivity.
Qed.

Lemma split_full_short pre c w post :
  has_dollar pre = false -> has_dollar post = false ->
  Re.is_alpha c = true -> all_word w = true ->
  Re.split Re.FULL_EXPR_RE (String.append pre (String "$" (String c (String.append w post))))
  = [String.append pre (String "$" (String c (String.append w post)))].
Proof.
  intros Hpre Hpost Hc Hw. unfold Re.split.
  rewrite (split_go_prefix _ pre _ Hpre false), if_false_false.
  assert (Hm : Re.match_here Re.FULL_EXPR_RE false
                 (String "$" (String c (String.append w post))) = None).
  { unfold Re.match_here. destruct (String.append w post); [reflexivity|].
    rewrite (is_alpha_not_brace c Hc). reflexivity. }
  rewrite (split_go_no_match _ _ _ _ Hm).
  rewrite split_go_no_dollar; [reflexivity|].
  cbn [has_dollar]. rewrite (is_word_not_dollar c (is_alpha_is_word c Hc)).
  rewrite has_dollar_append, (all_word_no_dollar w Hw), Hpost. reflexivity.
Qed.

Lemma split_short_name pre c w post :
  has_dollar pre = false -> has_dollar post = false ->
  Re.is_alpha c = true -> all_word w = true -> ends_name post = true ->
  Re.split Re.SHORT_EXPR_RE (String.append pre (String "$" (String c (String.append w post))))
  = [pre; String c w; post].
Proof.
  intros Hpre Hpost Hc Hw Hend. unfold Re.split.
  rewrite (split_go_prefix _ pre _ Hpre false), if_false_false.
  assert (Hm : Re.match_here Re.SHORT_EXPR_RE false
                 (String "$" (String c (String.append w post)))
               = Some (String c w, 1 + String.length (String c w))).
  { unfold Re.match_here. rewrite Hc, (span_word_all w post Hw Hend). reflexivity. }
  rewrite (split_go_match _ _ _ _ _ _ Hm).
  change (String c (String.append w post)) with (String.append (String c w) post).
  replace (1 + String.length (String c w) - 1) with (String.length (String c w)) by lia.
  rewrite split_go_skip by congruence.
  rewrite (split_go_no_dollar _ post Hpost). cbn [prepend].
  rewrite append_empty. reflexivity.
Qed.

(** X11: what [_interpolate] makes of a text with one expression in it, the
    rest of the text being free of dollar signs. A braced expression (not
    empty, without a closing brace or a newline inside) becomes an
    expression fragment between the text before it and the text after it;
    so does a name written after a dollar sign, a letter followed by
    letters, digits, underscores and dots, which ends where the text goes on
    with another character. An empty text before or after gives no
    fragment. *)
Theorem interpolate_extracts_the_expression
    (pre post body w : string) (c : ascii) (p : pos) :
  has_dollar pre = false -> has_dollar post = false ->
  (brace_free (String c body) = true ->
   _interpolate
     (String.append pre (String "$" (String "{"
        (String.append (String c body) (String "}" post))))) p
   = Ok (literal pre p ++ FExpr {| source := String c body |} p :: literal post p))
  /\ (Re.is_alpha c = true -> all_word w = true -> ends_name post = true ->
      _interpolate (String.append pre (String "$" (String c (String.append w post)))) p
      = Ok (literal pre p ++ FExpr {| source := String c w |} p :: literal post p)).
Proof.
  intros Hpre Hpost. split.
  - intros Hb. unfold _interpolate.
    change (_interpolate_inner 2 p [Re.FULL_EXPR_RE; Re.SHORT_EXPR_RE] ?t)
      with (interpolate_groups (_interpolate_inner 1 p) p 0 (Re.split Re.FULL_EXPR_RE t)
              [Re.SHORT_EXPR_RE]).
    rewrite (split_full_braced pre c body post Hpre Hpost Hb).
    cbn [interpolate_groups Nat.odd Nat.even]. unfold literal.
    destruct (nonempty pre) eqn:Hp.
    + cbn [_interpolate_inner]. unfold Re.split.
      rewrite (split_go_no_dollar _ pre Hpre). cbn [interpolate_groups Nat.odd]. rewrite Hp.
      rewrite (unescape_no_dollar pre Hpre).
      destruct (nonempty post) eqn:Hq; cbn; [rewrite (unescape_no_dollar post Hpost)|];
        reflexivity.
    + destruct (nonempty post) eqn:Hq; [|reflexivity].
      cbn [_interpolate_inner]. unfold Re.split.
      rewrite (split_go_no_dollar _ post Hpost). cbn [interpolate_groups Nat.odd]. rewrite Hq.
      cbn. rewrite (unescape_no_dollar post Hpost). reflexivity.
  - intros Hc Hw Hend. unfold _interpolate.
    change (_interpolate_inner 2 p [Re.FULL_EXPR_RE; Re.SHORT_EXPR_RE] ?t)
      with (interpolate_groups (_interpolate_inner 1 p) p 0 (Re.split Re.FULL_EXPR_RE t)
              [Re.SHORT_EXPR_RE]).
    rewrite (split_full_short pre c w post Hpre Hpost Hc Hw).
    cbn [interpolate_groups Nat.odd Nat.even].
    assert (Hne : nonempty (String.append pre (String "$" (String c (String.append w post))))
                  = true) by (destruct pre; reflexivity).
    rewrite Hne. cbn [_interpolate_inner].
    rewrite (split_short_name pre c w post Hpre Hpost Hc Hw Hend).
    cbn [interpolate_groups Nat.odd Nat.even]. unfold literal.
    destruct (nonempty pre) eqn:Hp; destruct (nonempty post) eqn:Hq; cbn;
      rewrite ?(unescape_no_dollar pre Hpre), ?(unescape_no_dollar post Hpost); reflexivity.
Qed.

(** X11 on an example. *)
Lemma interpolate_extracts_the_expression_witness :
  _interpolate "Hello, ${user.name}!" (1, 4)%Z
  = Ok [FText "Hello, " (1, 4)%Z; FExpr {| source := "user.name" |} (1, 4)%Z;
        FText "!" (1, 4)%Z].
Proof.
  refine (proj1 (interpolate_extracts_the_expression "Hello, " "!" "ser.name" EmptyString
                   "u" (1, 4)%Z _ _) _); reflexivity.
Defined.

Lemma unescape_prefix pre s :
  has_dollar pre = false ->
  Re.unescape (String.append pre s) = String.append pre (Re.unescape s).
Proof.
  induction pre as [|c pre IH]; intros H; [reflexivity|].
  cbn [has_dollar] in H. apply orb_false_iff in H as [Hc Hp].
  rewrite !append_cons.
  destruct (String.append pre s) as [|d t] eqn:E.
  - destruct pre; [|discriminate]. rewrite append_nil in E. subst s. reflexivity.
  - change (Re.unescape (String c (String d t)))
      with (if Ascii.eqb c "$" && Ascii.eqb d "$" then String "$" (Re.unescape t)
            else String c (Re.unescape (String d t))).
    rewrite Hc. cbn [andb]. rewrite (IH Hp). reflexivity.
Qed.

Lemma split_doubled_dollar p pre post :
  has_dollar pre = false -> has_dollar post = false ->
  Re.split p (String.append pre (String "$" (String "$" post)))
  = [String.append pre (String "$" (String "$" post))].
Proof.
  intros Hpre Hpost. unfold Re.split.
  rewrite (split_go_prefix _ pre _ Hpre false), if_false_false.
  assert (Hm : Re.match_here p false (String "$" (String "$" post)) = None).
  { unfold Re.match_here. destruct p; destruct post; reflexivity. }
  rewrite (split_go_no_match _ _ _ _ Hm).
  change (Ascii.eqb "$" "$") with true.
  rewrite (split_go_no_match p true "$" post eq_refl).
  rewrite (split_go_no_dollar _ post Hpost). reflexivity.
Qed.

(** X12: a doubled dollar sign is an escape: it starts no expression, even when
    a name or a brace follows it, and comes out as a single dollar sign in
    the text. *)
Theorem interpolate_doubled_dollar_is_an_escape (pre post : string) (p : pos) :
  has_dollar pre = false -> has_dollar post = false ->
  _interpolate (String.append pre (String "$" (String "$" post))) p
  = Ok [FText (String.append pre (String "$" post)) p].
Proof.
  intros Hpre Hpost. unfold _interpolate.
  change (_interpolate_inner 2 p [Re.FULL_EXPR_RE; Re.SHORT_EXPR_RE] ?t)
    with (interpolate_groups (_interpolate_inner 1 p) p 0 (Re.split Re.FULL_EXPR_RE t)
            [Re.SHORT_EXPR_RE]).
  rewrite (split_doubled_dollar _ pre post Hpre Hpost).
  cbn [interpolate_groups Nat.odd Nat.even].
  assert (Hne : nonempty (String.append pre (String "$" (String "$" post))) = true)
    by (destruct pre; reflexivity).
  rewrite Hne. cbn [_interpolate_inner].
  rewrite (split_doubled_dollar _ pre post Hpre Hpost).
  cbn [interpolate_groups Nat.odd Nat.even]. rewrite Hne. cbn [obind fst].
  rewrite (unescape_prefix pre _ Hpre).
  assert (Hu : Re.unescape (String "$" (String "$" post)) = String "$" post).
  { change (Re.unescape (String "$" (String "$" post))) with (String "$" (Re.unescape post)).
    rewrite (unescape_no_dollar post Hpost). reflexivity. }
  rewrite Hu. reflexivity.
Qed.

(** X12 on an example. *)
Lemma interpolate_doubled_dollar_witness :
  _interpolate "costs $$amount" (2, 0)%Z = Ok [FText "costs $amount" (2, 0)%Z].
Proof.
  refine (interpolate_doubled_dollar_is_an_escape "costs " "amount" (2, 0)%Z _ _);
    reflexivity.
Defined.

(** ** The directives, further *)

Section MoreDirectiveProofs.

Variable evaluate : Expression -> Context -> value -> outcome value.

Lemma last_nonempty {A} (l : list A) :
  forall a d d', List.last (a :: l) d = List.last (a :: l) d'.
Proof.
  induction l as [|b l IH]; intros a d d'; [reflexivity|].
  change (List.last (b :: l) d = List.last (b :: l) d'). apply IH.
Qed.

Lemma drain_last_of (l : list event) :
  forall previous s,
    drain (last_of previous (iter l)) s = ([List.last l previous], Finished, s).
Proof.
  induction l as [|e l IH]; intros previous s.
  - reflexivity.
  - cbn [iter yield_then last_of drain resume]. fold (iter l).
    rewrite <- drain_resume, IH. destruct l as [|e' l]; [reflexivity|].
    rewrite (last_nonempty l e' e previous). reflexivity.
Qed.

Lemma Content_on_element (expr : option Expression) tag attrib p
    (body : list event) (last : event) (s : state) :
  drain (ContentDirective_call expr (iter (EStart tag attrib p :: body ++ [last]))) s
  = ([EStart tag attrib p; EExpr expr p; last], Finished, s).
Proof.
  unfold ContentDirective_call, pull.
  cbn [drain iter yield_then resume is_START event_pos].
  destruct body as [|e body]; cbn [app yield_then resume]; [reflexivity|].
  fold (iter (body ++ [last])).
  rewrite <- drain_resume, drain_last_of, List.last_last. reflexivity.
Qed.

Lemma drain_lag_gen (g : gen) :
  forall previous s,
    drain (lag previous g) s
    = let '(es, r, s') := drain g s in (removelast (previous :: es), r, s').
Proof.
  induction g as [next IH] using gen_ind'. intros previous s.
  cbn [lag drain resume]. specialize (IH s).
  destruct (next s) as [s1|e s1 k|x s1]; [reflexivity| |].
  - rewrite IH. destruct (drain k s1) as [[es r] s2]. reflexivity.
  - unfold throw. destruct (is_StopIteration x) eqn:E; rewrite ?E; reflexivity.
Qed.

Lemma drain_Strip_unconditional (g : gen) (s : state) :
  drain (StripDirective_call evaluate None g) s
  = let '(es, r, s') := drain g s in (removelast (tail es), r, s').
Proof.
  unfold StripDirective_call, pull. cbn [drain truthy].
  rewrite (drain_resume g s).
  destruct (resume g s) as [s1|e s1 k|x s1]; [reflexivity| |].
  - rewrite (drain_resume k s1).
    destruct (resume k s1) as [s2|e2 s2 k2|x2 s2]; [reflexivity| |].
    + rewrite <- drain_resume, drain_lag_gen.
      destruct (drain k2 s2) as [[es r] s3]. reflexivity.
    + unfold throw. destruct (is_StopIteration x2) eqn:E; rewrite ?E; reflexivity.
  - unfold throw. destruct (is_StopIteration x) eqn:E; rewrite ?E; reflexivity.
Qed.

(** X6: the content directive keeps the start tag of its element, puts the
    expression in the place of everything inside, and keeps the last event,
    the end tag; the replace directive hands out the expression alone; and,
    as the source says of it, replacing is the content directive followed by
    the strip directive without a condition. None of them touches the
    state. *)
Theorem Replace_is_Content_then_Strip (expr : option Expression) (tag : QName)
    (attrib : Attributes) (p : pos) (body : list event) (last : event) (s : state) :
  let element := EStart tag attrib p :: body ++ [last] in
  drain (ContentDirective_call expr (iter element)) s
    = ([EStart tag attrib p; EExpr expr p; last], Finished, s)
  /\ drain (ReplaceDirective_call expr (iter element)) s = ([EExpr expr p], Finished, s)
  /\ drain (StripDirective_call evaluate None (ContentDirective_call expr (iter element))) s
     = drain (ReplaceDirective_call expr (iter element)) s.
Proof.
  intros element. split; [apply Content_on_element|]. split; [reflexivity|].
  rewrite drain_Strip_unconditional. subst element.
  rewrite Content_on_element. reflexivity.
Qed.

End MoreDirectiveProofs.

Lemma exec_scope_spec (defaults : gmap string value) (formals : list string) :
  NoDup formals ->
  forall (args : list value) (kwargs scope : gmap string value),
    (forall i name, formals !! i = Some name ->
       exec_scope formals args kwargs defaults scope !! name
       = Some (match args !! i with
               | Some a => a
               | None => default (default VNone (defaults !! name)) (kwargs !! name)
               end))
    /\ (forall name, name ∉ formals ->
          exec_scope formals args kwargs defaults scope !! name = scope !! name).
Proof.
  induction 1 as [|n formals Hn Hnd IH]; intros args kwargs scope.
  - split; [intros i name H; discriminate | reflexivity].
  - cbn [exec_scope]. destruct args as [|a args].
    + destruct (IH [] (delete n kwargs)
                  (<[n := default (default VNone (defaults !! n)) (kwargs !! n)]> scope))
        as [IH1 IH2].
      split.
      * intros [|i] name Hi; cbn in Hi.
        -- inversion Hi; subst name. rewrite IH2 by exact Hn.
           rewrite lookup_insert_eq. reflexivity.
        -- rewrite (IH1 i name Hi), !lookup_nil.
           assert (Hne : n <> name).
           { intros ->. apply Hn. eapply list_elem_of_lookup_2. exact Hi. }
           rewrite lookup_delete_ne by exact Hne. reflexivity.
      * intros name Hnot. rewrite IH2 by (intros H; apply Hnot; right; exact H).
        apply lookup_insert_ne. intros ->. apply Hnot. left.
    + destruct (IH args kwargs (<[n := a]> scope)) as [IH1 IH2].
      split.
      * intros [|i] name Hi; cbn in Hi.
        -- inversion Hi; subst name. rewrite IH2 by exact Hn.
           rewrite lookup_insert_eq. reflexivity.
        -- exact (IH1 i name Hi).
      * intros name Hnot. rewrite IH2 by (intros H; apply Hnot; right; exact H).
        apply lookup_insert_ne. intros ->. apply Hnot. left.
Qed.

Lemma exec_scope_bound (formals : list string) :
  forall (args : list value) (kwargs defaults scope : gmap string value) (name : string),
    name ∈ formals \/ is_Some (scope !! name) ->
    is_Some (exec_scope formals args kwargs defaults scope !! name).
Proof.
  induction formals as [|n formals IH]; intros args kwargs defaults scope name H.
  - destruct H as [H|H]; [|exact H]. apply elem_of_nil in H. destruct H.
  - assert (Hnext : forall v,
               name ∈ formals \/ is_Some (<[n := v]> scope !! name)).
    { intros v. destruct (decide (n = name)) as [->|Hne].
      - right. rewrite lookup_insert_eq. eexists. reflexivity.
      - destruct H as [H|H].
        + apply elem_of_cons in H as [H|H]; [congruence | left; exact H].
        + right. rewrite lookup_insert_ne by exact Hne. exact H. }
    cbn [exec_scope]. destruct args as [|a args]; apply IH, Hnext.
Qed.

Lemma drain_with_scoped_replay consume (did : nat) (scope : gmap string value) (s : state) :
  keeps_stack consume ->
  scope !! "self" = None ->
  let run := drain_with consume (scoped_replay did scope) s in
  run.1 = (get_captured did s, Finished) /\ stack (ctxt run.2) = stack (ctxt s).
Proof.
  intros Hk Hfree run. subst run.
  rewrite drain_with_resume, (scoped_replay_resume did scope s Hfree), <- drain_with_resume.
  rewrite drain_with_yield_then.
  set (s1 := set_ctxt {| stack := scope :: stack (ctxt s) |} s).
  destruct (keeps_stack_fold consume (get_captured did s) Hk s1) as [Hlen Htl].
  set (s2 := fold_left _ (get_captured did s) s1) in *.
  destruct (stack (ctxt s2)) as [|f rest] eqn:Hs2; [cbn in Hlen; discriminate|].
  cbn in Htl. cbn [pop_and_stop drain_with]. unfold Ctx.pop. rewrite Hs2.
  cbn. rewrite app_nil_r. split; [reflexivity | exact Htl].
Qed.

Lemma drain_with_scoped_replay_self consume (did : nat) (scope : gmap string value)
    (s : state) :
  is_Some (scope !! "self") ->
  drain_with consume (scoped_replay did scope) s = ([], Raised (PyError "TypeError"), s).
Proof.
  intros H. rewrite drain_with_resume, (scoped_replay_self did scope s H). reflexivity.
Qed.

Lemma drain_scoped_replay_self (did : nat) (scope : gmap string value) (s : state) :
  is_Some (scope !! "self") ->
  drain (scoped_replay did scope) s = ([], Raised (PyError "TypeError"), s).
Proof.
  intros H. rewrite drain_resume, (scoped_replay_self did scope s H). reflexivity.
Qed.

(** X5: a call of a template function whose formal parameters are pairwise
    distinct. A call with a keyword argument named [self] or [ctxt] raises
    [TypeError] and makes no generator. Any other call returns the generator
    of [_exec], which makes up a frame where the formal at index [i] is
    bound to the positional argument at [i] when there is one, else to the
    keyword argument of its name, else to its declared default, else to
    [None], and where no other name is bound: surplus positional arguments
    and the other surplus keyword arguments are dropped. When no formal is
    named [self] the generator pushes that frame, hands out the stored
    events under it and ends with the context as it was; when a formal is
    named [self] the frame cannot be pushed and the generator raises
    [TypeError] without handing out anything. *)
Theorem Def_exec_binds_every_formal
    (did : nat) (formals : list string) (args : list value)
    (kwargs defaults : gmap string value) :
  NoDup formals ->
  match kwargs !! "self", kwargs !! "ctxt" with
  | None, None =>
      exists scope,
        DefDirective_callable did formals defaults args kwargs = Ok (scoped_replay did scope)
        /\ (forall i name, formals !! i = Some name ->
              scope !! name
              = Some (match args !! i with
                      | Some a => a
                      | None => default (default VNone (defaults !! name)) (kwargs !! name)
                      end))
        /\ (forall name, name ∉ formals -> scope !! name = None)
        /\ ("self" ∉ formals ->
            forall s,
              drain (scoped_replay did scope) s = (get_captured did s, Finished, s)
              /\ yield_states (scoped_replay did scope) s
                 = repeat (set_ctxt {| stack := scope :: stack (ctxt s) |} s)
                     (length (get_captured did s)))
        /\ ("self" ∈ formals ->
            forall s,
              drain (scoped_replay did scope) s = ([], Raised (PyError "TypeError"), s))
  | _, _ => DefDirective_callable did formals defaults args kwargs = Err (PyError "TypeError")
  end.
Proof.
  intros Hnd. unfold DefDirective_callable.
  destruct (kwargs !! "self"); [reflexivity|].
  destruct (kwargs !! "ctxt"); [reflexivity|].
  destruct (exec_scope_spec defaults formals Hnd args kwargs ∅) as [H1 H2].
  exists (exec_scope formals args kwargs defaults ∅).
  split; [reflexivity|]. split; [exact H1|].
  split; [intros name Hnot; rewrite (H2 name Hnot); apply lookup_empty|].
  split.
  - intros Hself s.
    assert (Hfree : exec_scope formals args kwargs defaults ∅ !! "self" = None)
      by (rewrite (H2 _ Hself); apply lookup_empty).
    split; [apply drain_scoped_replay | apply yield_states_scoped_replay]; exact Hfree.
  - intros Hself s. apply drain_scoped_replay_self, exec_scope_bound. left. exact Hself.
Qed.

(** X5 on [echo(greeting, name='world')] called as [echo('hi', 'you', 'more',
    name='them', other=1)]: the second positional argument wins over the
    keyword, the third is dropped, and so is the keyword [other]. *)
Lemma Def_exec_binds_every_formal_witness :
  exists scope,
    DefDirective_callable 0 ["greeting"; "name"] {[ "name" := VStr "world" ]}
      [VStr "hi"; VStr "you"; VStr "more"] {[ "name" := VStr "them"; "other" := VInt 1 ]}
    = Ok (scoped_replay 0 scope)
    /\ scope !! "name" = Some (VStr "you") /\ scope !! "other" = None
    /\ drain (scoped_replay 0 scope) (set_captured 0 body_b (state_init (Ctx.init ∅) ∅))
       = (body_b, Finished, set_captured 0 body_b (state_init (Ctx.init ∅) ∅)).
Proof.
  assert (Hnd : NoDup ["greeting"; "name"]).
  { repeat constructor; [|apply not_elem_of_nil].
    intros H. apply list_elem_of_singleton in H. discriminate. }
  assert (Hnot : forall name, name <> "greeting" -> name <> "name" ->
                   name ∉ ["greeting"; "name"]).
  { intros name Ha Hb H. apply elem_of_cons in H as [H|H]; [congruence|].
    apply list_elem_of_singleton in H. congruence. }
  destruct (Def_exec_binds_every_formal 0 ["greeting"; "name"]
              [VStr "hi"; VStr "you"; VStr "more"]
              {[ "name" := VStr "them"; "other" := VInt 1 ]} {[ "name" := VStr "world" ]}
              Hnd) as (scope & Hc & H1 & H2 & H3 & _).
  exists scope. split; [exact Hc|].
  split; [exact (H1 1 "name" eq_refl)|].
  split; [apply H2, Hnot; discriminate|].
  apply (H3 (Hnot "self" ltac:(discriminate) ltac:(discriminate))).
Defined.

(** X14: the body of a template function and the body of a match template run
    under one frame of their own: whatever the consumer does between two
    events, as long as it leaves the height of the stack and the frames below
    the top-most one alone, the generator of a call that is accepted (no
    keyword argument named [self] or [ctxt]) of a function without a formal
    parameter named [self], and the generator of the handler of a match,
    hand out the stored events, end without an error, and leave the stack
    of the context as they found it. With a formal parameter named [self]
    the generator of the call raises [TypeError], hands out nothing, and
    leaves the stack as it found it as well. *)
Theorem Def_and_Match_bodies_balance_the_stack
    (consume : event -> state -> state) (did : nat) (formals : list string)
    (defaults kwargs : gmap string value) (args : list value) (select : value)
    (s : state) (g : gen) :
  keeps_stack consume ->
  DefDirective_callable did formals defaults args kwargs = Ok g ->
  let called := drain_with consume g s in
  let matched := drain_with consume (MatchDirective_handle_match did select) s in
  ("self" ∉ formals -> called.1 = (get_captured did s, Finished))
  /\ ("self" ∈ formals -> called.1 = ([], Raised (PyError "TypeError")))
  /\ stack (ctxt called.2) = stack (ctxt s)
  /\ matched.1 = (get_captured did s, Finished)
  /\ stack (ctxt matched.2) = stack (ctxt s).
Proof.
  intros Hk Hcall called matched. subst called matched.
  unfold DefDirective_callable in Hcall.
  destruct (kwargs !! "self"); [discriminate|].
  destruct (kwargs !! "ctxt"); [discriminate|].
  inversion Hcall; subst g. clear Hcall.
  unfold DefDirective_exec, MatchDirective_handle_match.
  set (scope := exec_scope formals args kwargs defaults ∅).
  assert (Hsel : ({[ "select" := select ]} : gmap string value) !! "self" = None)
    by (apply lookup_singleton_ne; discriminate).
  destruct (drain_with_scoped_replay consume did _ s Hk Hsel) as [H3 H4].
  assert (Hin : "self" ∈ formals ->
                drain_with consume (scoped_replay did scope) s
                = ([], Raised (PyError "TypeError"), s)).
  { intros Hself. apply drain_with_scoped_replay_self, exec_scope_bound. left. exact Hself. }
  assert (Hout : "self" ∉ formals -> scope !! "self" = None).
  { intros Hself. subst scope. rewrite exec_scope_other by exact Hself. apply lookup_empty. }
  split; [intros Hself; apply (drain_with_scoped_replay consume did scope s Hk (Hout Hself))|].
  split; [intros Hself; rewrite (Hin Hself); reflexivity|].
  split; [|split; assumption].
  destruct (decide ("self" ∈ formals)) as [Hself|Hself].
  - rewrite (Hin Hself). reflexivity.
  - apply (drain_with_scoped_replay consume did scope s Hk (Hout Hself)).
Qed.

(** X14 with a consumer that reads the context and leaves it alone. *)
Lemma Def_and_Match_bodies_balance_witness :
  let s := set_captured 0 body_b (state_init (ctxt_flag true) ∅) in
  (drain_with (fun _ st => st) (DefDirective_exec 0 ["what"] ∅ [VStr "foo"] ∅) s).1
  = (body_b, Finished).
Proof.
  refine (proj1 (Def_and_Match_bodies_balance_the_stack (fun _ st => st) 0 ["what"] ∅ ∅
                   [VStr "foo"] VNone (set_captured 0 body_b (state_init (ctxt_flag true) ∅))
                   (DefDirective_exec 0 ["what"] ∅ [VStr "foo"] ∅) _ _) _).
  - intros e st. split; reflexivity.
  - reflexivity.
  - intros H. apply list_elem_of_singleton in H. discriminate.
Defined.

(** X15: defining a template function and calling it: on a context whose stack is
    not empty the definition consumes the element, hands out nothing, stores
    the element as the body and binds the function's name to the callable in
    the top-most frame; a call made afterwards that is accepted (no keyword
    argument named [self] or [ctxt]), of a function without a formal
    parameter named [self], hands out exactly the events of the element and
    leaves the state as the definition left it. The capture of a match
    template and the replay by its handler compose in the same way. *)
Theorem Def_call_then_exec_replays_the_body
    (did : nat) (name : string) (formals : list string) (defaults kwargs : gmap string value)
    (args : list value) (select : value) (body : list event) (s : state) :
  stack (ctxt s) <> [] ->
  "self" ∉ formals -> kwargs !! "self" = None -> kwargs !! "ctxt" = None ->
  (exists s' g,
      DefDirective_call did name (iter body) s = (Ok (iter []), s')
      /\ Ctx.get name (ctxt s') = VCallable did
      /\ (forall other, other <> name -> Ctx.get other (ctxt s') = Ctx.get other (ctxt s))
      /\ DefDirective_callable did formals defaults args kwargs = Ok g
      /\ drain g s' = (body, Finished, s'))
  /\ (exists s',
        MatchDirective_call did (iter body) s = (Ok (iter []), s')
        /\ ctxt s' = ctxt s
        /\ drain (MatchDirective_handle_match did select) s' = (body, Finished, s')).
Proof.
  intros Hne Hself Hks Hkc. destruct s as [[frames] dl cap]. cbn in Hne.
  destruct frames as [|frame rest]; [congruence|].
  assert (Hfree : exec_scope formals args kwargs defaults ∅ !! "self" = None)
    by (rewrite exec_scope_other by exact Hself; apply lookup_empty).
  assert (Hsel : ({[ "select" := select ]} : gmap string value) !! "self" = None)
    by (apply lookup_singleton_ne; discriminate).
  split.
  - unfold DefDirective_call. rewrite drain_iter. cbn [Ctx.setitem set_captured ctxt stack].
    eexists. exists (DefDirective_exec did formals defaults args kwargs).
    split; [reflexivity|].
    split; [unfold Ctx.get; cbn; rewrite lookup_insert_eq; reflexivity|].
    split.
    + intros other Ho. unfold Ctx.get. cbn. rewrite lookup_insert_ne by congruence. reflexivity.
    + split; [unfold DefDirective_callable; rewrite Hks, Hkc; reflexivity|].
      unfold DefDirective_exec. rewrite (drain_scoped_replay did _ _ Hfree).
      unfold get_captured. cbn. rewrite lookup_insert_eq. reflexivity.
  - unfold MatchDirective_call. rewrite drain_iter.
    eexists. split; [reflexivity|]. split; [reflexivity|].
    unfold MatchDirective_handle_match. rewrite (drain_scoped_replay did _ _ Hsel).
    unfold get_captured. cbn. rewrite lookup_insert_eq. reflexivity.
Qed.

(** X15 on an example. *)
Lemma Def_call_then_exec_witness :
  exists s' g,
    DefDirective_call 0 "echo" (iter body_div) (state_init (ctxt_flag true) ∅)
      = (Ok (iter []), s')
    /\ Ctx.get "echo" (ctxt s') = VCallable 0
    /\ (forall other, other <> "echo" ->
          Ctx.get other (ctxt s') = Ctx.get other (ctxt (state_init (ctxt_flag true) ∅)))
    /\ DefDirective_callable 0 ["what"] ∅ [VStr "foo"] ∅ = Ok g
    /\ drain g s' = (body_div, Finished, s').
Proof.
  refine (proj1 (Def_call_then_exec_replays_the_body 0 "echo" ["what"] ∅ ∅ [VStr "foo"] VNone
                   body_div (state_init (ctxt_flag true) ∅) _ _ _ _)).
  - discriminate.
  - intros H. apply list_elem_of_singleton in H. discriminate.
  - reflexivity.
  - reflexivity.
Defined.

Lemma py_getitem_sequence (item : value) (comps : list value) (idx : nat) :
  item = VTuple comps \/ item = VList comps ->
  py_getitem item idx
  = match comps !! idx with Some x => Ok x | None => Err (PyError "IndexError") end.
Proof.
  intros [-> | ->]; cbn; revert idx; induction comps as [|c comps IH]; intros [|idx];
    try reflexivity; apply IH.
Qed.

Lemma for_scope_spec (item : value) (comps : list value) (targets : list string) :
  item = VTuple comps \/ item = VList comps ->
  NoDup targets ->
  forall idx scope,
    idx + length targets <= length comps ->
    exists sc,
      for_scope idx targets item scope = Ok sc
      /\ (forall i name, targets !! i = Some name -> sc !! name = comps !! (idx + i))
      /\ (forall name, name ∉ targets -> sc !! name = scope !! name).
Proof.
  intros Hitem. induction 1 as [|n targets Hn Hnd IH]; intros idx scope Hlen.
  - exists scope. split; [reflexivity|]. split; [intros i name H; discriminate | reflexivity].
  - cbn [for_scope]. rewrite (py_getitem_sequence item comps idx Hitem).
    cbn [length] in Hlen.
    destruct (comps !! idx) as [v|] eqn:Hv.
    2: { apply lookup_ge_None_1 in Hv. lia. }
    cbn [obind].
    destruct (IH (S idx) (<[n := v]> scope)) as (sc & Hsc & H1 & H2); [lia|].
    exists sc. split; [exact Hsc|]. split.
    + intros [|i] name Hi; cbn in Hi.
      * inversion Hi; subst name. rewrite (H2 n Hn), lookup_insert_eq, Nat.add_0_r.
        symmetry. exact Hv.
      * rewrite (H1 i name Hi). f_equal. lia.
    + intros name Hnot. rewrite H2 by (intros H; apply Hnot; right; exact H).
      apply lookup_insert_ne. intros ->. apply Hnot. left.
Qed.

Lemma for_scope_short (item : value) (comps : list value) (targets : list string) :
  item = VTuple comps \/ item = VList comps ->
  forall idx scope,
    idx <= length comps -> length comps < idx + length targets ->
    for_scope idx targets item scope = Err (PyError "IndexError").
Proof.
  intros Hitem. induction targets as [|n targets IH]; intros idx scope Hle Hlt.
  - cbn in Hlt. lia.
  - cbn [for_scope]. rewrite (py_getitem_sequence item comps idx Hitem).
    destruct (comps !! idx) as [v|] eqn:Hv; [|reflexivity].
    cbn [obind]. apply lookup_lt_Some in Hv.
    apply IH; [lia | cbn [length] in Hlt; lia].
Qed.



Lemma substring_all s : String.substring 0 (String.length s) s = s.
Proof. induction s as [|c s IH]; [reflexivity|]. cbn. rewrite IH. reflexivity. Qed.

Lemma prefix_in_sound s :
  String.prefix " in " s = true ->
  s = String.append " in " (String.substring 4 (String.length s - 4) s).
Proof.
  intros H.
  destruct s as [|c1 [|c2 [|c3 [|c4 rest]]]]; cbn [String.prefix] in H; try discriminate;
    repeat match type of H with
           | context [Ascii.ascii_dec ?a ?b] => destruct (Ascii.ascii_dec a b); [subst|discriminate]
           end; try discriminate.
  cbn [String.length Nat.sub String.substring]. rewrite Nat.sub_0_r, substring_all. reflexivity.
Qed.

Lemma prefix_in_complete rest : String.prefix " in " (String.append " in " rest) = true.
Proof.
  change (String.append " in " rest) with (String " " (String "i" (String "n" (String " " rest)))).
  cbn [String.prefix].
  repeat match goal with
         | |- context [Ascii.ascii_dec ?a ?b] => destruct (Ascii.ascii_dec a b); [|congruence]
         end.
  destruct rest; reflexivity.
Qed.

Lemma split_in_spec s :
  match split_in s with
  | Some (a, b) =>
      s = String.append a (String.append " in " b)
      /\ forall n, in_at n s -> String.length a <= n
  | None => forall n, ~ in_at n s
  end.
Proof.
  induction s as [|c s IH].
  - cbn. intros n (a & b & H & _). destruct a; discriminate.
  - cbn [split_in]. destruct (String.prefix " in " (String c s)) eqn:Hp.
    + split; [apply prefix_in_sound in Hp; rewrite append_nil; exact Hp | intros; cbn; lia].
    + assert (Hhead : forall n, in_at n (String c s) -> exists m, n = S m /\ in_at m s).
      { intros n (a & b & H & Hlen). destruct a as [|x a].
        - rewrite append_nil in H. rewrite H, prefix_in_complete in Hp. discriminate.
        - rewrite append_cons in H. inversion H; subst.
          exists (String.length a). split; [reflexivity|]. exists a, b. split; reflexivity. }
      destruct (split_in s) as [[a b]|].
      * destruct IH as [Hs Hmin]. split.
        -- rewrite append_cons, <- Hs. reflexivity.
        -- intros n Hn. destruct (Hhead n Hn) as (m & -> & Hm).
           cbn [String.length]. specialize (Hmin m Hm). lia.
      * intros n Hn. destruct (Hhead n Hn) as (m & _ & Hm). exact (IH m Hm).
Qed.


(** ** The parser *)

Section ParseProofs.

Variable compiler_parse : string -> outcome ast.

Lemma parse_events_app fname (a b : list event) :
  forall st,
    parse_events compiler_parse fname (a ++ b) st
    = do st1 <- parse_events compiler_parse fname a st;
      parse_events compiler_parse fname b st1.
Proof.
  induction a as [|e a IH]; intros st; [reflexivity|].
  cbn [app parse_events].
  destruct (parse_event compiler_parse fname e st) as [st1|x]; [apply IH | reflexivity].
Qed.

Lemma parse_attrib_plain_app fname p (a b : Attributes) :
  forallb plain_attr a = true ->
  forall st ds na, exists na',
    parse_attrib compiler_parse fname p (a ++ b) st ds na
    = parse_attrib compiler_parse fname p b st ds na'.
Proof.
  induction a as [|[name v] a IH]; intros Hall st ds na.
  - exists na. reflexivity.
  - cbn [forallb] in Hall. apply andb_true_iff in Hall as [Ha Hall].
    unfold plain_attr in Ha. cbn in Ha. apply andb_true_iff in Ha as [Hns Hv].
    destruct v as [value|l]; [|discriminate Hv].
    cbn [app parse_attrib]. apply negb_true_iff in Hns. rewrite Hns.
    destruct (interpolate_total value p) as [frags Hfr]. rewrite Hfr. cbn [obind].
    apply IH. exact Hall.
Qed.

(** X18: an attribute in the namespace of the directives whose local name is not
    that of a directive stops the parse: whatever markup went well before it,
    and whatever ordinary attributes precede it on the start tag, the
    template is not built and the error is [BadDirectiveError] with the local
    name of the attribute, the file name of the template and the line of the
    start tag. *)
Theorem parse_rejects_an_unknown_directive
    (before rest : list event) (st : parser) (tag name : QName)
    (attrs_before attrs_after : Attributes) (value : string) (p : pos)
    (filename : option string) :
  parse_events compiler_parse (filename_or_default filename) before parser_init = Ok st ->
  forallb plain_attr attrs_before = true ->
  namespace name = NAMESPACE ->
  _dir_by_name (localname name) = None ->
  Template_init compiler_parse
    (before ++ EStart tag (attrs_before ++ (name, AVText value) :: attrs_after) p :: rest)
    filename
  = Err (BadDirectiveError (localname name) (filename_or_default filename) p.1).
Proof.
  intros Hbefore Hplain Hns Hdir. unfold Template_init.
  fold (filename_or_default filename).
  rewrite parse_events_app, Hbefore. cbn [obind parse_events parse_event].
  destruct (parse_attrib_plain_app (filename_or_default filename) p attrs_before
              ((name, AVText value) :: attrs_after) Hplain st [] []) as [na' ->].
  cbn [parse_attrib]. rewrite Hns, String.eqb_refl, Hdir. reflexivity.
Qed.

Lemma construct_keeps_stream cls value st d st' :
  construct compiler_parse cls value st = Ok (d, st') -> p_stream st' = p_stream st.
Proof.
  destruct cls; cbn; intros H; try (inversion H; subst; reflexivity).
  - destruct (DefDirective_init compiler_parse value (p_next st)); cbn in H;
      [inversion H; subst; reflexivity | discriminate].
  - destruct (ForDirective_init value); cbn in H;
      [inversion H; subst; reflexivity | discriminate].
Qed.

Lemma parse_attrib_directive_free fname p attrib :
  forall st ds na ds' na' st',
    parse_attrib compiler_parse fname p attrib st ds na = Ok (ds', na', st') ->
    forallb (fun a : QName * attr_value => negb (String.eqb (namespace a.1) NAMESPACE)) na = true ->
    forallb (fun a : QName * attr_value => negb (String.eqb (namespace a.1) NAMESPACE)) na' = true
    /\ p_stream st' = p_stream st.
Proof.
  induction attrib as [|[name v] attrib IH]; intros st ds na ds' na' st' H Hna.
  - cbn in H. inversion H; subst. split; [exact Hna | reflexivity].
  - cbn [parse_attrib] in H. destruct v as [value|l]; [|discriminate].
    destruct (String.eqb (namespace name) NAMESPACE) eqn:Hns.
    + destruct (_dir_by_name (localname name)) as [cls|]; [|discriminate].
      destruct (construct compiler_parse cls value st) as [[d st1]|x] eqn:Hc; [|discriminate].
      cbn [obind fst snd] in H.
      destruct (IH _ _ _ _ _ _ H Hna) as [H1 H2]. split; [exact H1|].
      rewrite H2. eapply construct_keeps_stream. exact Hc.
    + destruct (_interpolate value p) as [frags|x]; [|discriminate]. cbn [obind] in H.
      apply (IH _ _ _ _ _ _ H).
      rewrite forallb_app. cbn. rewrite Hna, Hns. reflexivity.
Qed.

Lemma parse_event_directive_free fname e st st' :
  is_SUB e = false ->
  parse_event compiler_parse fname e st = Ok st' ->
  forallb directive_free (p_stream st) = true ->
  forallb directive_free (p_stream st') = true.
Proof.
  intros He H Hst.
  destruct e as [tag attrib p | tag p | data p | pfx uri p | pfx p | k data p | ex p | loc sub p];
    cbn [parse_event] in H; try discriminate He.
  - destruct (parse_attrib compiler_parse fname p attrib st [] []) as [[[ds na] st1]|x] eqn:Hpa;
      [|discriminate].
    cbn [obind] in H.
    destruct (parse_attrib_directive_free fname p attrib _ _ _ _ _ _ Hpa eq_refl) as [Hna Hs1].
    inversion H; subst st'. clear H. cbn [p_stream stream_append].
    assert (Hs2 : p_stream (match ds with
                            | [] => st1
                            | _ :: _ =>
                                {| p_stream := p_stream st1;
                                   p_dirmap := ((p_depth st1, tag), (p_next st1, length (p_stream st1)))
                                               :: dirmap_del (p_depth st1, tag) (p_dirmap st1);
                                   p_ns_prefix := p_ns_prefix st1; p_depth := p_depth st1;
                                   p_filters := p_filters st1;
                                   p_dirlists := <[p_next st1 := sort_directives ds]> (p_dirlists st1);
                                   p_next := S (p_next st1) |}
                            end) = p_stream st)
      by (destruct ds; exact Hs1).
    rewrite Hs2, forallb_app, Hst. cbn. rewrite Hna. reflexivity.
  - destruct (dirmap_get _ _) as [[loc start_offset]|]; inversion H; subst st'; clear H;
      cbn [p_stream].
    + assert (Hall : forallb directive_free (p_stream st ++ [EEnd tag p]) = true)
        by (rewrite forallb_app, Hst; reflexivity).
      rewrite <- (take_drop start_offset (p_stream st ++ [EEnd tag p])) in Hall.
      rewrite forallb_app in Hall. apply andb_true_iff in Hall as [Ht Hd].
      rewrite forallb_app, Ht. cbn. rewrite Hd. reflexivity.
    + rewrite forallb_app, Hst. reflexivity.
  - destruct (_interpolate data p) as [frags|x]; [|discriminate]. cbn [obind] in H.
    inversion H; subst st'.
    rewrite (proj1 (fold_append_stream frags st)), forallb_app, Hst. cbn.
    clear. induction frags as [|[? ?|? ?] frags IH]; cbn; [reflexivity | exact IH | exact IH].
  - destruct (String.eqb uri NAMESPACE) eqn:Hu; inversion H; subst st'; cbn [p_stream stream_append].
    + exact Hst.
    + rewrite forallb_app, Hst. cbn. rewrite Hu. reflexivity.
  - destruct (p_ns_prefix st !! pfx); inversion H; subst st'; cbn [p_stream stream_append].
    + exact Hst.
    + rewrite forallb_app, Hst. reflexivity.
  - inversion H; subst st'. cbn [p_stream stream_append].
    rewrite forallb_app, Hst. reflexivity.
  - inversion H; subst st'. cbn [p_stream stream_append].
    rewrite forallb_app, Hst. reflexivity.
Qed.

Lemma parse_events_directive_free fname events :
  Forall (fun e => is_SUB e = false) events ->
  forall st st',
    parse_events compiler_parse fname events st = Ok st' ->
    forallb directive_free (p_stream st) = true ->
    forallb directive_free (p_stream st') = true.
Proof.
  induction 1 as [|e events He _ IH]; intros st st' H Hst.
  - cbn in H. inversion H; subst. exact Hst.
  - cbn [parse_events] in H.
    destruct (parse_event compiler_parse fname e st) as [st1|x] eqn:H1; [|discriminate].
    cbn [obind] in H. apply (IH st1 st' H).
    eapply parse_event_directive_free; eassumption.
Qed.

(** X19: in the stream the parser builds, at every depth of nesting in the
    SUB events, no start tag has an attribute in the namespace of the
    directives and no namespace declaration is for that namespace, whatever
    directives the markup used. Nothing is said of the ends of namespace
    scopes: the end of the scope of a prefix that was declared again on a
    nested element stays in the stream. *)
Theorem parse_strips_directive_attributes_and_declarations
    (events : list event) (filename : option string) (tmpl : Template)
    (heap : gmap nat (list directive)) :
  Forall (fun e => is_SUB e = false) events ->
  Template_init compiler_parse events filename = Ok (tmpl, heap) ->
  forallb directive_free (stream tmpl) = true.
Proof.
  intros Hev H. unfold Template_init in H.
  destruct (parse_events compiler_parse _ events parser_init) as [st|x] eqn:Hp; [|discriminate].
  cbn [obind] in H. inversion H; subst. cbn [stream].
  exact (parse_events_directive_free _ events Hev parser_init st Hp eq_refl).
Qed.

End ParseProofs.

(** X18 on [<ul><li class="a" py:when="x">], whose second attribute is no
    directive. *)
Lemma parse_rejects_an_unknown_directive_witness :
  Template_init ex_compiler_parse
    ([EStart (plain_name "ul") [] (1, 0)%Z]
     ++ EStart (plain_name "li")
          ([(plain_name "class", AVText "a")] ++ (py_name "when", AVText "x") :: []) (2, 2)%Z
        :: [EEnd (plain_name "li") (2, 30)%Z; EEnd (plain_name "ul") (3, 0)%Z])
    (Some "page.html")
  = Err (BadDirectiveError "when" "page.html" 2).
Proof.
  refine (parse_rejects_an_unknown_directive ex_compiler_parse
            [EStart (plain_name "ul") [] (1, 0)%Z]
            [EEnd (plain_name "li") (2, 30)%Z; EEnd (plain_name "ul") (3, 0)%Z]
            _ (plain_name "li") (py_name "when") [(plain_name "class", AVText "a")] []
            "x" (2, 2)%Z (Some "page.html") _ _ _ _).
  - vm_compute. reflexivity.
  - reflexivity.
  - reflexivity.
  - reflexivity.
Defined.

(** X19 on the template of the function definition example. *)
Lemma parse_strips_directive_attributes_witness :
  forallb directive_free (stream tmpl_def_strip) = true.
Proof.
  refine (parse_strips_directive_attributes_and_declarations ex_compiler_parse doc_def_strip
            None tmpl_def_strip heap_def_strip _ _).
  - repeat constructor.
  - vm_compute. reflexivity.
Defined.

(** The prefix declared on an element and again on an element inside it:
    the inner end of scope forgets the prefix, and the outer one is handed
    on into the stream. *)
Example parse_keeps_the_end_of_a_redeclared_prefix :
  Template_init ex_compiler_parse
    [EStartNS "py" NAMESPACE (1, 0)%Z;
     EStart (plain_name "div") [] (1, 0)%Z;
     EStartNS "py" NAMESPACE (2, 2)%Z;
     EStart (plain_name "p") [] (2, 2)%Z;
     EEnd (plain_name "p") (2, 40)%Z;
     EEndNS "py" (2, 44)%Z;
     EEnd (plain_name "div") (3, 0)%Z;
     EEndNS "py" (3, 6)%Z] None
  = Ok ({| filename := "<string>";
           stream := [EStart (plain_name "div") [] (1, 0)%Z;
                      EStart (plain_name "p") [] (2, 2)%Z;
                      EEnd (plain_name "p") (2, 40)%Z;
                      EEnd (plain_name "div") (3, 0)%Z;
                      EEndNS "py" (3, 6)%Z];
           pre_filters := [EvalFilter]; filters := [];
           post_filters := [WhitespaceFilter] |}, ∅).
Proof. vm_compute. reflexivity. Qed.

Section SubProofs.

Variable compiler_parse : string -> outcome ast.

Lemma construct_keeps cls value st d st' :
  construct compiler_parse cls value st = Ok (d, st') ->
  p_stream st' = p_stream st /\ p_dirmap st' = p_dirmap st
  /\ p_ns_prefix st' = p_ns_prefix st /\ p_depth st' = p_depth st
  /\ p_dirlists st' = p_dirlists st.
Proof.
  destruct cls; cbn; intros H; try (inversion H; subst; repeat split; reflexivity).
  - destruct (DefDirective_init compiler_parse value (p_next st)); cbn in H;
      [inversion H; subst; repeat split; reflexivity | discriminate].
  - destruct (ForDirective_init value); cbn in H;
      [inversion H; subst; repeat split; reflexivity | discriminate].
Qed.

Lemma parse_attrib_keeps fname p attrib :
  forall st ds na ds' na' st',
    parse_attrib compiler_parse fname p attrib st ds na = Ok (ds', na', st') ->
    p_stream st' = p_stream st /\ p_dirmap st' = p_dirmap st
    /\ p_ns_prefix st' = p_ns_prefix st /\ p_depth st' = p_depth st
    /\ p_dirlists st' = p_dirlists st.
Proof.
  induction attrib as [|[name v] attrib IH]; intros st ds na ds' na' st' H.
  - cbn in H. inversion H; subst. repeat split; reflexivity.
  - cbn [parse_attrib] in H. destruct v as [value|l]; [|discriminate].
    destruct (String.eqb (namespace name) NAMESPACE).
    + destruct (_dir_by_name (localname name)) as [cls|]; [|discriminate].
      destruct (construct compiler_parse cls value st) as [[d st1]|x] eqn:Hc; [|discriminate].
      cbn [obind fst snd] in H.
      destruct (IH _ _ _ _ _ _ H) as (H1 & H2 & H3 & H4 & H5).
      destruct (construct_keeps _ _ _ _ _ Hc) as (C1 & C2 & C3 & C4 & C5).
      repeat split; congruence.
    + destruct (_interpolate value p) as [frags|x]; [|discriminate]. cbn [obind] in H.
      apply (IH _ _ _ _ _ _ H).
Qed.

Lemma parse_attrib_plain_two fname p attrib :
  forallb plain_attr attrib = true ->
  forall st st2 ds na, exists na',
    parse_attrib compiler_parse fname p attrib st ds na = Ok (ds, na', st)
    /\ parse_attrib compiler_parse fname p attrib st2 ds na = Ok (ds, na', st2).
Proof.
  induction attrib as [|[name v] attrib IH]; intros Hall st st2 ds na.
  - cbn. eauto.
  - cbn [forallb] in Hall. apply andb_true_iff in Hall as [Ha Hall].
    unfold plain_attr in Ha. cbn in Ha. apply andb_true_iff in Ha as [Hns Hv].
    destruct v as [value|l]; [|discriminate Hv].
    cbn [parse_attrib]. apply negb_true_iff in Hns. rewrite Hns.
    destruct (interpolate_total value p) as [frags Hfr]. rewrite Hfr. cbn [obind].
    apply IH. exact Hall.
Qed.

Lemma dirmap_get_below m b d tag :
  dirmap_below m b -> (b <= d)%Z -> dirmap_get (d, tag) m = None.
Proof.
  induction 1 as [|[[kd kt] v] m Hk _ IH]; intros Hd; [reflexivity|].
  cbn in Hk. cbn [dirmap_get]. unfold key_eqb. cbn [fst snd].
  destruct (Z.eqb_spec kd d) as [->|_]; [lia|]. cbn. apply IH. exact Hd.
Qed.

Lemma parse_event_plain_two fname e stA stC :
  plain_markup e = true ->
  p_ns_prefix stA = p_ns_prefix stC ->
  p_dirmap stC = [] ->
  match e with
  | EEnd tag _ => dirmap_get ((p_depth stA - 1)%Z, tag) (p_dirmap stA) = None
  | _ => True
  end ->
  exists stA' stC' out,
    parse_event compiler_parse fname e stA = Ok stA'
    /\ parse_event compiler_parse fname e stC = Ok stC'
    /\ p_stream stA' = p_stream stA ++ out
    /\ p_stream stC' = p_stream stC ++ out
    /\ p_dirmap stA' = p_dirmap stA /\ p_dirmap stC' = []
    /\ p_ns_prefix stA' = p_ns_prefix stC'
    /\ p_depth stA' = (p_depth stA + depth_change e)%Z
    /\ p_filters stA' = p_filters stA
    /\ p_dirlists stA' = p_dirlists stA
    /\ p_next stA' = p_next stA.
Proof.
  intros He Hns HdC HdA.
  destruct e as [tag attrib p | tag p | data p | pfx uri p | pfx p | k data p | ex p | loc sub p];
    cbn [plain_markup] in He; try discriminate He; cbn [parse_event depth_change].
  - destruct (parse_attrib_plain_two fname p attrib He stA stC [] []) as (na' & HA & HC).
    rewrite HA, HC. cbn [obind].
    eexists _, _, [EStart tag na' p]. split; [reflexivity|]. split; [reflexivity|].
    cbn. repeat split; try reflexivity; assumption.
  - rewrite HdA, HdC. cbn [dirmap_get].
    eexists _, _, [EEnd tag p]. split; [reflexivity|]. split; [reflexivity|].
    cbn. repeat split; try reflexivity; try assumption; try lia.
  - destruct (interpolate_total data p) as [frags Hfr]. rewrite Hfr. cbn [obind].
    eexists _, _, (map event_of_fragment frags).
    split; [reflexivity|]. split; [reflexivity|].
    assert (Hfold : forall st,
               let st' := fold_left (fun st f => stream_append (event_of_fragment f) st) frags st in
               p_stream st' = p_stream st ++ map event_of_fragment frags
               /\ p_dirmap st' = p_dirmap st /\ p_ns_prefix st' = p_ns_prefix st
               /\ p_depth st' = p_depth st /\ p_filters st' = p_filters st
               /\ p_dirlists st' = p_dirlists st /\ p_next st' = p_next st).
    { clear. induction frags as [|f frags IH]; intros st; cbn [fold_left map].
      - rewrite app_nil_r. repeat split; reflexivity.
      - destruct (IH (stream_append (event_of_fragment f) st)) as (H1 & H2 & H3 & H4 & H5 & H6 & H7).
        cbn in *. rewrite <- app_assoc in H1. repeat split; assumption. }
    destruct (Hfold stA) as (A1 & A2 & A3 & A4 & A5 & A6 & A7).
    destruct (Hfold stC) as (C1 & C2 & C3 & C4 & C5 & C6 & C7).
    repeat split; try assumption; try congruence; try lia.
  - destruct (String.eqb uri NAMESPACE).
    + eexists _, _, []. split; [reflexivity|]. split; [reflexivity|].
      cbn. rewrite !app_nil_r, Hns. repeat split; try reflexivity; try assumption; try lia.
    + eexists _, _, [EStartNS pfx uri p]. split; [reflexivity|]. split; [reflexivity|].
      cbn. repeat split; try reflexivity; try assumption; try lia.
  - rewrite <- Hns. destruct (p_ns_prefix stA !! pfx).
    + eexists _, _, []. split; [reflexivity|]. split; [reflexivity|].
      cbn. rewrite !app_nil_r, Hns. repeat split; try reflexivity; try assumption; try lia.
    + eexists _, _, [EEndNS pfx p]. split; [reflexivity|]. split; [reflexivity|].
      cbn. repeat split; try reflexivity; try assumption; try lia.
  - eexists _, _, [EOther k data p]. split; [reflexivity|]. split; [reflexivity|].
    cbn. repeat split; try reflexivity; try assumption; try lia.
Qed.

Lemma parse_events_plain_two fname body :
  forallb plain_markup body = true ->
  forall (k : nat) stA stC,
    well_nested k body = true ->
    p_ns_prefix stA = p_ns_prefix stC ->
    p_dirmap stC = [] ->
    dirmap_below (p_dirmap stA) (p_depth stA - Z.of_nat k) ->
    exists stA' stC' out,
      parse_events compiler_parse fname body stA = Ok stA'
      /\ parse_events compiler_parse fname body stC = Ok stC'
      /\ p_stream stA' = p_stream stA ++ out
      /\ p_stream stC' = p_stream stC ++ out
      /\ p_dirmap stA' = p_dirmap stA
      /\ p_depth stA' = (p_depth stA - Z.of_nat k)%Z
      /\ p_filters stA' = p_filters stA
      /\ p_dirlists stA' = p_dirlists stA
      /\ p_next stA' = p_next stA.
Proof.
  induction body as [|e body IH]; intros Hall k stA stC Hwn Hns HdC Hbelow.
  - cbn in Hwn. apply Nat.eqb_eq in Hwn. subst k.
    exists stA, stC, []. cbn. rewrite !app_nil_r.
    repeat split; try reflexivity; try lia.
  - cbn [forallb] in Hall. apply andb_true_iff in Hall as [He Hall].
    assert (Hend : match e with
                   | EEnd tag _ => dirmap_get ((p_depth stA - 1)%Z, tag) (p_dirmap stA) = None
                   | _ => True
                   end).
    { destruct e; try exact I. cbn [well_nested] in Hwn.
      destruct k as [|k]; [discriminate|].
      eapply dirmap_get_below; [exact Hbelow | lia]. }
    destruct (parse_event_plain_two fname e stA stC He Hns HdC Hend)
      as (stA1 & stC1 & out1 & PA & PC & SA & SC & DA & DC & NS & DP & FA & LA & NA).
    assert (Hstep : exists k', well_nested k' body = true
                               /\ (Z.of_nat k' = Z.of_nat k + depth_change e)%Z).
    { destruct e; cbn [well_nested depth_change] in *;
        try (exists k; split; [exact Hwn | lia]).
      - exists (S k). split; [exact Hwn | lia].
      - destruct k as [|k]; [discriminate|]. exists k. split; [exact Hwn | lia]. }
    destruct Hstep as (k' & Hwn' & Hk').
    destruct (IH Hall k' stA1 stC1 Hwn' NS DC) as
        (stA' & stC' & out & PA' & PC' & SA' & SC' & DA' & DP' & FA' & LA' & NA').
    { rewrite DA, DP. replace (p_depth stA + depth_change e - Z.of_nat k')%Z
        with (p_depth stA - Z.of_nat k)%Z by lia. exact Hbelow. }
    exists stA', stC', (out1 ++ out).
    cbn [parse_events]. rewrite PA, PC. cbn [obind].
    split; [exact PA'|]. split; [exact PC'|].
    rewrite SA', SC', SA, SC, <- !app_assoc.
    repeat split; try congruence; try lia.
Qed.

Lemma key_eqb_refl (key : Z * QName) : key_eqb key key = true.
Proof.
  unfold key_eqb. rewrite Z.eqb_refl. cbn.
  apply QName_eqb_eq. reflexivity.
Qed.

(** X20: an element whose start tag carries directives becomes one SUB
    event: met where no directive element is open ([dirmap] is empty), with
    markup inside that nests and carries no directive of its own, the events
    from the start tag to the end tag are taken out of the stream and put
    into a single SUB event at the position of the end tag; inside it the
    start tag has lost its directive attributes, the content is what the
    parser makes of the same markup outside the element, and the directive
    list of the SUB event, a new one, holds the element's directives in the
    order of [_dir_order]. The stream before the element and the depth are
    as they were, and no element is left recorded in [dirmap]. *)
Theorem parse_wraps_a_directive_element
    (fname : string) (st : parser) (tag : QName) (attrib new_attrib : Attributes)
    (p p' : pos) (body : list event) (d : directive) (ds : list directive) (st1 : parser) :
  p_dirmap st = [] ->
  parse_attrib compiler_parse fname p attrib st [] [] = Ok (d :: ds, new_attrib, st1) ->
  forallb plain_markup body = true ->
  well_nested 0 body = true ->
  exists st' stb content,
    parse_events compiler_parse fname (EStart tag attrib p :: body ++ [EEnd tag p']) st = Ok st'
    /\ parse_events compiler_parse fname body st = Ok stb
    /\ p_stream stb = p_stream st ++ content
    /\ p_stream st'
       = p_stream st ++ [ESub (p_next st1) (EStart tag new_attrib p :: content ++ [EEnd tag p']) p']
    /\ p_dirlists st' = <[p_next st1 := sort_directives (d :: ds)]> (p_dirlists st)
    /\ p_dirmap st' = []
    /\ p_depth st' = p_depth st.
Proof.
  intros Hdm Hattr Hbody Hwn.
  destruct (parse_attrib_keeps _ _ _ _ _ _ _ _ _ Hattr) as (K1 & K2 & K3 & K4 & K5).
  set (stA := {| p_stream := p_stream st1 ++ [EStart tag new_attrib p];
                 p_dirmap := [((p_depth st1, tag), (p_next st1, length (p_stream st1)))];
                 p_ns_prefix := p_ns_prefix st1; p_depth := (p_depth st1 + 1)%Z;
                 p_filters := p_filters st1;
                 p_dirlists := <[p_next st1 := sort_directives (d :: ds)]> (p_dirlists st1);
                 p_next := S (p_next st1) |}).
  assert (Hstart : parse_event compiler_parse fname (EStart tag attrib p) st = Ok stA).
  { cbn [parse_event]. rewrite Hattr. cbn [obind]. rewrite K2, Hdm. reflexivity. }
  destruct (parse_events_plain_two fname body Hbody 0 stA st Hwn)
    as (stA' & stC' & out & PA & PC & SA & SC & DA & DP & FA & LA & NA).
  { cbn. exact K3. }
  { exact Hdm. }
  { subst stA. cbn. repeat constructor. cbn. lia. }
  eexists _, stC', out.
  cbn [parse_events]. rewrite Hstart. cbn [obind].
  rewrite parse_events_app, PA. cbn [obind parse_events parse_event].
  rewrite DA, DP. subst stA. cbn [p_dirmap p_depth p_stream] in *.
  replace (p_depth st1 + 1 - Z.of_nat 0 - 1)%Z with (p_depth st1) by lia.
  cbn [dirmap_get]. rewrite key_eqb_refl. cbn [obind].
  split; [reflexivity|]. split; [exact PC|]. split; [exact SC|].
  cbn [p_stream p_dirlists p_dirmap p_depth dirmap_del]. rewrite key_eqb_refl.
  rewrite SA, K1, LA. cbn [p_dirlists]. rewrite K5.
  split.
  - rewrite <- !app_assoc. rewrite take_app_length.
    f_equal. rewrite drop_app_length. reflexivity.
  - split; [reflexivity|]. split; [reflexivity|]. exact K4.
Qed.

End SubProofs.

(** X20 on [<li py:if="foo">x</li>] at the start of a document. *)
Lemma parse_wraps_a_directive_element_witness :
  exists st' stb content,
    parse_events ex_compiler_parse "<string>"
      (EStart (plain_name "li") [(py_name "if", AVText "foo")] (2, 2)%Z
         :: [EText "x" (2, 2)%Z] ++ [EEnd (plain_name "li") (2, 41)%Z]) parser_init = Ok st'
    /\ parse_events ex_compiler_parse "<string>" [EText "x" (2, 2)%Z] parser_init = Ok stb
    /\ p_stream stb = p_stream parser_init ++ content
    /\ p_stream st'
       = p_stream parser_init
         ++ [ESub (p_next parser_init)
               (EStart (plain_name "li") [] (2, 2)%Z :: content ++ [EEnd (plain_name "li") (2, 41)%Z])
               (2, 41)%Z]
    /\ p_dirlists st'
       = <[p_next parser_init := sort_directives [IfDirective (Some {| source := "foo" |})]]>
           (p_dirlists parser_init)
    /\ p_dirmap st' = []
    /\ p_depth st' = p_depth parser_init.
Proof.
  refine (parse_wraps_a_directive_element ex_compiler_parse "<string>" parser_init
            (plain_name "li") [(py_name "if", AVText "foo")] [] (2, 2)%Z (2, 41)%Z
            [EText "x" (2, 2)%Z] (IfDirective (Some {| source := "foo" |})) [] parser_init
            _ _ _ _); reflexivity.
Defined.

(** ** The template loader *)

Section LoaderProofs.

Variable compiler_parse : string -> outcome ast.
Variable normpath : string -> string.
Variable join : string -> string -> string.

Lemma load_template_filename f filepath tmpl :
  filepath <> EmptyString ->
  load_template compiler_parse f filepath = Ok tmpl -> l_filename tmpl = filepath.
Proof.
  intros Hne H. unfold load_template, Template_init in H.
  destruct (parse_events compiler_parse _ (content f) parser_init) as [st|x]; [|discriminate].
  cbn in H. inversion H; subst. cbn.
  destruct filepath; [congruence | reflexivity].
Qed.

Lemma search_found fs filename dirs loader tmpl loader' :
  fs !! EmptyString = None ->
  search compiler_parse join fs filename dirs loader = (inr tmpl, loader') ->
  search_path loader' = search_path loader
  /\ auto_reload loader' = auto_reload loader
  /\ _cache loader' !! filename = Some tmpl
  /\ exists f, fs !! l_filename tmpl = Some f /\ _mtime loader' !! filename = Some (mtime f).
Proof.
  intros Hfs. induction dirs as [|dirname rest IH]; intros H; cbn [search] in H.
  - discriminate.
  - destruct (fs !! join dirname filename) as [f|] eqn:Hf; [|exact (IH H)].
    destruct (load_template compiler_parse f (join dirname filename)) as [t|x] eqn:Ht.
    + inversion H; subst. cbn. rewrite !lookup_insert_eq.
      repeat split. exists f. split; [|reflexivity].
      rewrite (load_template_filename f (join dirname filename) tmpl); [exact Hf | | exact Ht].
      intros He. rewrite He in Hf. congruence.
    + destruct (is_IOError x); [exact (IH H) | discriminate].
Qed.

(** X21: loading is cached: a load that returned a template leaves the loader
    such that the next load of the same name, with the files as they are,
    returns the same template and changes nothing; and when the loader does
    not reload, the next load returns it whatever has become of the files,
    were they all removed. (No file has the empty path.) *)
Theorem load_again_returns_the_cached_template
    (fs : gmap string file) (loader loader' : TemplateLoader) (name : string)
    (tmpl : loaded) :
  fs !! EmptyString = None ->
  load compiler_parse normpath join fs loader name = (inr tmpl, loader') ->
  load compiler_parse normpath join fs loader' name = (inr tmpl, loader')
  /\ (auto_reload loader = false ->
      forall fs', load compiler_parse normpath join fs' loader' name = (inr tmpl, loader')).
Proof.
  intros Hfs H.
  assert (Hcached :
            (loader' = loader /\ _cache loader !! normpath name = Some tmpl
             /\ (auto_reload loader = true ->
                 exists f, fs !! l_filename tmpl = Some f
                           /\ _mtime loader !! normpath name = Some (mtime f)))
            \/ search compiler_parse join fs (normpath name) (search_path loader) loader
               = (inr tmpl, loader')).
  { unfold load in H.
    destruct (_cache loader !! normpath name) as [t|] eqn:Hc; [|right; exact H].
    destruct (auto_reload loader) eqn:Har; cbn [negb] in H.
    - destruct (fs !! l_filename t) as [f|] eqn:Hf; [|discriminate].
      destruct (_mtime loader !! normpath name) as [m|] eqn:Hm; [|right; exact H].
      destruct (Z.eqb (mtime f) m) eqn:He; [|right; exact H].
      apply Z.eqb_eq in He. subst m.
      inversion H; subst. left. split; [reflexivity|]. split; [reflexivity|].
      intros _. exists f. split; first [assumption | reflexivity].
    - inversion H; subst. left. split; [reflexivity|]. split; [reflexivity|]. discriminate. }
  assert (Hinv : auto_reload loader' = auto_reload loader
                 /\ _cache loader' !! normpath name = Some tmpl
                 /\ (auto_reload loader = true ->
                     exists f, fs !! l_filename tmpl = Some f
                               /\ _mtime loader' !! normpath name = Some (mtime f))).
  { destruct Hcached as [(-> & Hc & Hm) | Hs].
    - split; [reflexivity|]. split; assumption.
    - destruct (search_found _ _ _ _ _ _ Hfs Hs) as (_ & Har & Hc & Hm).
      split; [exact Har|]. split; [exact Hc|]. intros _. exact Hm. }
  destruct Hinv as (Har & Hc & Hm).
  split.
  - unfold load. rewrite Hc, Har.
    destruct (auto_reload loader) eqn:Ha; cbn [negb]; [|reflexivity].
    destruct (Hm eq_refl) as (f & Hf & Hmt). rewrite Hf, Hmt, Z.eqb_refl. reflexivity.
  - intros Ha fs'. unfold load. rewrite Hc, Har, Ha. reflexivity.
Qed.

Lemma search_misses fs filename dirs loader :
  (forall dirname, dirname ∈ dirs -> fs !! join dirname filename = None) ->
  search compiler_parse join fs filename dirs loader
  = (inl (TemplateNotFound filename (search_path loader)), loader).
Proof.
  induction dirs as [|dirname rest IH]; intros Hmiss; cbn [search]; [reflexivity|].
  rewrite (Hmiss dirname) by left. apply IH. intros d Hd. apply Hmiss. right. exact Hd.
Qed.

Lemma search_skips fs filename (before rest : list string) loader :
  (forall dirname, dirname ∈ before -> fs !! join dirname filename = None) ->
  search compiler_parse join fs filename (before ++ rest) loader
  = search compiler_parse join fs filename rest loader.
Proof.
  induction before as [|dirname before IH]; intros Hmiss; cbn [app search]; [reflexivity|].
  rewrite (Hmiss dirname) by left. apply IH. intros d Hd. apply Hmiss. right. exact Hd.
Qed.

(** X22: a name that is in no directory of the search path: when no template is
    cached under the normalised name, [load] raises [TemplateNotFound] with
    the normalised name and the search path, and leaves the loader as it
    was; so it does for a loader without a search path. *)
Theorem load_raises_TemplateNotFound
    (fs : gmap string file) (loader : TemplateLoader) (name : string) :
  _cache loader !! normpath name = None ->
  (forall d, d ∈ search_path loader -> fs !! join d (normpath name) = None) ->
  load compiler_parse normpath join fs loader name
  = (inl (TemplateNotFound (normpath name) (search_path loader)), loader).
Proof.
  intros Hc Hmiss. unfold load. rewrite Hc. apply search_misses. exact Hmiss.
Qed.

(** X23: the directories of the search path are tried in their order and the
    first that has the file decides: when no template is cached under the
    normalised name and the directories before [dirname] do not have the
    file, a file in [dirname] that parses is the template returned, with the
    include filter after its own pre-filter; it is cached under the
    normalised name with the file's modification time, and the directories
    after [dirname] are not looked at. When the file does not parse, the
    error of the parse leaves [load] and the later directories are not tried
    either, unless the error is an [IOError]. *)
Theorem load_takes_the_first_directory
    (fs : gmap string file) (loader : TemplateLoader) (name : string)
    (before after : list string) (dirname : string) (f : file) :
  _cache loader !! normpath name = None ->
  search_path loader = before ++ dirname :: after ->
  (forall d, d ∈ before -> fs !! join d (normpath name) = None) ->
  fs !! join dirname (normpath name) = Some f ->
  match load_template compiler_parse f (join dirname (normpath name)) with
  | Ok tmpl =>
      load compiler_parse normpath join fs loader name
      = (inr tmpl,
         {| search_path := search_path loader; auto_reload := auto_reload loader;
            _cache := <[normpath name := tmpl]> (_cache loader);
            _mtime := <[normpath name := mtime f]> (_mtime loader) |})
      /\ l_pre_filters tmpl = [TemplateFilter EvalFilter; IncludeFilter]
  | Err x =>
      is_IOError x = false ->
      load compiler_parse normpath join fs loader name = (inl (TemplateFailure x), loader)
  end.
Proof.
  intros Hc Hsp Hmiss Hf. unfold load. rewrite Hc.
  assert (Hs : search compiler_parse join fs (normpath name) (search_path loader) loader
               = search compiler_parse join fs (normpath name) (dirname :: after) loader)
    by (rewrite Hsp; apply search_skips; exact Hmiss).
  rewrite Hs. cbn [search]. rewrite Hf.
  destruct (load_template compiler_parse f (join dirname (normpath name))) as [tmpl|x] eqn:Ht.
  - split; [reflexivity|].
    unfold load_template, Template_init in Ht.
    destruct (parse_events compiler_parse _ (content f) parser_init); [|discriminate].
    cbn in Ht. inversion Ht; subst. reflexivity.
  - intros Hx. rewrite Hx. reflexivity.
Qed.

End LoaderProofs.

(** X21 on a second load of the page. *)
Lemma load_again_witness :
  load ex_compiler_parse ex_normpath ex_join fs_pages
    (load ex_compiler_parse ex_normpath ex_join fs_pages loader_pages "page.html").2
    "page.html"
  = (inr page_loaded,
     (load ex_compiler_parse ex_normpath ex_join fs_pages loader_pages "page.html").2).
Proof.
  refine (proj1 (load_again_returns_the_cached_template ex_compiler_parse ex_normpath ex_join
                   fs_pages loader_pages
                   (load ex_compiler_parse ex_normpath ex_join fs_pages loader_pages
                      "page.html").2
                   "page.html" page_loaded _ _)).
  - reflexivity.
  - vm_compute. reflexivity.
Defined.

(** X22 on an example. *)
Lemma load_raises_TemplateNotFound_witness :
  load ex_compiler_parse ex_normpath ex_join fs_pages loader_pages "missing.html"
  = (inl (TemplateNotFound "missing.html" ["site"; "shared"]), loader_pages).
Proof.
  refine (load_raises_TemplateNotFound ex_compiler_parse ex_normpath ex_join fs_pages
            loader_pages "missing.html" _ _).
  - reflexivity.
  - intros d Hd. apply elem_of_cons in Hd as [->|Hd]; [reflexivity|].
    apply list_elem_of_singleton in Hd. subst d. reflexivity.
Defined.

(** X23 on a page that is in the second directory only. *)
Lemma load_takes_the_first_directory_witness :
  load ex_compiler_parse ex_normpath ex_join fs_pages loader_pages "page.html"
  = (inr page_loaded,
     {| search_path := ["site"; "shared"]; auto_reload := false;
        _cache := {[ "page.html" := page_loaded ]};
        _mtime := {[ "page.html" := 7%Z ]} |})
  /\ l_pre_filters page_loaded = [TemplateFilter EvalFilter; IncludeFilter].
Proof.
  refine (load_takes_the_first_directory ex_compiler_parse ex_normpath ex_join fs_pages
            loader_pages "page.html" ["site"] [] "shared"
            {| content := doc_text; mtime := 7 |} _ _ _ _).
  - reflexivity.
  - reflexivity.
  - intros d Hd. apply list_elem_of_singleton in Hd. subst d. reflexivity.
  - reflexivity.
Defined.
